(** * Verification of the MRML scene (Libs/MRML/vtkMRMLScene.cxx)

    A shallow embedding of [vtkMRMLScene]: the node collection, the cache of
    node IDs, the per-class unique-ID table, the undo and redo stacks, the
    reference-tracking vectors and XML persistence, together with the
    declarations of the two pipeline headers.

    Node objects live in a heap addressed by pointers, because the scene, the
    undo stack and the redo stack alias the same [vtkMRMLNode] objects. *)

From stdpp Require Import gmap strings list fin_maps pretty sorting.
From Stdlib Require Import ZArith Lia.

#[local] Set Warnings "-clear-no-such-hyp".

(** ** The node objects *)

(** Address of a [vtkMRMLNode] object. *)
Definition ptr := nat.

(** The data members of the base class [vtkMRMLNode] that the scene reads or
    writes through the [vtkGetMacro]/[vtkSetMacro] accessors.  [ClassName] is
    what [GetClassName()] returns (the dynamic type of the object); [Scene]
    tells whether [SetScene(this)] has attached the node to the scene. *)
Record vtkMRMLNode := mkNode {
  ClassName : string;
  ID : option string;
  Name : option string;
  Description : option string;
  SingletonTag : option string;
  AddToScene : bool;
  SaveWithScene : bool;
  HideFromEditors : bool;
  Indent : Z;
  SceneRootDir : option string;
  Scene : bool
}.

Global Instance vtkMRMLNode_inhabited : Inhabited vtkMRMLNode :=
  populate (mkNode "" None None None None true true false 0%Z None false).

Global Instance vtkMRMLNode_eq_dec : EqDecision vtkMRMLNode.
Proof. solve_decision. Defined.

Definition SetID (v : option string) (n : vtkMRMLNode) : vtkMRMLNode :=
  {| ClassName := ClassName n; ID := v; Name := Name n;
     Description := Description n; SingletonTag := SingletonTag n;
     AddToScene := AddToScene n; SaveWithScene := SaveWithScene n;
     HideFromEditors := HideFromEditors n; Indent := Indent n;
     SceneRootDir := SceneRootDir n; Scene := Scene n |}.

Definition SetName (v : option string) (n : vtkMRMLNode) : vtkMRMLNode :=
  {| ClassName := ClassName n; ID := ID n; Name := v;
     Description := Description n; SingletonTag := SingletonTag n;
     AddToScene := AddToScene n; SaveWithScene := SaveWithScene n;
     HideFromEditors := HideFromEditors n; Indent := Indent n;
     SceneRootDir := SceneRootDir n; Scene := Scene n |}.

Definition SetSceneRootDir (v : option string) (n : vtkMRMLNode) : vtkMRMLNode :=
  {| ClassName := ClassName n; ID := ID n; Name := Name n;
     Description := Description n; SingletonTag := SingletonTag n;
     AddToScene := AddToScene n; SaveWithScene := SaveWithScene n;
     HideFromEditors := HideFromEditors n; Indent := Indent n;
     SceneRootDir := v; Scene := Scene n |}.

Definition SetScene (v : bool) (n : vtkMRMLNode) : vtkMRMLNode :=
  {| ClassName := ClassName n; ID := ID n; Name := Name n;
     Description := Description n; SingletonTag := SingletonTag n;
     AddToScene := AddToScene n; SaveWithScene := SaveWithScene n;
     HideFromEditors := HideFromEditors n; Indent := Indent n;
     SceneRootDir := SceneRootDir n; Scene := v |}.

(** The conversion of a C string to [std::string]: the scene builds its map keys this way.  A
    NULL pointer has no defined conversion in C++; the model reads it as the
    empty string, and the well-formedness predicates below keep NULL IDs out
    of every collection the theorems speak about. *)
Definition std_string (c : option string) : string := default "" c.

(** The test that a C string is NULL or starts with the terminator. *)
Definition null_or_empty (c : option string) : bool :=
  match c with
  | None => true
  | Some s => bool_decide (s = "")
  end.

(** The methods of [vtkMRMLNode] and of its subclasses that the scene calls
    and whose bodies are outside this file: they are parameters of the
    development.  A method that mutates [this] returns the new value of the
    object. *)
Class MRMLNodeOps := {
  (** [this->IsA(className)]: the class of [this] is, or derives from,
      [className]. *)
  IsA : vtkMRMLNode → string → bool;
  (** [this->GetNodeTagName()] *)
  GetNodeTagName : vtkMRMLNode → string;
  (** [this->CreateNodeInstance()]: a new object of the class of [this]. *)
  CreateNodeInstance : vtkMRMLNode → vtkMRMLNode;
  (** [this->CopyWithSceneWithSingleModifiedEvent(node)] *)
  CopyWithSceneWithSingleModifiedEvent : vtkMRMLNode → vtkMRMLNode → vtkMRMLNode;
  (** [this->Reset()] *)
  Reset : vtkMRMLNode → vtkMRMLNode;
  (** [this->UpdateReferences()] *)
  UpdateReferences : vtkMRMLNode → vtkMRMLNode;
  (** [this->WriteXML(of, indent)] and [this->WriteNodeBodyXML(of, indent)]:
      the text the node appends to the stream. *)
  WriteXML : vtkMRMLNode → Z → string;
  WriteNodeBodyXML : vtkMRMLNode → Z → string
}.

(** What the scene relies on from the VTK library it is compiled against. *)
Class VTKLibrary := {
  VTK_MAJOR_VERSION : Z;
  (** [os << vtkIndent(indent)] *)
  vtkIndent : Z → string
}.

(** [vtkErrorCode::GetErrorCodeFromString], from the enumeration of
    [vtkErrorCode.h]: [NoError = 0], [FirstVTKErrorCode = 20000], then
    [FileNotFoundError], [CannotOpenFileError], ... in this order. *)
Definition GetErrorCodeFromString (name : string) : Z :=
  if decide (name = "NoError") then 0
  else if decide (name = "FileNotFoundError") then 20001
  else if decide (name = "CannotOpenFileError") then 20002
  else 20008.

(** ** The scene *)

Inductive SceneEvent :=
  | SceneClosingEvent | SceneCloseEvent | NewSceneEvent
  | NodeAddedEvent | NodeRemovedEvent.

(** The members of [vtkMRMLScene], with the two pieces of process-wide state
    its methods touch: the [Heap] of node objects and the [Clock] behind
    [vtkTimeStamp::Modified()].  [CurrentScene] is a [vtkCollection]: its
    items in order and its modification time.  The entries of [UndoStack] and
    [RedoStack] are collections of node pointers; the head of the list is
    [back()], the top of the stack.  [Events] logs the [InvokeEvent] calls,
    latest first. *)
Record vtkMRMLScene := mkScene {
  Heap : gmap ptr vtkMRMLNode;
  Clock : nat;
  CurrentScene : list ptr;
  CurrentSceneMTime : nat;
  NodeIDs : gmap string ptr;
  NodeIDsMTime : nat;
  UniqueIDByClass : gmap string Z;
  UndoStack : list (list ptr);
  RedoStack : list (list ptr);
  UndoFlag : bool;
  InUndo : bool;
  ReferencedIDs : list string;
  ReferencingNodes : list (option ptr);
  ReferencedIDChanges : gmap string string;
  ErrorCode : Z;
  RootDirectory : string;
  URL : string;
  MTime : nat;
  Events : list (SceneEvent * option ptr)
}.

Definition set_Heap (v : gmap ptr vtkMRMLNode) (s : vtkMRMLScene) : vtkMRMLScene :=
  {| Heap := v; Clock := Clock s; CurrentScene := CurrentScene s;
     CurrentSceneMTime := CurrentSceneMTime s; NodeIDs := NodeIDs s;
     NodeIDsMTime := NodeIDsMTime s; UniqueIDByClass := UniqueIDByClass s;
     UndoStack := UndoStack s; RedoStack := RedoStack s;
     UndoFlag := UndoFlag s; InUndo := InUndo s;
     ReferencedIDs := ReferencedIDs s;
     ReferencingNodes := ReferencingNodes s;
     ReferencedIDChanges := ReferencedIDChanges s; ErrorCode := ErrorCode s;
     RootDirectory := RootDirectory s; URL := URL s; MTime := MTime s;
     Events := Events s |}.
Definition set_Clock (v : nat) (s : vtkMRMLScene) : vtkMRMLScene :=
  {| Heap := Heap s; Clock := v; CurrentScene := CurrentScene s;
     CurrentSceneMTime := CurrentSceneMTime s; NodeIDs := NodeIDs s;
     NodeIDsMTime := NodeIDsMTime s; UniqueIDByClass := UniqueIDByClass s;
     UndoStack := UndoStack s; RedoStack := RedoStack s;
     UndoFlag := UndoFlag s; InUndo := InUndo s;
     ReferencedIDs := ReferencedIDs s;
     ReferencingNodes := ReferencingNodes s;
     ReferencedIDChanges := ReferencedIDChanges s; ErrorCode := ErrorCode s;
     RootDirectory := RootDirectory s; URL := URL s; MTime := MTime s;
     Events := Events s |}.
Definition set_CurrentScene (v : list ptr) (s : vtkMRMLScene) : vtkMRMLScene :=
  {| Heap := Heap s; Clock := Clock s; CurrentScene := v;
     CurrentSceneMTime := CurrentSceneMTime s; NodeIDs := NodeIDs s;
     NodeIDsMTime := NodeIDsMTime s; UniqueIDByClass := UniqueIDByClass s;
     UndoStack := UndoStack s; RedoStack := RedoStack s;
     UndoFlag := UndoFlag s; InUndo := InUndo s;
     ReferencedIDs := ReferencedIDs s;
     ReferencingNodes := ReferencingNodes s;
     ReferencedIDChanges := ReferencedIDChanges s; ErrorCode := ErrorCode s;
     RootDirectory := RootDirectory s; URL := URL s; MTime := MTime s;
     Events := Events s |}.
Definition set_CurrentSceneMTime (v : nat) (s : vtkMRMLScene) : vtkMRMLScene :=
  {| Heap := Heap s; Clock := Clock s; CurrentScene := CurrentScene s;
     CurrentSceneMTime := v; NodeIDs := NodeIDs s;
     NodeIDsMTime := NodeIDsMTime s; UniqueIDByClass := UniqueIDByClass s;
     UndoStack := UndoStack s; RedoStack := RedoStack s;
     UndoFlag := UndoFlag s; InUndo := InUndo s;
     ReferencedIDs := ReferencedIDs s;
     ReferencingNodes := ReferencingNodes s;
     ReferencedIDChanges := ReferencedIDChanges s; ErrorCode := ErrorCode s;
     RootDirectory := RootDirectory s; URL := URL s; MTime := MTime s;
     Events := Events s |}.
Definition set_NodeIDs (v : gmap string ptr) (s : vtkMRMLScene) : vtkMRMLScene :=
  {| Heap := Heap s; Clock := Clock s; CurrentScene := CurrentScene s;
     CurrentSceneMTime := CurrentSceneMTime s; NodeIDs := v;
     NodeIDsMTime := NodeIDsMTime s; UniqueIDByClass := UniqueIDByClass s;
     UndoStack := UndoStack s; RedoStack := RedoStack s;
     UndoFlag := UndoFlag s; InUndo := InUndo s;
     ReferencedIDs := ReferencedIDs s;
     ReferencingNodes := ReferencingNodes s;
     ReferencedIDChanges := ReferencedIDChanges s; ErrorCode := ErrorCode s;
     RootDirectory := RootDirectory s; URL := URL s; MTime := MTime s;
     Events := Events s |}.
Definition set_NodeIDsMTime (v : nat) (s : vtkMRMLScene) : vtkMRMLScene :=
  {| Heap := Heap s; Clock := Clock s; CurrentScene := CurrentScene s;
     CurrentSceneMTime := CurrentSceneMTime s; NodeIDs := NodeIDs s;
     NodeIDsMTime := v; UniqueIDByClass := UniqueIDByClass s;
     UndoStack := UndoStack s; RedoStack := RedoStack s;
     UndoFlag := UndoFlag s; InUndo := InUndo s;
     ReferencedIDs := ReferencedIDs s;
     ReferencingNodes := ReferencingNodes s;
     ReferencedIDChanges := ReferencedIDChanges s; ErrorCode := ErrorCode s;
     RootDirectory := RootDirectory s; URL := URL s; MTime := MTime s;
     Events := Events s |}.
Definition set_UniqueIDByClass (v : gmap string Z) (s : vtkMRMLScene) : vtkMRMLScene :=
  {| Heap := Heap s; Clock := Clock s; CurrentScene := CurrentScene s;
     CurrentSceneMTime := CurrentSceneMTime s; NodeIDs := NodeIDs s;
     NodeIDsMTime := NodeIDsMTime s; UniqueIDByClass := v;
     UndoStack := UndoStack s; RedoStack := RedoStack s;
     UndoFlag := UndoFlag s; InUndo := InUndo s;
     ReferencedIDs := ReferencedIDs s;
     ReferencingNodes := ReferencingNodes s;
     ReferencedIDChanges := ReferencedIDChanges s; ErrorCode := ErrorCode s;
     RootDirectory := RootDirectory s; URL := URL s; MTime := MTime s;
     Events := Events s |}.
Definition set_UndoStack (v : list (list ptr)) (s : vtkMRMLScene) : vtkMRMLScene :=
  {| Heap := Heap s; Clock := Clock s; CurrentScene := CurrentScene s;
     CurrentSceneMTime := CurrentSceneMTime s; NodeIDs := NodeIDs s;
     NodeIDsMTime := NodeIDsMTime s; UniqueIDByClass := UniqueIDByClass s;
     UndoStack := v; RedoStack := RedoStack s; UndoFlag := UndoFlag s;
     InUndo := InUndo s; ReferencedIDs := ReferencedIDs s;
     ReferencingNodes := ReferencingNodes s;
     ReferencedIDChanges := ReferencedIDChanges s; ErrorCode := ErrorCode s;
     RootDirectory := RootDirectory s; URL := URL s; MTime := MTime s;
     Events := Events s |}.
Definition set_RedoStack (v : list (list ptr)) (s : vtkMRMLScene) : vtkMRMLScene :=
  {| Heap := Heap s; Clock := Clock s; CurrentScene := CurrentScene s;
     CurrentSceneMTime := CurrentSceneMTime s; NodeIDs := NodeIDs s;
     NodeIDsMTime := NodeIDsMTime s; UniqueIDByClass := UniqueIDByClass s;
     UndoStack := UndoStack s; RedoStack := v; UndoFlag := UndoFlag s;
     InUndo := InUndo s; ReferencedIDs := ReferencedIDs s;
     ReferencingNodes := ReferencingNodes s;
     ReferencedIDChanges := ReferencedIDChanges s; ErrorCode := ErrorCode s;
     RootDirectory := RootDirectory s; URL := URL s; MTime := MTime s;
     Events := Events s |}.
Definition set_UndoFlag (v : bool) (s : vtkMRMLScene) : vtkMRMLScene :=
  {| Heap := Heap s; Clock := Clock s; CurrentScene := CurrentScene s;
     CurrentSceneMTime := CurrentSceneMTime s; NodeIDs := NodeIDs s;
     NodeIDsMTime := NodeIDsMTime s; UniqueIDByClass := UniqueIDByClass s;
     UndoStack := UndoStack s; RedoStack := RedoStack s; UndoFlag := v;
     InUndo := InUndo s; ReferencedIDs := ReferencedIDs s;
     ReferencingNodes := ReferencingNodes s;
     ReferencedIDChanges := ReferencedIDChanges s; ErrorCode := ErrorCode s;
     RootDirectory := RootDirectory s; URL := URL s; MTime := MTime s;
     Events := Events s |}.
Definition set_InUndo (v : bool) (s : vtkMRMLScene) : vtkMRMLScene :=
  {| Heap := Heap s; Clock := Clock s; CurrentScene := CurrentScene s;
     CurrentSceneMTime := CurrentSceneMTime s; NodeIDs := NodeIDs s;
     NodeIDsMTime := NodeIDsMTime s; UniqueIDByClass := UniqueIDByClass s;
     UndoStack := UndoStack s; RedoStack := RedoStack s;
     UndoFlag := UndoFlag s; InUndo := v; ReferencedIDs := ReferencedIDs s;
     ReferencingNodes := ReferencingNodes s;
     ReferencedIDChanges := ReferencedIDChanges s; ErrorCode := ErrorCode s;
     RootDirectory := RootDirectory s; URL := URL s; MTime := MTime s;
     Events := Events s |}.
Definition set_ReferencedIDs (v : list string) (s : vtkMRMLScene) : vtkMRMLScene :=
  {| Heap := Heap s; Clock := Clock s; CurrentScene := CurrentScene s;
     CurrentSceneMTime := CurrentSceneMTime s; NodeIDs := NodeIDs s;
     NodeIDsMTime := NodeIDsMTime s; UniqueIDByClass := UniqueIDByClass s;
     UndoStack := UndoStack s; RedoStack := RedoStack s;
     UndoFlag := UndoFlag s; InUndo := InUndo s; ReferencedIDs := v;
     ReferencingNodes := ReferencingNodes s;
     ReferencedIDChanges := ReferencedIDChanges s; ErrorCode := ErrorCode s;
     RootDirectory := RootDirectory s; URL := URL s; MTime := MTime s;
     Events := Events s |}.
Definition set_ReferencingNodes (v : list (option ptr)) (s : vtkMRMLScene) : vtkMRMLScene :=
  {| Heap := Heap s; Clock := Clock s; CurrentScene := CurrentScene s;
     CurrentSceneMTime := CurrentSceneMTime s; NodeIDs := NodeIDs s;
     NodeIDsMTime := NodeIDsMTime s; UniqueIDByClass := UniqueIDByClass s;
     UndoStack := UndoStack s; RedoStack := RedoStack s;
     UndoFlag := UndoFlag s; InUndo := InUndo s;
     ReferencedIDs := ReferencedIDs s; ReferencingNodes := v;
     ReferencedIDChanges := ReferencedIDChanges s; ErrorCode := ErrorCode s;
     RootDirectory := RootDirectory s; URL := URL s; MTime := MTime s;
     Events := Events s |}.
Definition set_ReferencedIDChanges (v : gmap string string) (s : vtkMRMLScene) : vtkMRMLScene :=
  {| Heap := Heap s; Clock := Clock s; CurrentScene := CurrentScene s;
     CurrentSceneMTime := CurrentSceneMTime s; NodeIDs := NodeIDs s;
     NodeIDsMTime := NodeIDsMTime s; UniqueIDByClass := UniqueIDByClass s;
     UndoStack := UndoStack s; RedoStack := RedoStack s;
     UndoFlag := UndoFlag s; InUndo := InUndo s;
     ReferencedIDs := ReferencedIDs s;
     ReferencingNodes := ReferencingNodes s; ReferencedIDChanges := v;
     ErrorCode := ErrorCode s; RootDirectory := RootDirectory s;
     URL := URL s; MTime := MTime s; Events := Events s |}.
Definition set_ErrorCode (v : Z) (s : vtkMRMLScene) : vtkMRMLScene :=
  {| Heap := Heap s; Clock := Clock s; CurrentScene := CurrentScene s;
     CurrentSceneMTime := CurrentSceneMTime s; NodeIDs := NodeIDs s;
     NodeIDsMTime := NodeIDsMTime s; UniqueIDByClass := UniqueIDByClass s;
     UndoStack := UndoStack s; RedoStack := RedoStack s;
     UndoFlag := UndoFlag s; InUndo := InUndo s;
     ReferencedIDs := ReferencedIDs s;
     ReferencingNodes := ReferencingNodes s;
     ReferencedIDChanges := ReferencedIDChanges s; ErrorCode := v;
     RootDirectory := RootDirectory s; URL := URL s; MTime := MTime s;
     Events := Events s |}.
Definition set_MTime (v : nat) (s : vtkMRMLScene) : vtkMRMLScene :=
  {| Heap := Heap s; Clock := Clock s; CurrentScene := CurrentScene s;
     CurrentSceneMTime := CurrentSceneMTime s; NodeIDs := NodeIDs s;
     NodeIDsMTime := NodeIDsMTime s; UniqueIDByClass := UniqueIDByClass s;
     UndoStack := UndoStack s; RedoStack := RedoStack s;
     UndoFlag := UndoFlag s; InUndo := InUndo s;
     ReferencedIDs := ReferencedIDs s;
     ReferencingNodes := ReferencingNodes s;
     ReferencedIDChanges := ReferencedIDChanges s; ErrorCode := ErrorCode s;
     RootDirectory := RootDirectory s; URL := URL s; MTime := v;
     Events := Events s |}.
Definition set_Events (v : list (SceneEvent * option ptr)) (s : vtkMRMLScene) : vtkMRMLScene :=
  {| Heap := Heap s; Clock := Clock s; CurrentScene := CurrentScene s;
     CurrentSceneMTime := CurrentSceneMTime s; NodeIDs := NodeIDs s;
     NodeIDsMTime := NodeIDsMTime s; UniqueIDByClass := UniqueIDByClass s;
     UndoStack := UndoStack s; RedoStack := RedoStack s;
     UndoFlag := UndoFlag s; InUndo := InUndo s;
     ReferencedIDs := ReferencedIDs s;
     ReferencingNodes := ReferencingNodes s;
     ReferencedIDChanges := ReferencedIDChanges s; ErrorCode := ErrorCode s;
     RootDirectory := RootDirectory s; URL := URL s; MTime := MTime s;
     Events := v |}.

(** The constructor, for a given object store and clock.  The [vtkObject]
    constructor stamps the scene, then [vtkCollection::New()] stamps the
    collection, so the collection is younger than [NodeIDsMTime = 0]. *)
Definition New (heap : gmap ptr vtkMRMLNode) (clock : nat) : vtkMRMLScene :=
  {| Heap := heap; Clock := S (S clock);
     CurrentScene := []; CurrentSceneMTime := S (S clock);
     NodeIDs := ∅; NodeIDsMTime := 0; UniqueIDByClass := ∅;
     UndoStack := []; RedoStack := []; UndoFlag := true; InUndo := false;
     ReferencedIDs := []; ReferencingNodes := []; ReferencedIDChanges := ∅;
     ErrorCode := 0; RootDirectory := ""; URL := "";
     MTime := S clock; Events := [] |}.

(** The output file system seen by [Commit]: which paths [ofstream::open]
    can open for writing, and the contents of the files written so far. *)
Record FileSystem := mkFS {
  writable : string → bool;
  files : gmap string string
}.

Definition nl : string := String (Ascii.ascii_of_nat 10) "".

Section Scene.
Context `{ops : MRMLNodeOps} `{vtk : VTKLibrary}.

(** *** Objects and events *)

Definition GetNode (s : vtkMRMLScene) (p : ptr) : vtkMRMLNode := Heap s !!! p.

(** Run a mutating method on the object at [p]. *)
Definition update_node (f : vtkMRMLNode → vtkMRMLNode) (p : ptr)
    (s : vtkMRMLScene) : vtkMRMLScene :=
  set_Heap (<[p := f (GetNode s p)]> (Heap s)) s.

(** [this->Modified()] *)
Definition Modified (s : vtkMRMLScene) : vtkMRMLScene :=
  set_MTime (S (Clock s)) (set_Clock (S (Clock s)) s).

(** [this->InvokeEvent(event, callData)] *)
Definition InvokeEvent (e : SceneEvent) (callData : option ptr)
    (s : vtkMRMLScene) : vtkMRMLScene :=
  set_Events ((e, callData) :: Events s) s.

Definition SetUndoOn (s : vtkMRMLScene) : vtkMRMLScene := set_UndoFlag true s.
Definition SetUndoOff (s : vtkMRMLScene) : vtkMRMLScene := set_UndoFlag false s.

(** *** [vtkCollection] operations on [CurrentScene] *)

Definition CollectionModified (s : vtkMRMLScene) : vtkMRMLScene :=
  set_CurrentSceneMTime (S (Clock s)) (set_Clock (S (Clock s)) s).

(** [this->CurrentScene->vtkCollection::AddItem(n)] *)
Definition AddItem (p : ptr) (s : vtkMRMLScene) : vtkMRMLScene :=
  CollectionModified (set_CurrentScene (CurrentScene s ++ [p]) s).

(** Remove the first occurrence of [p]. *)
Fixpoint remove_first (p : ptr) (l : list ptr) : list ptr :=
  match l with
  | [] => []
  | x :: l' => if decide (x = p) then l' else x :: remove_first p l'
  end.

(** [this->CurrentScene->vtkCollection::RemoveItem(n)]: the first occurrence
    goes; a collection without [n] is left alone, unstamped. *)
Definition RemoveItem (p : ptr) (s : vtkMRMLScene) : vtkMRMLScene :=
  if decide (p ∈ CurrentScene s)
  then CollectionModified (set_CurrentScene (remove_first p (CurrentScene s)) s)
  else s.

(** [this->CurrentScene->RemoveAllItems()] *)
Definition RemoveAllItems (s : vtkMRMLScene) : vtkMRMLScene :=
  if decide (CurrentScene s = []) then s
  else CollectionModified (set_CurrentScene [] s).

(** *** Lookup by class *)

Definition GetNumberOfNodesByClass (s : vtkMRMLScene) (className : string) : nat :=
  length (filter (λ p, IsA (GetNode s p) className = true) (CurrentScene s)).

Fixpoint nth_by_class (s : vtkMRMLScene) (className : string)
    (items : list ptr) (n : nat) : option ptr :=
  match items with
  | [] => None
  | p :: rest =>
      if IsA (GetNode s p) className then
        match n with
        | 0 => Some p
        | S n' => nth_by_class s className rest n'
        end
      else nth_by_class s className rest n
  end.

Definition GetNthNodeByClass (s : vtkMRMLScene) (n : nat) (className : string)
    : option ptr :=
  nth_by_class s className (CurrentScene s) n.

(** *** The cache of node IDs *)

(** The [std::map] from ID to node that the loops over a collection build:
    a later item overwrites an earlier one with the same ID. *)
Definition id_map (heap : gmap ptr vtkMRMLNode) (items : list ptr)
    : gmap string ptr :=
  foldl (λ m p, <[std_string (ID (heap !!! p)) := p]> m) ∅ items.

Definition UpdateNodeIDs (s : vtkMRMLScene) : vtkMRMLScene :=
  let s' :=
    if decide (length (CurrentScene s) = 0) then set_NodeIDs ∅ s
    else if decide (NodeIDsMTime s < CurrentSceneMTime s)
    then set_NodeIDs (id_map (Heap s) (CurrentScene s)) s
    else s in
  set_NodeIDsMTime (CurrentSceneMTime s) s'.

Definition GetNodeByID (id : option string) (s : vtkMRMLScene)
    : option ptr * vtkMRMLScene :=
  match id with
  | None => (None, s)
  | Some id =>
      let s' := UpdateNodeIDs s in
      (NodeIDs s' !! id, s')
  end.

(** *** Unique IDs *)

(** The candidate ID [className] followed by the decimal [index], as the
    [stringstream] of the source assembles it.  Class names are C++
    identifiers, so the extraction [ss >> candidateName] returns the whole
    buffer. *)
Definition candidateName (className : string) (index : Z) : string :=
  className +:+ pretty index.

(** The search loop of [GetUniqueIDIndexByClassFromIndex].  It stops at the
    first candidate that is not in the scene; [fuel] bounds the number of
    occupied candidates it can step over. *)
Fixpoint unique_index_loop (fuel : nat) (className : string) (index : Z)
    (s : vtkMRMLScene) : Z * vtkMRMLScene :=
  let '(node, s') := GetNodeByID (Some (candidateName className index)) s in
  match node with
  | None => (index, s')
  | Some _ =>
      match fuel with
      | 0 => (index, s')
      | S fuel' => unique_index_loop fuel' className (index + 1)%Z s'
      end
  end.

(** The scene holds [length (CurrentScene s)] nodes, hence at most that many
    occupied candidates: this fuel always reaches the free index
    (lemma [unique_index_free]).  The index is a C++ [int]; it stays below
    the hint plus the number of nodes, far from the overflow. *)
Definition GetUniqueIDIndexByClassFromIndex (className : string) (hint : Z)
    (s : vtkMRMLScene) : Z * vtkMRMLScene :=
  unique_index_loop (length (CurrentScene s)) className hint s.

Definition GetUniqueIDIndexByClass (className : string) (s : vtkMRMLScene)
    : Z * vtkMRMLScene :=
  let hint := default 1%Z (UniqueIDByClass s !! className) in
  let '(index, s') := GetUniqueIDIndexByClassFromIndex className hint s in
  (index, set_UniqueIDByClass (<[className := (index + 1)%Z]> (UniqueIDByClass s')) s').

(** Modelled from the spec: [vtkMRMLNode::ConstructAndSetID] is declared
    outside the files at hand.  The node receives an ID built from the given
    string followed by the integer index. *)
Definition ConstructAndSetID (str : string) (index : Z) (n : vtkMRMLNode)
    : vtkMRMLNode :=
  SetID (Some (candidateName str index)) n.

(** *** Reference tracking *)

(** The test of [RemoveNodeReferences] under which entry [i] is kept: the
    referencing node and both IDs are non-NULL and the IDs differ. *)
Definition keeps_reference (s : vtkMRMLScene) (nid : option string)
    (e : option ptr * string) : bool :=
  match e.1 with
  | None => false
  | Some q =>
      match ID (GetNode s q), nid with
      | Some a, Some b => bool_decide (a ≠ b)
      | _, _ => false
      end
  end.

Definition RemoveNodeReferences (p : ptr) (s : vtkMRMLScene) : vtkMRMLScene :=
  let kept := filter (λ e, keeps_reference s (ID (GetNode s p)) e = true)
                     (zip (ReferencingNodes s) (ReferencedIDs s)) in
  set_ReferencingNodes (kept.*1) (set_ReferencedIDs (kept.*2) s).

(** [ClearReferencedNodeID], defined inline in the class declaration. *)
Definition ClearReferencedNodeID (s : vtkMRMLScene) : vtkMRMLScene :=
  set_ReferencedIDChanges ∅ (set_ReferencingNodes [] (set_ReferencedIDs [] s)).

(** *** Adding and removing nodes *)

(** [sn->GetSingletonTag() != NULL && strcmp(sn->GetSingletonTag(), tag) == 0] *)
Definition singleton_matches (tag : string) (sn : vtkMRMLNode) : bool :=
  match SingletonTag sn with
  | Some t => bool_decide (t = tag)
  | None => false
  end.

(** The loop of [AddNodeNoNotify] over [i = 0 .. numNodes - 1] that looks for
    a singleton of the class with the tag.  [GetNthNodeByClass] is never NULL
    for these [i] (lemma [nth_by_class_filter]). *)
Fixpoint singleton_loop (s : vtkMRMLScene) (className tag : string)
    (indices : list nat) : option ptr :=
  match indices with
  | [] => None
  | i :: rest =>
      match GetNthNodeByClass s i className with
      | Some sn =>
          if singleton_matches tag (GetNode s sn) then Some sn
          else singleton_loop s className tag rest
      | None => singleton_loop s className tag rest
      end
  end.

Definition find_singleton (s : vtkMRMLScene) (n : vtkMRMLNode) : option ptr :=
  match SingletonTag n with
  | None => None
  | Some tag =>
      let numNodes := GetNumberOfNodesByClass s (ClassName n) in
      singleton_loop s (ClassName n) tag (seq 0 numNodes)
  end.

(** The block of [AddNodeNoNotify] that gives [n] a new ID and records the
    change. *)
Definition assign_unique_id (p : ptr) (s : vtkMRMLScene) : vtkMRMLScene :=
  let n := GetNode s p in
  let oldID := std_string (ID n) in
  let '(index, s1) := GetUniqueIDIndexByClass (ClassName n) s in
  let s2 := update_node (ConstructAndSetID (ClassName n) index) p s1 in
  let newID := std_string (ID (GetNode s2 p)) in
  if decide (oldID ≠ newID)
  then set_ReferencedIDChanges (<[oldID := newID]> (ReferencedIDChanges s2)) s2
  else s2.

Definition AddNodeNoNotify (p : ptr) (s : vtkMRMLScene)
    : option ptr * vtkMRMLScene :=
  let n := GetNode s p in
  if negb (AddToScene n) then (None, s)
  else
    match find_singleton s n with
    | Some sn =>
        let s1 := update_node
                    (λ this, CopyWithSceneWithSingleModifiedEvent this n) sn s in
        (Some sn, RemoveNodeReferences p s1)
    | None =>
        let '(taken, s1) :=
          if null_or_empty (ID n) then (true, s)
          else let '(found, s') := GetNodeByID (ID n) s in
               (bool_decide (is_Some found), s') in
        let s2 := if taken then assign_unique_id p s1 else s1 in
        let s3 := update_node (SetSceneRootDir (Some (RootDirectory s2))) p s2 in
        let s4 := if null_or_empty (Name (GetNode s3 p))
                  then update_node (λ this, SetName (ID this) this) p s3
                  else s3 in
        let s5 := update_node (SetScene true) p s4 in
        (Some p, AddItem p s5)
    end.

Definition AddNode (p : ptr) (s : vtkMRMLScene) : option ptr * vtkMRMLScene :=
  if negb (AddToScene (GetNode s p)) then (None, s)
  else
    let '(node, s1) := AddNodeNoNotify p s in
    (node, Modified (InvokeEvent NodeAddedEvent (Some p) s1)).

(** The closing loop of [RemoveNode]: every node left in the scene updates
    its references. *)
Definition update_all_references (s : vtkMRMLScene) : vtkMRMLScene :=
  foldl (λ s' q, update_node UpdateReferences q s') s (CurrentScene s).

Definition RemoveNode (n : option ptr) (s : vtkMRMLScene) : vtkMRMLScene :=
  match n with
  | None => s
  | Some p =>
      let s1 := RemoveItem p s in
      let s2 := RemoveNodeReferences p s1 in
      let s3 := InvokeEvent NodeRemovedEvent (Some p) s2 in
      update_all_references s3
  end.

(** *** Clearing the scene *)

Definition ClearUndoStack (s : vtkMRMLScene) : vtkMRMLScene := set_UndoStack [] s.
Definition ClearRedoStack (s : vtkMRMLScene) : vtkMRMLScene := set_RedoStack [] s.

Definition RemoveAllNodesExceptSingletons (s : vtkMRMLScene) : vtkMRMLScene :=
  let removeNodes :=
    filter (λ p, SingletonTag (GetNode s p) = None) (CurrentScene s) in
  foldl (λ s' p, RemoveItem p s') s removeNodes.

Definition ResetNodes (s : vtkMRMLScene) : vtkMRMLScene :=
  foldl (λ s' p, update_node Reset p s') s (CurrentScene s).

Definition Clear (removeSingletons : Z) (s : vtkMRMLScene) : vtkMRMLScene :=
  let s1 := InvokeEvent SceneClosingEvent None (SetUndoOff s) in
  let s2 :=
    if decide (removeSingletons = 0%Z)
    then ResetNodes
           (InvokeEvent SceneCloseEvent None (RemoveAllNodesExceptSingletons s1))
    else InvokeEvent SceneCloseEvent None (RemoveAllItems s1) in
  let s3 := ClearReferencedNodeID s2 in
  let s4 := ClearRedoStack (ClearUndoStack s3) in
  let s5 := set_UniqueIDByClass ∅ s4 in
  SetUndoOn (Modified s5).

(** *** Writing the scene *)

(** The XML element [Commit] writes for one node at the given indentation. *)
Definition write_element (node : vtkMRMLNode) (indent : Z) : string :=
  vtkIndent indent +:+ "<" +:+ GetNodeTagName node +:+ nl
  +:+ WriteXML node indent
  +:+ vtkIndent indent +:+ ">"
  +:+ WriteNodeBodyXML node indent
  +:+ "</" +:+ GetNodeTagName node +:+ ">" +:+ nl.

(** The loop of [Commit] over the items of the scene. *)
Fixpoint write_nodes (heap : gmap ptr vtkMRMLNode) (items : list ptr)
    (indent : Z) : string :=
  match items with
  | [] => ""
  | p :: rest =>
      let node := heap !!! p in
      if negb (SaveWithScene node) then write_nodes heap rest indent
      else
        let deltaIndent := Indent node in
        let indent1 := if (deltaIndent <? 0)%Z then (indent - 2)%Z else indent in
        let indent2 := if (0 <? deltaIndent)%Z then (indent1 + 2)%Z else indent1 in
        write_element node indent1 +:+ write_nodes heap rest indent2
  end.

Definition Commit (url : option string) (s : vtkMRMLScene) (fs : FileSystem)
    : Z * vtkMRMLScene * FileSystem :=
  let url := match url with None => URL s | Some u => u end in
  if negb (writable fs url) then
    let code := if decide (VTK_MAJOR_VERSION ≤ 5)%Z then 2%Z
                else GetErrorCodeFromString "CannotOpenFileError" in
    (1%Z, set_ErrorCode code s, fs)
  else
    let text := "<MRML>" +:+ nl
                +:+ write_nodes (Heap s) (CurrentScene s) 0
                +:+ "</MRML>" +:+ nl in
    let code := if decide (VTK_MAJOR_VERSION ≤ 5)%Z then 0%Z
                else GetErrorCodeFromString "NoError" in
    (1%Z, set_ErrorCode code s,
     {| writable := writable fs; files := <[url := text]> (files fs) |}).

(** *** Undo and redo *)

(** The entries of a [std::map] keyed by [std::string], in iteration order:
    ascending keys. *)
Definition map_items {V : Type} (m : gmap string V) : list (string * V) :=
  merge_sort (λ a b, String.le a.1 b.1) (map_to_list m).

Definition PushIntoUndoStack (s : vtkMRMLScene) : vtkMRMLScene :=
  set_UndoStack (CurrentScene s :: UndoStack s) s.

Definition PushIntoRedoStack (s : vtkMRMLScene) : vtkMRMLScene :=
  set_RedoStack (CurrentScene s :: RedoStack s) s.

(** [ReplaceItem(n, snode)] at every position [n] that holds [copyNode]. *)
Definition replace_item (copyNode snode : ptr) (c : list ptr) : list ptr :=
  (λ q, if decide (q = copyNode) then snode else q) <$> c.

(** [copyNode->CreateNodeInstance()] followed by the copy of [copyNode] into
    the new object, which is placed at an unused address. *)
Definition new_copy (copyNode : ptr) (s : vtkMRMLScene) : ptr * vtkMRMLScene :=
  let node := GetNode s copyNode in
  let snode := fresh (dom (Heap s)) in
  (snode,
   set_Heap (<[snode := CopyWithSceneWithSingleModifiedEvent
                          (CreateNodeInstance node) node]> (Heap s)) s).

Definition CopyNodeInUndoStack (copyNode : ptr) (s : vtkMRMLScene) : vtkMRMLScene :=
  let '(snode, s1) := new_copy copyNode s in
  match UndoStack s1 with
  | undoScene :: rest =>
      set_UndoStack (replace_item copyNode snode undoScene :: rest) s1
  | [] => s1
  end.

Definition CopyNodeInRedoStack (copyNode : ptr) (s : vtkMRMLScene) : vtkMRMLScene :=
  let '(snode, s1) := new_copy copyNode s in
  match RedoStack s1 with
  | undoScene :: rest =>
      set_RedoStack (replace_item copyNode snode undoScene :: rest) s1
  | [] => s1
  end.

Definition SaveStateForUndo (node : option ptr) (s : vtkMRMLScene) : vtkMRMLScene :=
  if InUndo s then s
  else
    let s1 := PushIntoUndoStack (SetUndoOn (ClearRedoStack s)) in
    match node with
    | Some p => CopyNodeInUndoStack p s1
    | None => s1
    end.

(** The first loop shared by [Undo] and [Redo], over the saved map: a saved
    node whose ID is not current is queued in [addNodes]; where the ID is
    current on another object, the current node is backed up with
    [copyInStack] and then overwritten with the saved one. *)
Definition copy_back_step (copyInStack : ptr → vtkMRMLScene → vtkMRMLScene)
    (currentMap : gmap string ptr)
    (acc : vtkMRMLScene * list ptr) (entry : string * ptr)
    : vtkMRMLScene * list ptr :=
  let '(s, addNodes) := acc in
  match currentMap !! entry.1 with
  | None => (s, addNodes ++ [entry.2])
  | Some cur =>
      if decide (entry.2 ≠ cur) then
        let s1 := copyInStack cur s in
        (update_node
           (λ this, CopyWithSceneWithSingleModifiedEvent this (GetNode s1 entry.2))
           cur s1,
         addNodes)
      else (s, addNodes)
  end.

(** The body common to [Undo] and [Redo] once the current state has been
    pushed on the other stack: bring the scene to the saved collection. *)
Definition restore_scene (copyInStack : ptr → vtkMRMLScene → vtkMRMLScene)
    (undoScene : list ptr) (s : vtkMRMLScene) : vtkMRMLScene :=
  let currentMap := id_map (Heap s) (CurrentScene s) in
  let undoMap := id_map (Heap s) undoScene in
  let '(s1, addNodes) :=
    foldl (copy_back_step copyInStack currentMap) (s, []) (map_items undoMap) in
  let removeNodes :=
    (filter (λ e, undoMap !! e.1 = None) (map_items currentMap)).*2 in
  let s2 := foldl (λ s' p, (AddNode p s').2) s1 addNodes in
  foldl (λ s' p, RemoveNode (Some p) s') s2 removeNodes.

Definition Undo (s : vtkMRMLScene) : vtkMRMLScene :=
  match UndoStack s with
  | [] => s
  | undoScene :: _ =>
      let s1 := PushIntoRedoStack (set_InUndo true s) in
      let s2 := restore_scene CopyNodeInRedoStack undoScene s1 in
      let s3 := set_UndoStack (tail (UndoStack s2)) s2 in
      set_InUndo false (Modified s3)
  end.

Definition Redo (s : vtkMRMLScene) : vtkMRMLScene :=
  match RedoStack s with
  | [] => s
  | undoScene :: _ =>
      let s1 := PushIntoUndoStack s in
      let s2 := restore_scene CopyNodeInUndoStack undoScene s1 in
      let s3 := set_RedoStack (tail (RedoStack s2)) s2 in
      Modified s3
  end.

End Scene.

(** ** The base class as an instance

    The behaviour of the base class [vtkMRMLNode] itself, used to run the
    scene on concrete nodes: [CopyWithScene] takes over the scene and the ID
    of the source when they are set and then copies the base members,
    [Reset] copies a new instance into the node and keeps the flags and the
    singleton tag, and [UpdateReferences] has an empty body. *)

Definition base_CreateNodeInstance (n : vtkMRMLNode) : vtkMRMLNode :=
  mkNode (ClassName n) None None None None true true false 0%Z None false.

Definition base_Copy (this node : vtkMRMLNode) : vtkMRMLNode :=
  {| ClassName := ClassName this; ID := ID this; Name := Name node;
     Description := Description node;
     SingletonTag := match SingletonTag node with
                     | Some t => Some t
                     | None => SingletonTag this
                     end;
     AddToScene := AddToScene this; SaveWithScene := SaveWithScene node;
     HideFromEditors := HideFromEditors node; Indent := Indent this;
     SceneRootDir := SceneRootDir this; Scene := Scene this |}.

Definition base_CopyWithScene (this node : vtkMRMLNode) : vtkMRMLNode :=
  let this1 := if Scene node then SetScene true this else this in
  let this2 := match ID node with
               | Some id => SetID (Some id) this1
               | None => this1
               end in
  base_Copy this2 node.

Definition base_Reset (this : vtkMRMLNode) : vtkMRMLNode :=
  let copied := base_CopyWithScene this (base_CreateNodeInstance this) in
  {| ClassName := ClassName copied; ID := ID copied; Name := Name copied;
     Description := Description copied; SingletonTag := SingletonTag this;
     AddToScene := AddToScene copied; SaveWithScene := SaveWithScene this;
     HideFromEditors := HideFromEditors this; Indent := Indent copied;
     SceneRootDir := SceneRootDir copied; Scene := Scene copied |}.

Definition spaces (n : Z) : string :=
  foldr (λ _ acc, String (Ascii.ascii_of_nat 32) acc) "" (seq 0 (Z.to_nat n)).

Definition base_ops : MRMLNodeOps :=
  {| IsA := λ n className,
       bool_decide (ClassName n = className)
       || bool_decide (className = "vtkMRMLNode");
     GetNodeTagName := ClassName;
     CreateNodeInstance := base_CreateNodeInstance;
     CopyWithSceneWithSingleModifiedEvent := base_CopyWithScene;
     Reset := base_Reset;
     UpdateReferences := λ n, n;
     WriteXML := λ n indent,
       spaces indent +:+ " id=" +:+ std_string (ID n)
       +:+ " name=" +:+ std_string (Name n);
     WriteNodeBodyXML := λ _ _, "" |}.

Definition vtk5 : VTKLibrary := {| VTK_MAJOR_VERSION := 5; vtkIndent := spaces |}.

(** ** The written document, stated from the scene *)

Section Document.
Context `{ops : MRMLNodeOps} `{vtk : VTKLibrary}.

(** The nodes that are saved with the scene, in scene order. *)
Definition saved_nodes (s : vtkMRMLScene) : list vtkMRMLNode :=
  filter (λ n, SaveWithScene n = true) (GetNode s <$> CurrentScene s).

(** The indentation of each saved node: a node with a negative [Indent]
    steps back by two before it is written, a node with a positive one
    pushes what follows forward by two. *)
Fixpoint element_indents (nodes : list vtkMRMLNode) (indent : Z) : list Z :=
  match nodes with
  | [] => []
  | n :: rest =>
      let here := if (Indent n <? 0)%Z then (indent - 2)%Z else indent in
      here :: element_indents rest (if (0 <? Indent n)%Z then (here + 2)%Z else here)
  end.

Definition concat_strings (l : list string) : string := foldr String.append "" l.

(** One element per saved node. *)
Definition MRML_elements (s : vtkMRMLScene) : list string :=
  zip_with write_element (saved_nodes s) (element_indents (saved_nodes s) 0).

(** The path [Commit] opens: the argument, or the URL of the scene when the
    argument is NULL. *)
Definition commit_path (url : option string) (s : vtkMRMLScene) : string :=
  match url with None => URL s | Some u => u end.

Definition MRML_document (s : vtkMRMLScene) : string :=
  "<MRML>" +:+ nl +:+ concat_strings (MRML_elements s) +:+ "</MRML>" +:+ nl.

End Document.

(** ** The pipeline headers

    The member functions each class declares, in the order of the header,
    with the access section and whether the declaration is [virtual].
    Constructors, destructors, assignment and the members generated by
    [vtkTypeMacro] are left out. *)

Module Pipeline.

Inductive Access := Public | Protected | Private.

Record MemberFunction := mkMember {
  access : Access;
  is_virtual : bool;
  name : string
}.

(** [common/vtkDataObject.h], [class vtkDataObject : public vtkObject] *)
Definition vtkDataObject : list MemberFunction :=
  [ mkMember Public false "New"; mkMember Public false "GetClassName";
    mkMember Public false "PrintSelf"; mkMember Public true "MakeObject";
    mkMember Public false "GetSource"; mkMember Public false "SetSource";
    mkMember Public false "GetMTime"; mkMember Public true "Initialize";
    mkMember Public false "ReleaseData";
    mkMember Public false "ShouldIReleaseData";
    mkMember Public false "GetDataReleased";
    mkMember Public false "SetReleaseDataFlag";
    mkMember Public false "GetReleaseDataFlag";
    mkMember Public false "ReleaseDataFlagOn";
    mkMember Public false "ReleaseDataFlagOff";
    mkMember Public false "SetGlobalReleaseDataFlag";
    mkMember Public false "GlobalReleaseDataFlagOn";
    mkMember Public false "GlobalReleaseDataFlagOff";
    mkMember Public false "GetGlobalReleaseDataFlag";
    mkMember Public false "SetFieldData"; mkMember Public false "GetFieldData";
    mkMember Public false "UnRegister";
    mkMember Public true "GetNetReferenceCount";
    mkMember Public true "Update"; mkMember Public true "InternalUpdate";
    mkMember Public true "UpdateInformation";
    mkMember Public true "SetUpdateExtent";
    mkMember Public false "SetMemoryLimit"; mkMember Public false "GetMemoryLimit";
    mkMember Public false "SetEstimatedWholeMemorySize";
    mkMember Public true "GetEstimatedWholeMemorySize";
    mkMember Public true "GetEstimatedUpdateMemorySize";
    mkMember Public true "GetActualMemorySize";
    mkMember Public false "SetPipelineMTime";
    mkMember Public false "GetPipelineMTime";
    mkMember Public false "CopyUpdateExtent";
    mkMember Public true "GetGenericUpdateExtent";
    mkMember Public true "CopyGenericUpdateExtent";
    mkMember Public false "GetDataInformation";
    mkMember Public false "CopyInformation";
    mkMember Public true "GetDataObjectType";
    mkMember Public false "GetUpdateTime"; mkMember Public false "PreUpdate";
    mkMember Protected true "ClipUpdateExtentWithWholeExtent" ].

(** [Common/ExecutionModel/vtkHyperTreeGridAlgorithm.h],
    [class vtkHyperTreeGridAlgorithm : public vtkAlgorithm] *)
Definition vtkHyperTreeGridAlgorithm : list MemberFunction :=
  [ mkMember Public false "PrintSelf";
    mkMember Public false "GetOutput"; mkMember Public true "SetOutput";
    mkMember Public false "GetHyperTreeGridOutput";
    mkMember Public false "GetPolyDataOutput";
    mkMember Public false "GetUnstructuredGridOutput";
    mkMember Public true "ProcessRequest";
    mkMember Public false "SetInputData"; mkMember Public false "AddInputData";
    mkMember Protected true "RequestInformation";
    mkMember Protected true "RequestData";
    mkMember Protected true "RequestUpdateExtent";
    mkMember Protected true "ProcessTrees";
    mkMember Protected false "FillInputPortInformation";
    mkMember Protected false "FillOutputPortInformation" ].

Definition declares (cls : list MemberFunction) (method : string) : bool :=
  bool_decide (method ∈ name <$> cls).

(** The operations of the execution-request protocol. *)
Definition request_protocol : list string :=
  [ "ProcessRequest"; "RequestData"; "RequestInformation"; "RequestUpdateExtent" ].

Definition provides_protocol (cls : list MemberFunction) : Prop :=
  ∀ method, method ∈ request_protocol → declares cls method = true.

End Pipeline.

(** ** Well-formed scenes *)

(** Number of positions of a collection that hold [p]. *)
Definition occurrences (p : ptr) (items : list ptr) : nat :=
  length (filter (λ q, q = p) items).

(** The key under which the maps by ID file the node at [p]. *)
Definition node_key (heap : gmap ptr vtkMRMLNode) (p : ptr) : string :=
  std_string (ID (heap !!! p)).

(** The node has an ID, and it is not the empty string. *)
Definition has_id (n : vtkMRMLNode) : Prop :=
  ∃ id, ID n = Some id ∧ id ≠ "".

(** The time stamps are in order, and a cache that claims to be up to date
    ([NodeIDsMTime] has caught up with the collection) holds the IDs of the
    nodes of the scene. *)
Definition cache_ok (s : vtkMRMLScene) : Prop :=
  NodeIDsMTime s ≤ CurrentSceneMTime s ∧
  CurrentSceneMTime s ≤ Clock s ∧
  (NodeIDsMTime s = CurrentSceneMTime s → CurrentScene s ≠ [] →
   NodeIDs s = id_map (Heap s) (CurrentScene s)).

(** The scene after [UpdateNodeIDs] has brought the cache up to date. *)
Definition synced (s : vtkMRMLScene) : vtkMRMLScene :=
  set_NodeIDsMTime (CurrentSceneMTime s)
    (set_NodeIDs (id_map (Heap s) (CurrentScene s)) s).

(** [index] is the smallest index at or above [hint] whose candidate ID is
    not a key of [m]. *)
Definition first_free_index (m : gmap string ptr) (className : string)
    (hint index : Z) : Prop :=
  (hint ≤ index)%Z ∧
  m !! candidateName className index = None ∧
  ∀ j, (hint ≤ j < index)%Z → is_Some (m !! candidateName className j).

(** What the proofs assume of the node methods that are parameters: [IsA]
    recognises the own class of a node and depends on the class only;
    copying a node into another keeps the class of the target, takes over
    the ID and the singleton tag of the source when they are set and keeps
    those of the target otherwise (the undo stack files the copies made by
    [CopyNodeInUndoStack] under the ID of their source); and
    [UpdateReferences] leaves class, ID, singleton tag and [AddToScene]
    flag alone. *)
Class MRMLNodeLaws `{ops : MRMLNodeOps} : Prop := {
  IsA_ClassName n : IsA n (ClassName n) = true;
  IsA_class n m className :
    ClassName n = ClassName m → IsA n className = IsA m className;
  Copy_ClassName this node :
    ClassName (CopyWithSceneWithSingleModifiedEvent this node) = ClassName this;
  Copy_ID this node :
    ID (CopyWithSceneWithSingleModifiedEvent this node)
    = match ID node with Some id => Some id | None => ID this end;
  Copy_SingletonTag this node :
    SingletonTag (CopyWithSceneWithSingleModifiedEvent this node)
    = match SingletonTag node with
      | Some t => Some t
      | None => SingletonTag this
      end;
  UpdateReferences_ClassName n : ClassName (UpdateReferences n) = ClassName n;
  UpdateReferences_ID n : ID (UpdateReferences n) = ID n;
  UpdateReferences_SingletonTag n :
    SingletonTag (UpdateReferences n) = SingletonTag n;
  UpdateReferences_AddToScene n :
    AddToScene (UpdateReferences n) = AddToScene n
}.

(** ** Example scenes and file systems *)

Definition clear_example : vtkMRMLScene :=
  set_UndoStack [[1]] (set_RedoStack [[]] (set_CurrentScene [1; 2]
    (New (<[1 := mkNode "vtkMRMLViewNode" (Some "vtkMRMLViewNode1") None None
                   (Some "Main") true true false 0%Z None true]>
          (<[2 := mkNode "vtkMRMLModelNode" (Some "vtkMRMLModelNode1") None
                    None None true false false 0%Z None true]> ∅)) 0))).

Definition fs_open : FileSystem := mkFS (λ _, true) ∅.

(** ** The outcome of adding a node, in closed form *)

(** The node [n] as it enters the collection: with its ID settled, the
    root directory of the scene, its ID for a name when it had none, and
    the scene attached. *)
Definition added_node (root : string) (id : option string) (n : vtkMRMLNode)
    : vtkMRMLNode :=
  let n1 := SetSceneRootDir (Some root) (SetID id n) in
  SetScene true (if null_or_empty (Name n1) then SetName (ID n1) n1 else n1).

Section AddedScene.
Context `{ops : MRMLNodeOps}.

(** The scene after [AddNodeNoNotify] has appended the node at [p] under
    the ID [id], with the unique-ID table [table] and the recorded ID
    changes [changes]. *)
Definition added_scene (p : ptr) (id : option string) (table : gmap string Z)
    (changes : gmap string string) (s : vtkMRMLScene) : vtkMRMLScene :=
  AddItem p
    (set_Heap (<[p := added_node (RootDirectory s) id (GetNode s p)]> (Heap s))
       (set_ReferencedIDChanges changes
          (set_UniqueIDByClass table (synced s)))).

(** The ID of the node at [p] is already that of a node of the scene. *)
Definition id_in_scene (s : vtkMRMLScene) (id : option string) : Prop :=
  ∃ q, q ∈ CurrentScene s ∧ ID (GetNode s q) = id.

(** [AddNodeNoNotify] has to give the node a new ID. *)
Definition needs_new_id (s : vtkMRMLScene) (id : option string) : Prop :=
  id = None ∨ id = Some "" ∨ id_in_scene s id.

End AddedScene.

Section SceneProperties.
Context `{ops : MRMLNodeOps}.

(** [index] is the smallest index at or above [hint] such that no node of
    the scene has the ID made of [className] followed by [index]. *)
Definition smallest_unused_index (s : vtkMRMLScene) (className : string)
    (hint index : Z) : Prop :=
  (hint ≤ index)%Z ∧
  ¬ id_in_scene s (Some (candidateName className index)) ∧
  ∀ j, (hint ≤ j < index)%Z → id_in_scene s (Some (candidateName className j)).

(** The node at [q] is an instance of [className] and carries the singleton
    tag [tag]. *)
Definition is_singleton_of (s : vtkMRMLScene) (className tag : string)
    (q : ptr) : Prop :=
  IsA (GetNode s q) className = true ∧ SingletonTag (GetNode s q) = Some tag.

Global Instance is_singleton_of_dec s className tag q :
  Decision (is_singleton_of s className tag q).
Proof. unfold is_singleton_of. apply _. Defined.

(** The first node of the scene, in collection order, that is a singleton
    of the class with the tag. *)
Definition first_singleton (s : vtkMRMLScene) (className tag : string)
    : option ptr :=
  head (filter (is_singleton_of s className tag) (CurrentScene s)).

(** No two nodes of the scene have the same class and the same singleton
    tag. *)
Definition singletons_unique (s : vtkMRMLScene) : Prop :=
  ∀ p q tag,
    p ∈ CurrentScene s → q ∈ CurrentScene s →
    ClassName (GetNode s p) = ClassName (GetNode s q) →
    SingletonTag (GetNode s p) = Some tag →
    SingletonTag (GetNode s q) = Some tag →
    p = q.

(** Distinct nodes of the scene have distinct IDs, none of them NULL or
    empty. *)
Definition ids_unique (s : vtkMRMLScene) : Prop :=
  (∀ p, p ∈ CurrentScene s → has_id (GetNode s p)) ∧
  (∀ p q, p ∈ CurrentScene s → q ∈ CurrentScene s →
          ID (GetNode s p) = ID (GetNode s q) → p = q).

(** The cache is behind the collection: the next lookup rebuilds it. *)
Definition cache_stale (s : vtkMRMLScene) : Prop :=
  NodeIDsMTime s < CurrentSceneMTime s ∧ CurrentSceneMTime s ≤ Clock s.

(** The scenes that [AddNode] and [RemoveNode] produce from a new, empty
    scene.  Client code may create or modify node objects that are not in
    the scene between two calls. *)
Inductive reachable : vtkMRMLScene → Prop :=
  | reachable_New heap clock : reachable (New heap clock)
  | reachable_AddNode s p : reachable s → reachable (AddNode p s).2
  | reachable_RemoveNode s n : reachable s → reachable (RemoveNode n s)
  | reachable_client s p node :
      reachable s → p ∉ CurrentScene s →
      reachable (set_Heap (<[p := node]> (Heap s)) s).

(** The entries of the reference-tracking vectors, pairwise. *)
Definition references (s : vtkMRMLScene) : list (option ptr * string) :=
  zip (ReferencingNodes s) (ReferencedIDs s).

End SceneProperties.

(** Nodes for the examples: a view node with the singleton tag [Main] (1),
    a second view node with the same tag that arrives with the ID of the
    first model node (2), a model node (3), a view node with the tag whose
    [AddToScene] flag is unset (4), and a view node with the tag and no ID
    (5). *)
Definition example_node (className : string) (id tag : option string)
    (add : bool) : vtkMRMLNode :=
  mkNode className id None None tag add true false 0%Z None false.

Definition example_heap : gmap ptr vtkMRMLNode :=
  <[1 := example_node "vtkMRMLViewNode" None (Some "Main") true]>
  (<[2 := example_node "vtkMRMLViewNode" (Some "vtkMRMLModelNode1")
            (Some "Main") true]>
  (<[3 := example_node "vtkMRMLModelNode" None None true]>
  (<[4 := example_node "vtkMRMLViewNode" None (Some "Main") false]>
  (<[5 := example_node "vtkMRMLViewNode" None (Some "Main") true]> ∅)))).

(** A scene that holds the singleton view node. *)
Definition view_scene : vtkMRMLScene :=
  (@AddNode base_ops 1 (New example_heap 0)).2.

(** The model node, then the singleton view node, then the second view node
    with the tag, which is merged into the first. *)
Definition merged_scene : vtkMRMLScene :=
  (@AddNode base_ops 2
     (@AddNode base_ops 1 (@AddNode base_ops 3 (New example_heap 0)).2).2).2.

(** The view node is added and the state saved for undo; the node is then
    removed and node 5, another view node with the tag, is added. *)
Definition replaced_singleton_scene : vtkMRMLScene :=
  (@AddNode base_ops 5
     (@RemoveNode base_ops (Some 1)
        (@SaveStateForUndo base_ops None view_scene))).2.

(** ** Restoring a saved collection *)

(** The scene [s] with another heap and other stacks: the first loop of
    [Undo] and [Redo] changes nothing else. *)
Definition with_heap_stacks (heap : gmap ptr vtkMRMLNode)
    (undo redo : list (list ptr)) (s : vtkMRMLScene) : vtkMRMLScene :=
  set_UndoStack undo (set_RedoStack redo (set_Heap heap s)).

(** The two scenes agree on every member but the heap and the stacks. *)
Definition same_but_heap_stacks (s s' : vtkMRMLScene) : Prop :=
  with_heap_stacks ∅ [] [] s' = with_heap_stacks ∅ [] [] s.

Section BackupNode.
Context `{ops : MRMLNodeOps}.

(** The copy that [CopyNodeInUndoStack] and [CopyNodeInRedoStack] put in
    place of a node. *)
Definition backup_node (n : vtkMRMLNode) : vtkMRMLNode :=
  CopyWithSceneWithSingleModifiedEvent (CreateNodeInstance n) n.

End BackupNode.

(** The saved nodes whose ID is not in the current scene, and the current
    nodes whose ID is not in the saved collection. *)
Definition only_in (heap : gmap ptr vtkMRMLNode) (l other : list ptr) : list ptr :=
  filter (λ p, node_key heap p ∉ node_key heap <$> other) l.

(** The node can be handed back to [AddNode] as it is: its flag is set and
    it is not a singleton. *)
Definition addable (n : vtkMRMLNode) : Prop :=
  AddToScene n = true ∧ SingletonTag n = None.

(** What the theorems on [Undo] and [Redo] ask of a scene and of the saved
    collection on top of the stack: the ID cache is out of date or agrees
    with the scene, the objects are allocated, the nodes carry non-empty
    IDs that are distinct within the scene and within the saved collection,
    and the saved nodes that are to be added back can be. *)
Record restorable (s : vtkMRMLScene) (saved : list ptr) : Prop := {
  restorable_cache : cache_ok s;
  restorable_alloc : ∀ p, p ∈ CurrentScene s ++ saved → p ∈ dom (Heap s);
  restorable_ids : ∀ p, p ∈ CurrentScene s ++ saved → has_id (GetNode s p);
  restorable_current : NoDup (node_key (Heap s) <$> CurrentScene s);
  restorable_saved : NoDup (node_key (Heap s) <$> saved);
  restorable_addable :
    ∀ p, p ∈ only_in (Heap s) saved (CurrentScene s) → addable (GetNode s p)
}.

(** The current node [c] is overwritten in the first loop of [Undo] or
    [Redo]: a saved entry has its ID on another object. *)
Definition is_target (currentMap : gmap string ptr) (rest : list (string * ptr))
    (c : ptr) : Prop :=
  ∃ id u, (id, u) ∈ rest ∧ currentMap !! id = Some c ∧ u ≠ c.

Section BackupRel.
Context `{ops : MRMLNodeOps}.

(** How an entry [a] of the stack top relates to the entry [c] it had
    before the loop: it is [c] itself when [c] is not overwritten, and a
    new object holding the backup of [c] when it is. *)
Definition backup_rel (currentMap : gmap string ptr) (rest : list (string * ptr))
    (s s' : vtkMRMLScene) (a c : ptr) : Prop :=
  (a = c ∧ ¬ is_target currentMap rest c) ∨
  (is_target currentMap rest c ∧ (a ∉ dom (Heap s)) ∧ (a ∈ dom (Heap s')) ∧
   GetNode s' a = backup_node (GetNode s c)).

End BackupRel.

(** The current node [c] has a saved counterpart, a node of the saved
    collection with its ID, on another object. *)
Definition is_overwritten (s : vtkMRMLScene) (saved : list ptr) (c : ptr) : Prop :=
  c ∈ CurrentScene s ∧
  ∃ u, u ∈ saved ∧ node_key (Heap s) u = node_key (Heap s) c ∧ u ≠ c.

Section Backups.
Context `{ops : MRMLNodeOps}.

(** The top of the stack that receives the state before the restore, entry
    by entry against the collection [T] that was pushed: a node that is not
    overwritten is there itself, an overwritten one is replaced by a new
    object that holds its backup. *)
Definition backed_up (s : vtkMRMLScene) (saved : list ptr) (s' : vtkMRMLScene)
    (T' T : list ptr) : Prop :=
  Forall2 (λ a c,
    (a = c ∧ ¬ is_overwritten s saved c) ∨
    (is_overwritten s saved c ∧ (a ∉ dom (Heap s)) ∧ (a ∈ dom (Heap s')) ∧
     GetNode s' a = backup_node (GetNode s c))) T' T.

End Backups.

(** The set of IDs of the nodes of a collection, and of the scene. *)
Definition collection_ids (heap : gmap ptr vtkMRMLNode) (items : list ptr)
    : gset string :=
  list_to_set (node_key heap <$> items).

Definition scene_ids (s : vtkMRMLScene) : gset string :=
  collection_ids (Heap s) (CurrentScene s).

Section Restored.
Context `{ops : MRMLNodeOps}.

(** The scene [s'] is the scene [s] brought to the saved collection: the
    current nodes whose ID is saved stay, in their order, followed by the
    saved nodes whose ID was not current; the IDs of the scene are those of
    the saved collection; no object has changed its ID; a current node with
    a saved counterpart on another object holds the copy of the counterpart
    (and has since updated its references, as [RemoveNode] asks of every
    node it leaves in the scene); the current nodes that were removed kept
    their flag and singleton tag. *)
Record restored (s : vtkMRMLScene) (saved : list ptr) (s' : vtkMRMLScene)
    : Prop := {
  restored_scene :
    ∃ addNodes,
      addNodes ≡ₚ only_in (Heap s) saved (CurrentScene s) ∧
      CurrentScene s'
      = filter (λ c, node_key (Heap s) c ∈ node_key (Heap s) <$> saved)
          (CurrentScene s) ++ addNodes;
  restored_ids : scene_ids s' = collection_ids (Heap s) saved;
  restored_cache : cache_ok s';
  restored_dom : dom (Heap s) ⊆ dom (Heap s');
  restored_keys :
    ∀ p, p ∈ dom (Heap s) → node_key (Heap s') p = node_key (Heap s) p;
  restored_copy :
    ∀ c u, c ∈ CurrentScene s → u ∈ saved →
      node_key (Heap s) c = node_key (Heap s) u → c ≠ u →
      ∃ k, GetNode s' c
           = Nat.iter k UpdateReferences
               (CopyWithSceneWithSingleModifiedEvent (GetNode s c) (GetNode s u));
  restored_removed :
    ∀ p, p ∈ only_in (Heap s) (CurrentScene s) saved →
      AddToScene (GetNode s' p) = AddToScene (GetNode s p) ∧
      SingletonTag (GetNode s' p) = SingletonTag (GetNode s p)
}.

End Restored.

(** ** A scene with a history *)

(** Three model nodes without IDs. *)
Definition history_heap : gmap ptr vtkMRMLNode :=
  <[1 := example_node "vtkMRMLModelNode" None None true]>
  (<[2 := example_node "vtkMRMLModelNode" None None true]>
  (<[3 := example_node "vtkMRMLModelNode" None None true]> ∅)).

(** Nodes 1 and 2 are added and the state is saved for undo with a backup
    of node 1, which lands at address 4; node 1 is then renamed by its
    owner, node 2 is removed and node 3 is added. *)
Definition edited_scene : vtkMRMLScene :=
  (@AddNode base_ops 3
     (@RemoveNode base_ops (Some 2)
        (update_node (SetName (Some "edited")) 1
           (@SaveStateForUndo base_ops (Some 1)
              (@AddNode base_ops 2
                 (@AddNode base_ops 1 (New history_heap 0)).2).2)))).2.

(** ** Further methods of the scene *)

Section Queries.
Context `{ops : MRMLNodeOps}.

(** [GetNthNode(n)]: NULL outside the bounds of the collection. *)
Definition GetNthNode (n : Z) (s : vtkMRMLScene) : option ptr :=
  if decide (n < 0 ∨ Z.of_nat (length (CurrentScene s)) ≤ n)%Z then None
  else CurrentScene s !! Z.to_nat n.

(** [GetNodesByClass(className, nodes)]: the instances of the class are
    pushed on the vector the caller passes, in collection order, and the
    size of the vector is returned. *)
Definition GetNodesByClass (className : string) (nodes : list ptr)
    (s : vtkMRMLScene) : Z * list ptr :=
  let nodes' :=
    foldl (λ acc p, if IsA (GetNode s p) className then acc ++ [p] else acc)
          nodes (CurrentScene s) in
  (Z.of_nat (length nodes'), nodes').

(** The loop of [GetNodesByName] and [GetNodesByClassByName].  The test
    starts with [strcmp(node->GetName(), name)], which has no defined
    result on a NULL name: the loop then stops without a result.  [isa]
    is the second operand of the [&&], evaluated after the comparison. *)
Fixpoint nodes_by_name (heap : gmap ptr vtkMRMLNode) (name : string)
    (isa : vtkMRMLNode → bool) (items : list ptr) (nodes : list ptr)
    : option (list ptr) :=
  match items with
  | [] => Some nodes
  | p :: rest =>
      match Name (heap !!! p) with
      | None => None
      | Some nm =>
          nodes_by_name heap name isa rest
            (if bool_decide (nm = name) && isa (heap !!! p)
             then nodes ++ [p] else nodes)
      end
  end.

(** [GetNodesByName(name)]: the new collection it returns. *)
Definition GetNodesByName (name : string) (s : vtkMRMLScene)
    : option (list ptr) :=
  nodes_by_name (Heap s) name (λ _, true) (CurrentScene s) [].

(** [GetNodesByClassByName(className, name)] *)
Definition GetNodesByClassByName (className name : string) (s : vtkMRMLScene)
    : option (list ptr) :=
  nodes_by_name (Heap s) name (λ n, IsA n className) (CurrentScene s) [].

(** [std::list::unique]: of every run of equal consecutive elements the
    first one stays. *)
Fixpoint unique_from (x : string) (l : list string) : list string :=
  match l with
  | [] => [x]
  | y :: rest =>
      if decide (y = x) then unique_from x rest else x :: unique_from y rest
  end.

Definition unique (l : list string) : list string :=
  match l with
  | [] => []
  | x :: rest => unique_from x rest
  end.

(** [GetNodeClassesList()]: the class names of the nodes, sorted with
    [operator<] of [std::string] and without repetition. *)
Definition GetNodeClassesList (s : vtkMRMLScene) : list string :=
  unique (merge_sort String.le
            ((λ p, ClassName (GetNode s p)) <$> CurrentScene s)).

(** The string [GetNodeClasses()] assembles: the classes separated by one
    blank. *)
Fixpoint join_classes (classes : list string) : string :=
  match classes with
  | [] => ""
  | c :: rest =>
      match rest with
      | [] => c
      | _ :: _ => c +:+ " " +:+ join_classes rest
      end
  end.

Definition GetNodeClasses (s : vtkMRMLScene) : string :=
  join_classes (GetNodeClassesList s).

(** *** Requesting an ID *)

(** [RequestNodeID(node, ID)]: the node takes the ID when no node of the
    scene has it, and otherwise the ID followed by the unique index of its
    class. *)
Definition RequestNodeID (node : option ptr) (id : option string)
    (s : vtkMRMLScene) : vtkMRMLScene :=
  match node, id with
  | Some p, Some id =>
      let '(found, s1) := GetNodeByID (Some id) s in
      match found with
      | None => update_node (SetID (Some id)) p s1
      | Some _ =>
          let '(index, s2) :=
            GetUniqueIDIndexByClass (ClassName (GetNode s1 p)) s1 in
          update_node (ConstructAndSetID id index) p s2
      end
  | _, _ => s
  end.

(** *** Removing without notification *)

(** [RemoveNodeNoNotify(n)]: [RemoveNode] without the [NodeRemovedEvent]. *)
Definition RemoveNodeNoNotify (n : option ptr) (s : vtkMRMLScene) : vtkMRMLScene :=
  match n with
  | None => s
  | Some p =>
      let s1 := RemoveItem p s in
      let s2 := RemoveNodeReferences p s1 in
      update_all_references s2
  end.

(** The test of [RemoveReferencedNodeID] under which entry [i] is dropped:
    the referencing node, both IDs and [id] are non-NULL, the IDs are equal
    and [id] is the referenced ID of the entry. *)
Definition drops_reference (s : vtkMRMLScene) (id nid : option string)
    (e : option ptr * string) : bool :=
  match e.1, id with
  | Some q, Some i =>
      match ID (GetNode s q), nid with
      | Some a, Some b => bool_decide (a = b) && bool_decide (i = e.2)
      | _, _ => false
      end
  | _, _ => false
  end.

(** [RemoveReferencedNodeID(id, refrencingNode)] *)
Definition RemoveReferencedNodeID (id : option string) (p : ptr)
    (s : vtkMRMLScene) : vtkMRMLScene :=
  let kept := filter (λ e, drops_reference s id (ID (GetNode s p)) e = false)
                     (zip (ReferencingNodes s) (ReferencedIDs s)) in
  set_ReferencingNodes (kept.*1) (set_ReferencedIDs (kept.*2) s).

(** *** Saving the state of several nodes *)

(** [SaveStateForUndo(std::vector<vtkMRMLNode *> nodes)] *)
Definition SaveStateForUndo_vector (nodes : list ptr) (s : vtkMRMLScene)
    : vtkMRMLScene :=
  if InUndo s then s
  else
    foldl (λ s' p, CopyNodeInUndoStack p s')
          (PushIntoUndoStack (SetUndoOn (ClearRedoStack s))) nodes.

(** [SaveStateForUndo(vtkCollection* nodes)]: the items are node pointers,
    so the [dynamic_cast] of each succeeds. *)
Definition SaveStateForUndo_collection (nodes : list ptr) (s : vtkMRMLScene)
    : vtkMRMLScene :=
  if InUndo s then s
  else
    foldl (λ s' p, CopyNodeInUndoStack p s')
          (PushIntoUndoStack (SetUndoOn (ClearRedoStack s))) nodes.

(** [SaveStateForUndo()]: every node of the scene is backed up. *)
Definition SaveStateForUndo_scene (s : vtkMRMLScene) : vtkMRMLScene :=
  SaveStateForUndo_collection (CurrentScene s) s.

End Queries.

(** *** The registered node classes

    The members [RegisteredNodeClasses] and [RegisteredNodeTags] of the
    scene.  Only the four methods below read or write them, and they touch
    no other member: the two vectors are kept in a record of their own. *)
Record NodeRegistry := mkRegistry {
  RegisteredNodeClasses : list vtkMRMLNode;
  RegisteredNodeTags : list string
}.

Section Registry.
Context `{ops : MRMLNodeOps}.

(** [RegisterNodeClass(node)] *)
Definition RegisterNodeClass (node : vtkMRMLNode) (r : NodeRegistry)
    : NodeRegistry :=
  {| RegisteredNodeClasses := RegisteredNodeClasses r ++ [node];
     RegisteredNodeTags := RegisteredNodeTags r ++ [GetNodeTagName node] |}.

(** [GetClassNameByTag(tagName)]: the class at the first index whose tag
    is [tagName].  The source indexes [RegisteredNodeClasses] with an index
    of [RegisteredNodeTags]; beyond the end of the vector the model has no
    result. *)
Definition GetClassNameByTag (tagName : string) (r : NodeRegistry)
    : option string :=
  match list_find (λ t, t = tagName) (RegisteredNodeTags r) with
  | Some (i, _) => ClassName <$> RegisteredNodeClasses r !! i
  | None => None
  end.

(** [GetTagByClassName(className)] *)
Definition GetTagByClassName (className : string) (r : NodeRegistry)
    : option string :=
  match list_find (λ n, ClassName n = className) (RegisteredNodeClasses r) with
  | Some (_, n) => Some (GetNodeTagName n)
  | None => None
  end.

(** [CreateNodeByClass(className)]: a new instance from the first
    registered node of the class, and otherwise whatever
    [vtkObjectFactory::CreateInstance], here [factory], makes of the
    name. *)
Definition CreateNodeByClass (factory : string → option vtkMRMLNode)
    (className : string) (r : NodeRegistry) : option vtkMRMLNode :=
  match list_find (λ n, ClassName n = className) (RegisteredNodeClasses r) with
  | Some (_, n) => Some (CreateNodeInstance n)
  | None => factory className
  end.

(** The registries that [RegisterNodeClass] builds from the empty one. *)
Inductive registered : NodeRegistry → Prop :=
  | registered_empty : registered (mkRegistry [] [])
  | registered_class node r :
      registered r → registered (RegisterNodeClass node r).

End Registry.

(** The two scenes have the same undo stack and the same redo stack. *)
Definition same_stacks (s s' : vtkMRMLScene) : Prop :=
  UndoStack s' = UndoStack s ∧ RedoStack s' = RedoStack s.

(** From [s] to [s'] the receiving stack [stk] keeps its entries below the
    top, and its top keeps its length; the [other] stack is not touched. *)
Definition top_replaced (stk other : vtkMRMLScene → list (list ptr))
    (s s' : vtkMRMLScene) : Prop :=
  other s' = other s ∧
  ∀ top rest, stk s = top :: rest →
    ∃ top', stk s' = top' :: rest ∧ length top' = length top.

(** *** Copies, reference updates and unique names *)

(** Two more methods of [vtkMRMLNode] that the scene calls and whose bodies
    are outside this file. *)
Class MRMLNodeCopyOps := {
  (** [this->Copy(node)] *)
  Copy : vtkMRMLNode → vtkMRMLNode → vtkMRMLNode;
  (** [this->UpdateReferenceID(oldID, newID)].  An implementation may
      register references with the scene while it runs; the loops of
      [UpdateNodeReferences] work on copies of the two reference vectors
      and put the copies back afterwards, so that the vectors come out as
      they went in, and the method is modelled by its effect on the
      node. *)
  UpdateReferenceID : string → string → vtkMRMLNode → vtkMRMLNode
}.

Section Copies.
Context `{ops : MRMLNodeOps} `{copy_ops : MRMLNodeCopyOps}.

(** [CopyNode(n)]: a new instance of the class of [n], made a copy of [n]
    and handed to [AddNode].  The closing [node->Delete()] gives up the
    caller's reference; the heap keeps the object, which no collection
    refers to when [AddNode] has not stored it. *)
Definition CopyNode (p : ptr) (s : vtkMRMLScene) : option ptr * vtkMRMLScene :=
  let n := GetNode s p in
  if negb (AddToScene n) then (None, s)
  else
    let node := fresh (dom (Heap s)) in
    AddNode node (set_Heap (<[node := Copy (CreateNodeInstance n) n]> (Heap s)) s).

(** The body of the inner loop of both [UpdateNodeReferences]: an entry
    whose referenced ID is the changed one has its referencing node
    updated, if [check] lets the node through. *)
Definition update_entry (check : ptr → bool) (change : string * string)
    (s : vtkMRMLScene) (e : option ptr * string) : vtkMRMLScene :=
  if bool_decide (change.1 = e.2) then
    match e.1 with
    | Some q =>
        if check q
        then update_node (UpdateReferenceID change.1 change.2) q s
        else s
    | None => s
    end
  else s.

(** [UpdateNodeReferences(vtkCollection* chekNodes)]: the changes are
    visited in the order of the [std::map]; [IsItemPresent] is false of a
    NULL referencing node, which is therefore skipped. *)
Definition UpdateNodeReferences_collection (checkNodes : list ptr)
    (s : vtkMRMLScene) : vtkMRMLScene :=
  foldl (λ s' change,
           foldl (update_entry (λ q, bool_decide (q ∈ checkNodes)) change) s'
                 (references s'))
        s (map_items (ReferencedIDChanges s)).

(** The inner loop of [UpdateNodeReferences()], which calls
    [UpdateReferenceID] on the referencing node without a test: on a NULL
    node the call has no defined result and the model stops. *)
Definition update_entry_unchecked (change : string * string)
    (acc : option vtkMRMLScene) (e : option ptr * string)
    : option vtkMRMLScene :=
  match acc with
  | None => None
  | Some s =>
      if bool_decide (change.1 = e.2) then
        match e.1 with
        | Some q => Some (update_node (UpdateReferenceID change.1 change.2) q s)
        | None => None
        end
      else Some s
  end.

(** [UpdateNodeReferences()] *)
Definition UpdateNodeReferences (s : vtkMRMLScene) : option vtkMRMLScene :=
  foldl (λ acc change,
           match acc with
           | None => None
           | Some s' =>
               foldl (update_entry_unchecked change) (Some s') (references s')
           end)
        (Some s) (map_items (ReferencedIDChanges s)).

(** *** Referenced nodes *)

(** The first loop of [AddReferencedNodes]: the referenced IDs of the
    entries whose referencing node has the ID of [node].  The comparison
    [strcmp(rnode->GetID(), node->GetID())] has no defined result when
    [node] has a NULL ID; the model then stops. *)
Fixpoint referenced_ids (s : vtkMRMLScene) (nid : option string)
    (entries : list (option ptr * string)) : option (list string) :=
  match entries with
  | [] => Some []
  | e :: rest =>
      match e.1 with
      | Some q =>
          match ID (GetNode s q) with
          | Some a =>
              match nid with
              | Some b =>
                  ids ← referenced_ids s nid rest;
                  Some (if bool_decide (a = b) then e.2 :: ids else ids)
              | None => None
              end
          | None => referenced_ids s nid rest
          end
      | None => referenced_ids s nid rest
      end
  end.

(** The second loop of [AddReferencedNodes], over the IDs collected by the
    first: a node the scene finds under the ID, and that is not in
    [refNodes] yet, is added, and its own referenced nodes are added by the
    recursive call [rec] before the loop goes on. *)
Fixpoint add_referenced_loop
    (rec : ptr → list ptr → vtkMRMLScene → option (list ptr * vtkMRMLScene))
    (ids : list string) (refNodes : list ptr) (s : vtkMRMLScene)
    : option (list ptr * vtkMRMLScene) :=
  match ids with
  | [] => Some (refNodes, s)
  | id :: rest =>
      let '(found, s1) := GetNodeByID (Some id) s in
      match found with
      | Some r =>
          if bool_decide (r ∈ refNodes)
          then add_referenced_loop rec rest refNodes s1
          else
            match rec r (refNodes ++ [r]) s1 with
            | Some (refNodes', s2) => add_referenced_loop rec rest refNodes' s2
            | None => None
            end
      | None => add_referenced_loop rec rest refNodes s1
      end
  end.

(** [AddReferencedNodes(node, refNodes)].  The recursion goes as deep as
    there are nodes of the scene missing from [refNodes]; [fuel] bounds
    the depth, and the result is [None] when it runs out or when a
    comparison of IDs has no defined result. *)
Fixpoint AddReferencedNodes (fuel : nat) (node : ptr) (refNodes : list ptr)
    (s : vtkMRMLScene) : option (list ptr * vtkMRMLScene) :=
  match fuel with
  | 0 => None
  | S fuel' =>
      match referenced_ids s (ID (GetNode s node)) (references s) with
      | None => None
      | Some ids =>
          add_referenced_loop (AddReferencedNodes fuel') ids refNodes s
      end
  end.

(** [GetReferencedNodes(node)]: the new collection it returns. *)
Definition GetReferencedNodes (node : option ptr) (s : vtkMRMLScene)
    : option (list ptr * vtkMRMLScene) :=
  match node with
  | None => Some ([], s)
  | Some p => AddReferencedNodes (S (length (CurrentScene s))) p [p] s
  end.

(** The node at [a] references the node at [b]: an entry of the reference
    vectors has a referencing node with the ID of [a], and its referenced
    ID is the one under which the scene finds [b]. *)
Definition references_node (s : vtkMRMLScene) (a b : ptr) : Prop :=
  ∃ q id, (Some q, id) ∈ references s ∧
          ID (GetNode s q) = ID (GetNode s a) ∧
          id_map (Heap s) (CurrentScene s) !! id = Some b.

(** The scene [s1] shows the nodes, the collection and the reference
    vectors of [s], with a cache of IDs that is up to date or stale. *)
Definition same_view (s s1 : vtkMRMLScene) : Prop :=
  Heap s1 = Heap s ∧ CurrentScene s1 = CurrentScene s ∧
  references s1 = references s ∧ cache_ok s1.

(** *** Unique names *)

(** The search loop of [GetUniqueNameByString]: a candidate is passed over
    when it is in [UniqueIDs] or, failing that, when a node of the scene
    has it for a name.  [fuel] bounds the number of candidates passed
    over.  The result is [None] when [GetNodesByName] has none. *)
Fixpoint unique_name_loop (fuel : nat) (className : string) (id : Z)
    (uniqueIDs : list string) (s : vtkMRMLScene) : option (Z * string) :=
  let name := candidateName className id in
  if bool_decide (name ∈ uniqueIDs) then
    match fuel with
    | 0 => Some (id, name)
    | S fuel' => unique_name_loop fuel' className (id + 1)%Z uniqueIDs s
    end
  else
    match GetNodesByName name s with
    | None => None
    | Some nodesByName =>
        if decide (length nodesByName = 0) then Some (id, name)
        else
          match fuel with
          | 0 => Some (id, name)
          | S fuel' => unique_name_loop fuel' className (id + 1)%Z uniqueIDs s
          end
    end.

(** [GetUniqueNameByString(className)], with the member [UniqueIDs] as an
    argument and a result: the name, the vector with the name pushed, and
    the scene with the table of indices updated.  No more candidates are
    taken than there are entries in [UniqueIDs] and nodes in the scene,
    which is the fuel of the loop. *)
Definition GetUniqueNameByString (className : string) (uniqueIDs : list string)
    (s : vtkMRMLScene) : option (string * list string * vtkMRMLScene) :=
  let table :=
    match UniqueIDByClass s !! className with
    | None => <[className := 1%Z]> (UniqueIDByClass s)
    | Some _ => UniqueIDByClass s
    end in
  let id := default 0%Z (table !! className) in
  match unique_name_loop (length uniqueIDs + length (CurrentScene s))
          className id uniqueIDs s with
  | None => None
  | Some (id', name) =>
      Some (name, uniqueIDs ++ [name],
            set_UniqueIDByClass (<[className := (id' + 1)%Z]> table) s)
  end.

End Copies.

(** The name is in [UniqueIDs], or a node of the scene has it. *)
Definition name_taken (uniqueIDs : list string) (s : vtkMRMLScene)
    (name : string) : Prop :=
  name ∈ uniqueIDs ∨ ∃ p, p ∈ CurrentScene s ∧ Name (Heap s !!! p) = Some name.

(** What a call of [AddReferencedNodes] for [node] on the collection
    [refNodes] comes to in the scene [s]: it returns [refNodes] followed by
    new nodes [R], each once, that are nodes of the scene reached from
    [node] along references; and whatever [node] or a new node references
    is in the collection returned. *)
Definition adds_referenced (s : vtkMRMLScene) (node : ptr)
    (refNodes : list ptr) (result : option (list ptr * vtkMRMLScene)) : Prop :=
  ∃ R s2,
    result = Some (refNodes ++ R, s2) ∧ same_view s s2 ∧ NoDup R ∧
    (∀ x, x ∈ R →
          x ∈ CurrentScene s ∧ (x ∉ refNodes) ∧
          rtc (references_node s) node x) ∧
    (∀ a b, a = node ∨ a ∈ R → references_node s a b → b ∈ refNodes ++ R).

(** *** Examples *)

(** The base class for the two further methods: [Copy] takes over the base
    members, and [UpdateReferenceID] has nothing to update. *)
Definition base_copy_ops : MRMLNodeCopyOps :=
  {| Copy := base_Copy; UpdateReferenceID := λ _ _ n, n |}.

(** A registry with a view node and a model node registered. *)
Definition example_registry : NodeRegistry :=
  @RegisterNodeClass base_ops (example_node "vtkMRMLModelNode" None None true)
    (@RegisterNodeClass base_ops
       (example_node "vtkMRMLViewNode" None (Some "Main") true)
       (mkRegistry [] [])).

(** The scene with a history, where node 1 references node 3 and an ID
    that no node has. *)
Definition referencing_scene : vtkMRMLScene :=
  set_ReferencingNodes [Some 1; Some 1]
    (set_ReferencedIDs ["vtkMRMLModelNode3"; "vtkMRMLModelNode7"] edited_scene).

(** ** Stream extraction and the range of [int] *)

(** White space is what [std::isspace] takes for it in the C locale, the
    space and the characters 9 to 13: [Ascii.is_space]. *)

Fixpoint skip_space (buf : string) : string :=
  match buf with
  | EmptyString => EmptyString
  | String a buf' => if Ascii.is_space a then skip_space buf' else buf
  end.

Fixpoint read_word (buf : string) : string :=
  match buf with
  | EmptyString => EmptyString
  | String a buf' =>
      if Ascii.is_space a then EmptyString else String a (read_word buf')
  end.

(** [ss >> str] on a stream that holds [buf]: the white space in front is
    skipped and the characters up to the next white space are read. *)
Definition extract (buf : string) : string := read_word (skip_space buf).

(** The candidate ID as [GetUniqueIDIndexByClassFromIndex] reads it back
    from the stream it has written the class name and the index to. *)
Definition extracted_candidate (className : string) (index : Z) : string :=
  extract (className +:+ pretty index).

Fixpoint has_space (str : string) : bool :=
  match str with
  | EmptyString => false
  | String a str' => Ascii.is_space a || has_space str'
  end.

(** The range of the type [int] of the indices. *)
Definition INT_MAX : Z := 2147483647.
Definition INT_MIN : Z := -2147483648.

(** ** Scenes reached with lookups *)

Section Operated.
Context `{ops : MRMLNodeOps}.


End Operated.



(** * Theorems *)

(** ** Undo and redo on empty stacks *)

Section UndoRedoEmpty.
Context `{ops : MRMLNodeOps} `{vtk : VTKLibrary}.

(** C7: with an empty undo stack [Undo] returns the scene as it is (node
    collection, undo stack, redo stack and every other member); with an empty
    redo stack [Redo] returns the scene as it is. *)
Theorem Undo_Redo_empty_stack (s : vtkMRMLScene) :
  (UndoStack s = [] → Undo s = s) ∧ (RedoStack s = [] → Redo s = s).
Proof.
  split; intros Hempty.
  - unfold Undo. by rewrite Hempty.
  - unfold Redo. by rewrite Hempty.
Qed.

End UndoRedoEmpty.

Lemma Undo_Redo_empty_stack_witness :
  @Undo base_ops (New ∅ 0) = New ∅ 0 ∧ @Redo base_ops (New ∅ 0) = New ∅ 0.
Proof.
  destruct (@Undo_Redo_empty_stack base_ops (New ∅ 0)) as [Hu Hr].
  split; [apply Hu | apply Hr]; reflexivity.
Defined.

(** ** Writing the scene *)

Section CommitTheorems.
Context `{ops : MRMLNodeOps} `{vtk : VTKLibrary}.


Lemma write_nodes_elements (heap : gmap ptr vtkMRMLNode) (items : list ptr)
    (indent : Z) :
  let saved := filter (λ n, SaveWithScene n = true) ((λ p, heap !!! p) <$> items) in
  write_nodes heap items indent
  = concat_strings (zip_with write_element saved (element_indents saved indent)).
Proof.
  revert indent. induction items as [|p items IH]; intros indent; [done|].
  cbn [write_nodes]. rewrite fmap_cons.
  destruct (SaveWithScene (heap !!! p)) eqn:Hsave; cbn [negb].
  - rewrite filter_cons_True by done. cbn. by rewrite IH.
  - rewrite filter_cons_False by (cbv beta; congruence). apply IH.
Qed.

Lemma element_indents_length (nodes : list vtkMRMLNode) (indent : Z) :
  length (element_indents nodes indent) = length nodes.
Proof.
  revert indent. induction nodes as [|n nodes IH]; intros indent; simpl;
    [done | by rewrite IH].
Qed.

(** C5: for a url that can be opened, [Commit] writes the document made of
    the [<MRML>] opening line, one element per node whose [SaveWithScene]
    flag is set, in scene order, and the closing line.  The element of a node
    opens and closes with the tag name of the node and holds what the node
    writes as attributes and as body; nodes with the flag unset contribute
    nothing; the other files are left alone. *)
Theorem Commit_writes_saved_nodes (url : option string) (s : vtkMRMLScene)
    (fs : FileSystem) :
  writable fs (commit_path url s) = true →
  files (Commit url s fs).2 !! commit_path url s = Some (MRML_document s) ∧
  MRML_document s
    = "<MRML>" +:+ nl +:+ concat_strings (MRML_elements s) +:+ "</MRML>" +:+ nl ∧
  length (MRML_elements s)
    = length (filter (λ p, SaveWithScene (GetNode s p) = true) (CurrentScene s)) ∧
  (∀ k elem, MRML_elements s !! k = Some elem →
     ∃ node indent,
       saved_nodes s !! k = Some node ∧ SaveWithScene node = true ∧
       elem = vtkIndent indent +:+ "<" +:+ GetNodeTagName node +:+ nl
              +:+ WriteXML node indent +:+ vtkIndent indent +:+ ">"
              +:+ WriteNodeBodyXML node indent
              +:+ "</" +:+ GetNodeTagName node +:+ ">" +:+ nl) ∧
  (∀ other, other ≠ commit_path url s →
     files (Commit url s fs).2 !! other = files fs !! other).
Proof.
  intros Hw. unfold Commit. fold (commit_path url s). rewrite Hw. simpl.
  split; [|split; [done|split; [|split]]].
  - rewrite lookup_insert_eq. f_equal. unfold MRML_document, MRML_elements.
    by rewrite write_nodes_elements.
  - unfold MRML_elements, saved_nodes.
    rewrite length_zip_with, element_indents_length, Nat.min_id.
    induction (CurrentScene s) as [|p l IH]; [done|].
    rewrite fmap_cons.
    destruct (SaveWithScene (GetNode s p)) eqn:Hsave.
    + rewrite !filter_cons_True by done. simpl. by rewrite IH.
    + rewrite !filter_cons_False by (cbv beta; congruence). done.
  - intros k elem Hk. unfold MRML_elements in Hk.
    apply lookup_zip_with_Some in Hk as (node & indent & -> & Hnode & _).
    exists node, indent. split; [done|]. split; [|done].
    apply list_elem_of_lookup_2 in Hnode.
    unfold saved_nodes in Hnode. by apply list_elem_of_filter in Hnode as [Hs _].
  - intros other Hother. by rewrite lookup_insert_ne.
Qed.

End CommitTheorems.


Lemma Commit_writes_saved_nodes_witness :
  files (@Commit base_ops vtk5 (Some "scene.mrml") clear_example fs_open).2
    !! "scene.mrml"
  = Some (@MRML_document base_ops vtk5 clear_example) ∧
  length (@MRML_elements base_ops vtk5 clear_example) = 1.
Proof.
  destruct (@Commit_writes_saved_nodes base_ops vtk5 (Some "scene.mrml")
              clear_example fs_open eq_refl) as (Hfile & _ & Hlen & _).
  split; [exact Hfile|]. rewrite Hlen. reflexivity.
Defined.

(** ** Clearing the scene *)

Section ClearTheorems.
Context `{ops : MRMLNodeOps}.

Lemma remove_first_not_in (p : ptr) (l : list ptr) :
  p ∉ l → remove_first p l = l.
Proof.
  induction l as [|x l IH]; [done|]. intros Hp. simpl.
  apply not_elem_of_cons in Hp as [Hne Hp].
  rewrite decide_False by done. by rewrite IH.
Qed.

Lemma RemoveItem_CurrentScene (p : ptr) (s : vtkMRMLScene) :
  CurrentScene (RemoveItem p s) = remove_first p (CurrentScene s).
Proof.
  unfold RemoveItem. case_decide; [done|]. by rewrite remove_first_not_in.
Qed.

Lemma RemoveItem_Heap (p : ptr) (s : vtkMRMLScene) :
  Heap (RemoveItem p s) = Heap s.
Proof. unfold RemoveItem. by case_decide. Qed.

Lemma RemoveItem_stacks (p : ptr) (s : vtkMRMLScene) :
  UndoStack (RemoveItem p s) = UndoStack s ∧
  RedoStack (RemoveItem p s) = RedoStack s.
Proof. unfold RemoveItem. by case_decide. Qed.

Lemma foldl_RemoveItem (l : list ptr) (s : vtkMRMLScene) :
  CurrentScene (foldl (λ s' p, RemoveItem p s') s l)
    = foldl (λ items p, remove_first p items) (CurrentScene s) l ∧
  Heap (foldl (λ s' p, RemoveItem p s') s l) = Heap s.
Proof.
  revert s. induction l as [|p l IH]; intros s; [done|]. simpl.
  destruct (IH (RemoveItem p s)) as [-> ->].
  by rewrite RemoveItem_CurrentScene, RemoveItem_Heap.
Qed.

(** Removing, one first occurrence at a time, the items that satisfy [P]
    leaves the items that do not. *)
Lemma remove_first_filter (P : ptr → Prop) `{∀ x, Decision (P x)}
    (pre l : list ptr) :
  Forall (λ x, ¬ P x) pre →
  foldl (λ items p, remove_first p items) (pre ++ l) (filter P l)
  = pre ++ filter (λ x, ¬ P x) l.
Proof.
  revert pre. induction l as [|x l IH]; intros pre Hpre; [done|].
  destruct (decide (P x)) as [HP|HP].
  - rewrite filter_cons_True, filter_cons_False by tauto. simpl.
    assert (remove_first x (pre ++ x :: l) = pre ++ l) as ->; [|by apply IH].
    clear IH. induction pre as [|y pre IHpre]; simpl.
    + by rewrite decide_True.
    + apply Forall_cons in Hpre as [Hy Hpre].
      rewrite decide_False by (intros ->; done). by rewrite IHpre.
  - rewrite filter_cons_False, filter_cons_True by done.
    specialize (IH (pre ++ [x])). rewrite <- !(assoc_L (++)) in IH.
    apply IH. apply Forall_app. split; [done|]. by apply Forall_singleton.
Qed.

Lemma RemoveAllNodesExceptSingletons_spec (s : vtkMRMLScene) :
  CurrentScene (RemoveAllNodesExceptSingletons s)
    = filter (λ p, SingletonTag (GetNode s p) ≠ None) (CurrentScene s) ∧
  Heap (RemoveAllNodesExceptSingletons s) = Heap s.
Proof.
  unfold RemoveAllNodesExceptSingletons.
  destruct (foldl_RemoveItem
    (filter (λ p, SingletonTag (GetNode s p) = None) (CurrentScene s)) s)
    as [-> ->].
  split; [|done].
  by apply (remove_first_filter (λ p, SingletonTag (GetNode s p) = None) []).
Qed.

Lemma foldl_update_node (f : vtkMRMLNode → vtkMRMLNode) (l : list ptr)
    (s : vtkMRMLScene) :
  let s' := foldl (λ s' p, update_node f p s') s l in
  CurrentScene s' = CurrentScene s ∧
  ∀ p, GetNode s' p = Nat.iter (occurrences p l) f (GetNode s p).
Proof.
  revert s. induction l as [|q l IH]; intros s; [done|]. simpl.
  destruct (IH (update_node f q s)) as [-> Hnodes]. split; [done|].
  intros p. rewrite Hnodes. unfold occurrences, GetNode, update_node. simpl.
  destruct (decide (q = p)) as [->|Hne].
  - rewrite filter_cons_True by done. simpl.
    rewrite lookup_total_insert_eq. symmetry. apply Nat.iter_succ_r.
  - rewrite filter_cons_False by done.
    by rewrite lookup_total_insert_ne.
Qed.

(** C9: [Clear(0)] keeps exactly the nodes that have a singleton tag, in
    their order, and calls [Reset] on each of them, once per position it
    holds in the collection, while the removed nodes are left as they were;
    [Clear] with a nonzero argument empties the collection.  Either way the
    undo stack, the redo stack and the per-class table of unique IDs are
    empty afterwards. *)
Theorem Clear_removes_nodes_and_history (removeSingletons : Z)
    (s : vtkMRMLScene) :
  (removeSingletons = 0%Z →
     CurrentScene (Clear removeSingletons s)
       = filter (λ p, SingletonTag (GetNode s p) ≠ None) (CurrentScene s) ∧
     ∀ p, GetNode (Clear removeSingletons s) p
          = Nat.iter (occurrences p (CurrentScene (Clear removeSingletons s)))
              Reset (GetNode s p)) ∧
  (removeSingletons ≠ 0%Z →
     CurrentScene (Clear removeSingletons s) = [] ∧
     Heap (Clear removeSingletons s) = Heap s) ∧
  UndoStack (Clear removeSingletons s) = [] ∧
  RedoStack (Clear removeSingletons s) = [] ∧
  UniqueIDByClass (Clear removeSingletons s) = ∅.
Proof.
  unfold Clear. split; [|split; [|done]].
  - intros ->. rewrite decide_True by done. simpl.
    set (s1 := InvokeEvent SceneClosingEvent None (SetUndoOff s)).
    destruct (RemoveAllNodesExceptSingletons_spec s1) as [Hscene Hheap].
    set (s2 := InvokeEvent SceneCloseEvent None (RemoveAllNodesExceptSingletons s1)).
    destruct (foldl_update_node Reset (CurrentScene s2) s2) as [Hcur Hnodes].
    fold (ResetNodes s2) in Hcur, Hnodes.
    split.
    + rewrite Hcur. subst s2. simpl. by rewrite Hscene.
    + intros p. unfold GetNode at 1. simpl. fold (GetNode (ResetNodes s2) p).
      rewrite Hnodes, Hcur. f_equal. unfold GetNode. subst s2. simpl.
      by rewrite Hheap.
  - intros Hne. rewrite decide_False by done. simpl.
    unfold RemoveAllItems. by case_decide.
Qed.

End ClearTheorems.

Lemma Clear_removes_nodes_and_history_witness :
  CurrentScene (@Clear base_ops 0 clear_example) = [1] ∧
  CurrentScene (@Clear base_ops 1 clear_example) = [] ∧
  UndoStack (@Clear base_ops 0 clear_example) = [].
Proof.
  destruct (@Clear_removes_nodes_and_history base_ops 0 clear_example)
    as (H0 & _ & Hundo & _).
  destruct (@Clear_removes_nodes_and_history base_ops 1 clear_example)
    as (_ & H1 & _).
  split; [|split].
  - destruct (H0 eq_refl) as [-> _]. reflexivity.
  - apply H1. discriminate.
  - exact Hundo.
Defined.

(** ** The pipeline headers *)


(** ** The pipeline headers *)

(** C6, as the headers have it: [vtkHyperTreeGridAlgorithm] declares the
    four operations of the request protocol, [ProcessRequest] in its public
    section and [RequestInformation], [RequestData] and
    [RequestUpdateExtent] as protected virtual members, while
    [vtkDataObject] declares none of the four. *)
Theorem request_protocol_declared :
  Pipeline.provides_protocol Pipeline.vtkHyperTreeGridAlgorithm ∧
  Pipeline.mkMember Pipeline.Public true "ProcessRequest"
    ∈ Pipeline.vtkHyperTreeGridAlgorithm ∧
  (∀ method, method ∈ [ "RequestInformation"; "RequestData"; "RequestUpdateExtent" ] →
     Pipeline.mkMember Pipeline.Protected true method
       ∈ Pipeline.vtkHyperTreeGridAlgorithm) ∧
  (∀ method, method ∈ Pipeline.request_protocol →
     Pipeline.declares Pipeline.vtkDataObject method = false).
Proof.
  split; [|split; [|split]].
  - intros method Hm. unfold Pipeline.request_protocol in Hm.
    repeat (apply elem_of_cons in Hm as [->|Hm]; [by vm_compute|]).
    by apply elem_of_nil in Hm.
  - unfold Pipeline.vtkHyperTreeGridAlgorithm.
    repeat (first [apply list_elem_of_here | apply list_elem_of_further]).
  - intros method Hm.
    repeat (apply elem_of_cons in Hm as [->|Hm];
      [unfold Pipeline.vtkHyperTreeGridAlgorithm;
       repeat (first [apply list_elem_of_here | apply list_elem_of_further])|]).
    by apply elem_of_nil in Hm.
  - intros method Hm. unfold Pipeline.request_protocol in Hm.
    repeat (apply elem_of_cons in Hm as [->|Hm]; [by vm_compute|]).
    by apply elem_of_nil in Hm.
Qed.

(** The claim C6 as worded fails on [vtkDataObject]: the class does not
    provide the request protocol. *)
Lemma vtkDataObject_lacks_request_protocol :
  ¬ (Pipeline.provides_protocol Pipeline.vtkDataObject ∧
     Pipeline.provides_protocol Pipeline.vtkHyperTreeGridAlgorithm).
Proof.
  intros [Hdata _].
  specialize (Hdata "ProcessRequest").
  assert (Pipeline.declares Pipeline.vtkDataObject "ProcessRequest" = false)
    as Hfalse by (by vm_compute).
  rewrite Hfalse in Hdata. discriminate Hdata.
  unfold Pipeline.request_protocol. apply list_elem_of_here.
Qed.

(** ** The maps by ID and the cache *)

Section Cache.
Context `{ops : MRMLNodeOps}.

Lemma id_map_snoc (heap : gmap ptr vtkMRMLNode) (l : list ptr) (p : ptr) :
  id_map heap (l ++ [p]) = <[node_key heap p := p]> (id_map heap l).
Proof. unfold id_map. by rewrite foldl_app. Qed.

Lemma id_map_lookup_Some (heap : gmap ptr vtkMRMLNode) (l : list ptr)
    (k : string) (p : ptr) :
  id_map heap l !! k = Some p → p ∈ l ∧ node_key heap p = k.
Proof.
  induction l as [|q l IH] using rev_ind; [done|].
  rewrite id_map_snoc. intros Hk.
  destruct (decide (node_key heap q = k)) as [Heq|Hne].
  - rewrite <- Heq, lookup_insert_eq in Hk. injection Hk as <-.
    split; [|done]. apply elem_of_app. right. apply list_elem_of_here.
  - rewrite lookup_insert_ne in Hk by done.
    destruct (IH Hk) as [Hin Hkey]. split; [|done].
    apply elem_of_app. by left.
Qed.

Lemma id_map_lookup_None (heap : gmap ptr vtkMRMLNode) (l : list ptr)
    (k : string) :
  id_map heap l !! k = None ↔ ∀ p, p ∈ l → node_key heap p ≠ k.
Proof.
  induction l as [|q l IH] using rev_ind.
  - split; [|done]. intros _ p Hp. by apply elem_of_nil in Hp.
  - rewrite id_map_snoc. split.
    + intros Hk p Hp.
      destruct (decide (node_key heap q = k)) as [Heq|Hne].
      { by rewrite <- Heq, lookup_insert_eq in Hk. }
      rewrite lookup_insert_ne in Hk by done.
      apply elem_of_app in Hp as [Hp|Hp].
      * by apply IH.
      * apply list_elem_of_singleton in Hp. by subst.
    + intros Hall.
      rewrite lookup_insert_ne.
      * apply IH. intros p Hp. apply Hall, elem_of_app. by left.
      * apply Hall, elem_of_app. right. apply list_elem_of_here.
Qed.

Lemma id_map_lookup_is_Some (heap : gmap ptr vtkMRMLNode) (l : list ptr)
    (k : string) :
  is_Some (id_map heap l !! k) ↔ ∃ p, p ∈ l ∧ node_key heap p = k.
Proof.
  split.
  - intros [p Hp]. exists p. by apply id_map_lookup_Some.
  - intros (p & Hp & Hk). apply not_eq_None_Some. intros Hnone.
    by apply (proj1 (id_map_lookup_None heap l k) Hnone p).
Qed.

(** With distinct keys every node of the collection is found under its
    own key. *)
Lemma id_map_lookup_NoDup (heap : gmap ptr vtkMRMLNode) (l : list ptr)
    (p : ptr) :
  NoDup (node_key heap <$> l) → p ∈ l →
  id_map heap l !! node_key heap p = Some p.
Proof.
  intros Hnodup Hp.
  destruct (id_map heap l !! node_key heap p) as [q|] eqn:Hq.
  - apply id_map_lookup_Some in Hq as [Hq Hkey].
    apply list_elem_of_lookup in Hp as [i Hi].
    apply list_elem_of_lookup in Hq as [j Hj].
    assert (i = j) as ->; [|congruence].
    eapply NoDup_lookup; [done| |].
    + rewrite list_lookup_fmap, Hi. done.
    + rewrite list_lookup_fmap, Hj. simpl. by rewrite Hkey.
  - exfalso. by apply (proj1 (id_map_lookup_None heap l _) Hq p).
Qed.

Lemma id_map_ext (heap heap' : gmap ptr vtkMRMLNode) (l : list ptr) :
  (∀ p, p ∈ l → node_key heap p = node_key heap' p) →
  id_map heap l = id_map heap' l.
Proof.
  induction l as [|q l IH] using rev_ind; [done|]. intros Hkeys.
  rewrite !id_map_snoc, IH, Hkeys; [done| |].
  - apply elem_of_app. right. apply list_elem_of_here.
  - intros p Hp. apply Hkeys, elem_of_app. by left.
Qed.

Lemma id_map_size (heap : gmap ptr vtkMRMLNode) (l : list ptr) :
  size (id_map heap l) ≤ length l.
Proof.
  induction l as [|q l IH] using rev_ind; [done|].
  rewrite id_map_snoc, length_app. simpl.
  destruct (id_map heap l !! node_key heap q) eqn:Hq.
  - rewrite map_size_insert_Some by done. lia.
  - rewrite map_size_insert_None by done. lia.
Qed.

Lemma synced_cache_ok (s : vtkMRMLScene) :
  CurrentSceneMTime s ≤ Clock s → cache_ok (synced s).
Proof. intros Hclock. unfold cache_ok, synced. simpl. auto. Qed.

(** On a well-formed scene [UpdateNodeIDs] leaves the cache with the IDs of
    the nodes of the scene. *)
Lemma UpdateNodeIDs_synced (s : vtkMRMLScene) :
  cache_ok s → UpdateNodeIDs s = synced s.
Proof.
  intros (Hle & Hclock & Hcoherent). unfold UpdateNodeIDs, synced.
  case_decide as Hempty.
  - apply length_zero_iff_nil in Hempty. by rewrite Hempty.
  - case_decide as Hstale; [done|].
    rewrite <- Hcoherent; [by destruct s|lia|].
    intros Hnil. by rewrite Hnil in Hempty.
Qed.

Lemma synced_idemp (s : vtkMRMLScene) : synced (synced s) = synced s.
Proof. done. Qed.

Lemma GetNodeByID_synced (id : string) (s : vtkMRMLScene) :
  cache_ok s →
  GetNodeByID (Some id) s
  = (id_map (Heap s) (CurrentScene s) !! id, synced s).
Proof. intros Hok. unfold GetNodeByID. by rewrite UpdateNodeIDs_synced. Qed.

Lemma candidateName_inj (className : string) : Inj (=) (=) (candidateName className).
Proof.
  intros i j Heq. unfold candidateName in Heq.
  apply (inj (String.app className)) in Heq. by apply (inj pretty) in Heq.
Qed.

(** The search stops at the first free index, and the fuel it is given
    suffices: [m'] holds the occupied candidates that are still ahead. *)
Lemma unique_index_loop_spec (fuel : nat) (className : string) (index : Z)
    (s : vtkMRMLScene) (m' : gmap string ptr) :
  cache_ok s →
  size m' ≤ fuel →
  (∀ j, (index ≤ j)%Z →
     m' !! candidateName className j
     = id_map (Heap s) (CurrentScene s) !! candidateName className j) →
  ∃ r, unique_index_loop fuel className index s = (r, synced s) ∧
       first_free_index (id_map (Heap s) (CurrentScene s)) className index r.
Proof.
  revert index s m'.
  induction fuel as [|fuel IH]; intros index s m' Hok Hsize Hahead.
  - cbn [unique_index_loop]. rewrite GetNodeByID_synced by done.
    apply Nat.le_0_r, map_size_empty_iff in Hsize. subst m'.
    rewrite <- Hahead by lia. rewrite lookup_empty.
    exists index. split; [done|]. split; [lia|]. split; [|lia].
    rewrite <- Hahead by lia. done.
  - cbn [unique_index_loop]. rewrite GetNodeByID_synced by done.
    destruct (id_map (Heap s) (CurrentScene s) !! candidateName className index)
      as [q|] eqn:Hq.
    + destruct (IH (index + 1)%Z (synced s)
                   (delete (candidateName className index) m')) as (r & Hr & Hfree).
      * apply synced_cache_ok. by destruct Hok as (_ & ? & _).
      * assert (m' !! candidateName className index = Some q) as Hm'
          by (rewrite Hahead by lia; done).
        pose proof (map_size_delete_Some (candidateName className index) m'
                      (ex_intro _ q Hm')) as Hdel. lia.
      * intros j Hj. rewrite lookup_delete_ne.
        -- apply Hahead. lia.
        -- intros Heq. apply candidateName_inj in Heq. lia.
      * exists r. split; [done|].
        destruct Hfree as (Hle & Hnone & Hbelow). simpl in *.
        split; [lia|]. split; [done|]. intros j Hj.
        destruct (decide (j = index)) as [->|Hne]; [by rewrite Hq|].
        apply Hbelow. lia.
    + exists index. split; [done|]. split; [lia|]. split; [done|lia].
Qed.

Lemma GetUniqueIDIndexByClassFromIndex_spec (className : string) (hint : Z)
    (s : vtkMRMLScene) :
  cache_ok s →
  ∃ r, GetUniqueIDIndexByClassFromIndex className hint s = (r, synced s) ∧
       first_free_index (id_map (Heap s) (CurrentScene s)) className hint r.
Proof.
  intros Hok. unfold GetUniqueIDIndexByClassFromIndex.
  apply (unique_index_loop_spec _ _ _ _ (id_map (Heap s) (CurrentScene s)));
    [done|apply id_map_size|done].
Qed.

(** The free index is determined by the map and the hint. *)
Lemma first_free_index_unique (m : gmap string ptr) (className : string)
    (hint i j : Z) :
  first_free_index m className hint i → first_free_index m className hint j →
  i = j.
Proof.
  intros (Hi1 & Hi2 & Hi3) (Hj1 & Hj2 & Hj3).
  destruct (Z.lt_trichotomy i j) as [Hlt|[Heq|Hgt]]; [|done|].
  - destruct (Hj3 i) as [? Hsome]; [lia|congruence].
  - destruct (Hi3 j) as [? Hsome]; [lia|congruence].
Qed.

End Cache.

(** ** Adding a node *)

Section AddNodeLemmas.
Context `{ops : MRMLNodeOps}.

Lemma pretty_N_go_nonempty (x : N) (s : string) :
  s ≠ "" → pretty_N_go x s ≠ "".
Proof.
  revert s. induction (N.lt_wf_0 x) as [x _ IH]; intros s Hs.
  destruct (decide (x = 0%N)) as [->|Hne]; [by rewrite pretty_N_go_0|].
  rewrite pretty_N_go_step by lia. apply IH; [|done].
  apply N.div_lt; lia.
Qed.

Lemma pretty_Z_nonempty (z : Z) : pretty z ≠ "".
Proof.
  assert (∀ x : N, pretty x ≠ "") as HN.
  { intros x. unfold pretty, pretty_N. case_decide; [done|].
    rewrite pretty_N_go_step by lia. by apply pretty_N_go_nonempty. }
  destruct z; unfold pretty, pretty_Z; [done|apply HN|done].
Qed.

Lemma candidateName_nonempty (className : string) (index : Z) :
  candidateName className index ≠ "".
Proof.
  unfold candidateName. pose proof (pretty_Z_nonempty index) as Hne.
  destruct className; [done|discriminate].
Qed.

Lemma update_node_compose (f g : vtkMRMLNode → vtkMRMLNode) (p : ptr)
    (s : vtkMRMLScene) :
  update_node f p (update_node g p s) = update_node (f ∘ g) p s.
Proof.
  unfold update_node, GetNode. simpl.
  by rewrite lookup_total_insert_eq, insert_insert_eq.
Qed.

Lemma GetNode_update_node (f : vtkMRMLNode → vtkMRMLNode) (p q : ptr)
    (s : vtkMRMLScene) :
  GetNode (update_node f p s) q
  = if decide (p = q) then f (GetNode s p) else GetNode s q.
Proof.
  unfold update_node, GetNode. simpl. case_decide as Hpq.
  - subst. apply lookup_total_insert_eq.
  - by apply lookup_total_insert_ne.
Qed.

Lemma null_or_empty_false (id : option string) :
  null_or_empty id = false ↔ ∃ i, id = Some i ∧ i ≠ "".
Proof.
  destruct id as [i|]; simpl.
  - rewrite bool_decide_eq_false. split; [eauto|]. by intros (? & [= <-] & ?).
  - split; [done|]. by intros (? & ? & ?).
Qed.

(** A key that is not the empty string is in the map exactly when a node
    of the scene has it for an ID. *)
Lemma id_in_scene_lookup (s : vtkMRMLScene) (id : string) :
  id ≠ "" →
  is_Some (id_map (Heap s) (CurrentScene s) !! id) ↔ id_in_scene s (Some id).
Proof.
  intros Hne. rewrite id_map_lookup_is_Some. unfold id_in_scene, node_key.
  split; intros (q & Hq & Hid); exists q; split; try done.
  - fold (GetNode s q) in Hid. destruct (ID (GetNode s q)); simpl in *; congruence.
  - fold (GetNode s q). by rewrite Hid.
Qed.

Lemma assign_unique_id_spec (p : ptr) (s : vtkMRMLScene) :
  cache_ok s →
  (ID (GetNode s p) = None ∨ ID (GetNode s p) = Some "" ∨
   is_Some (id_map (Heap s) (CurrentScene s) !! std_string (ID (GetNode s p)))) →
  ∃ r,
    first_free_index (id_map (Heap s) (CurrentScene s))
      (ClassName (GetNode s p))
      (default 1%Z (UniqueIDByClass s !! ClassName (GetNode s p))) r ∧
    assign_unique_id p s
    = set_ReferencedIDChanges
        (<[std_string (ID (GetNode s p))
           := candidateName (ClassName (GetNode s p)) r]> (ReferencedIDChanges s))
        (set_Heap
           (<[p := SetID (Some (candidateName (ClassName (GetNode s p)) r))
                     (GetNode s p)]> (Heap s))
           (set_UniqueIDByClass
              (<[ClassName (GetNode s p) := (r + 1)%Z]> (UniqueIDByClass s))
              (synced s))).
Proof.
  intros Hok Hold. unfold assign_unique_id, GetUniqueIDIndexByClass.
  destruct (GetUniqueIDIndexByClassFromIndex_spec (ClassName (GetNode s p))
              (default 1%Z (UniqueIDByClass s !! ClassName (GetNode s p))) s Hok)
    as (r & -> & Hfree).
  exists r. split; [done|].
  rewrite GetNode_update_node, (decide_True (P := p = p)) by done.
  unfold ConstructAndSetID, update_node, GetNode. simpl.
  rewrite decide_True; [done|].
  destruct Hfree as (_ & Hnone & _). fold (GetNode s p).
  intros Heq. destruct Hold as [Hid|[Hid|Hid]].
  - rewrite Hid in Heq. simpl in Heq. by eapply candidateName_nonempty.
  - rewrite Hid in Heq. simpl in Heq. by eapply candidateName_nonempty.
  - rewrite Heq, Hnone in Hid. by destruct Hid.
Qed.

End AddNodeLemmas.

Section AddNodeSpec.
Context `{ops : MRMLNodeOps}.

Lemma SetID_same (n : vtkMRMLNode) : SetID (ID n) n = n.
Proof. by destruct n. Qed.

Lemma needs_new_id_lookup (s : vtkMRMLScene) (id : option string) :
  needs_new_id s id ↔
  id = None ∨ id = Some "" ∨
  is_Some (id_map (Heap s) (CurrentScene s) !! std_string id).
Proof.
  unfold needs_new_id. destruct id as [i|]; simpl; [|by split; left].
  destruct (decide (i = "")) as [->|Hne]; [by split; right; left|].
  rewrite id_in_scene_lookup by done. done.
Qed.

(** The tail of [AddNodeNoNotify], after the ID has been settled. *)
Lemma add_tail_closed (p : ptr) (id : option string) (table : gmap string Z)
    (changes : gmap string string) (s : vtkMRMLScene)
    (heap2 : gmap ptr vtkMRMLNode) :
  heap2 !!! p = SetID id (GetNode s p) →
  (∀ x, <[p := x]> heap2 = <[p := x]> (Heap s)) →
  let s2 := set_ReferencedIDChanges changes
              (set_Heap heap2 (set_UniqueIDByClass table (synced s))) in
  let s3 := update_node (SetSceneRootDir (Some (RootDirectory s2))) p s2 in
  let s4 := if null_or_empty (Name (GetNode s3 p))
            then update_node (λ this, SetName (ID this) this) p s3
            else s3 in
  AddItem p (update_node (SetScene true) p s4) = added_scene p id table changes s.
Proof.
  intros Hp Hins s2 s3 s4. unfold added_scene. f_equal.
  assert (GetNode s3 p = SetSceneRootDir (Some (RootDirectory s)) (SetID id (GetNode s p)))
    as Hs3.
  { subst s3 s2. unfold update_node, GetNode. simpl.
    by rewrite !lookup_total_insert_eq, Hp. }
  subst s4. rewrite Hs3. unfold added_node.
  destruct (null_or_empty _) eqn:Hname.
  - subst s3 s2. unfold update_node, GetNode. simpl.
    rewrite !lookup_total_insert_eq, !insert_insert_eq, Hp, Hins. done.
  - subst s3 s2. unfold update_node, GetNode. simpl.
    rewrite !lookup_total_insert_eq, !insert_insert_eq, Hp, Hins. done.
Qed.

Lemma scene_eta_synced (s : vtkMRMLScene) :
  set_ReferencedIDChanges (ReferencedIDChanges s)
    (set_Heap (Heap s) (set_UniqueIDByClass (UniqueIDByClass s) (synced s)))
  = synced s.
Proof. by destruct s. Qed.

(** [AddNodeNoNotify] on a node that is to be added and is not merged into
    a singleton: the node keeps its ID when it has one that is not taken,
    and receives the first free candidate of its class otherwise. *)
Lemma AddNodeNoNotify_added (p : ptr) (s : vtkMRMLScene) :
  cache_ok s →
  AddToScene (GetNode s p) = true →
  find_singleton s (GetNode s p) = None →
  (¬ needs_new_id s (ID (GetNode s p)) →
     AddNodeNoNotify p s
     = (Some p, added_scene p (ID (GetNode s p)) (UniqueIDByClass s)
                  (ReferencedIDChanges s) s)) ∧
  (needs_new_id s (ID (GetNode s p)) →
     ∃ r,
       first_free_index (id_map (Heap s) (CurrentScene s))
         (ClassName (GetNode s p))
         (default 1%Z (UniqueIDByClass s !! ClassName (GetNode s p))) r ∧
       AddNodeNoNotify p s
       = (Some p,
          added_scene p (Some (candidateName (ClassName (GetNode s p)) r))
            (<[ClassName (GetNode s p) := (r + 1)%Z]> (UniqueIDByClass s))
            (<[std_string (ID (GetNode s p))
               := candidateName (ClassName (GetNode s p)) r]>
               (ReferencedIDChanges s)) s)).
Proof.
  intros Hok Hadd Hsingle. unfold AddNodeNoNotify.
  rewrite Hadd, Hsingle. cbn [negb].
  split.
  - intros Hfree. rewrite needs_new_id_lookup in Hfree.
    destruct (ID (GetNode s p)) as [id|] eqn:Hid; [|by destruct Hfree; left].
    assert (id ≠ "") as Hne by (intros ->; apply Hfree; auto).
    cbn [null_or_empty]. rewrite bool_decide_eq_false_2 by done.
    rewrite GetNodeByID_synced by done.
    assert (id_map (Heap s) (CurrentScene s) !! id = None) as ->.
    { apply eq_None_not_Some. intros Hsome. apply Hfree. auto. }
    rewrite bool_decide_eq_false_2 by (by intros [? ?]).
    f_equal.
    rewrite <- (add_tail_closed p (Some id) (UniqueIDByClass s)
                  (ReferencedIDChanges s) s (Heap s)).
    + cbv zeta. by rewrite scene_eta_synced.
    + fold (GetNode s p). by rewrite <- Hid, SetID_same.
    + done.
  - intros Hnew. rewrite needs_new_id_lookup in Hnew.
    assert (∃ s1,
      (s1 = s ∨ s1 = synced s) ∧
      (if null_or_empty (ID (GetNode s p)) then (true, s)
       else let '(found, s') := GetNodeByID (ID (GetNode s p)) s in
            (bool_decide (is_Some found), s')) = (true, s1))
      as (s1 & Hs1 & ->).
    { destruct (null_or_empty (ID (GetNode s p))) eqn:Hnull; [by eauto|].
      apply null_or_empty_false in Hnull as (id & Hid & Hne).
      rewrite Hid in Hnew |- *. rewrite GetNodeByID_synced by done.
      exists (synced s). split; [by right|].
      rewrite bool_decide_eq_true_2; [done|].
      destruct Hnew as [?|[[= ?]|?]]; done. }
    assert (∃ r,
      first_free_index (id_map (Heap s) (CurrentScene s))
        (ClassName (GetNode s p))
        (default 1%Z (UniqueIDByClass s !! ClassName (GetNode s p))) r ∧
      assign_unique_id p s1
      = set_ReferencedIDChanges
          (<[std_string (ID (GetNode s p))
             := candidateName (ClassName (GetNode s p)) r]> (ReferencedIDChanges s))
          (set_Heap
             (<[p := SetID (Some (candidateName (ClassName (GetNode s p)) r))
                       (GetNode s p)]> (Heap s))
             (set_UniqueIDByClass
                (<[ClassName (GetNode s p) := (r + 1)%Z]> (UniqueIDByClass s))
                (synced s)))) as (r & Hfree & Hassign).
    { destruct Hs1 as [->| ->].
      - by apply assign_unique_id_spec.
      - apply (assign_unique_id_spec p (synced s)); [|done].
        apply synced_cache_ok. by destruct Hok as (_ & ? & _). }
    exists r. split; [done|]. f_equal. rewrite Hassign.
    apply add_tail_closed.
    + by rewrite lookup_total_insert_eq.
    + intros x. by rewrite insert_insert_eq.
Qed.

(** [AddNode] is [AddNodeNoNotify] followed by the event and the stamp. *)
Lemma AddNode_added (p : ptr) (s : vtkMRMLScene) :
  AddToScene (GetNode s p) = true →
  AddNode p s
  = ((AddNodeNoNotify p s).1,
     Modified (InvokeEvent NodeAddedEvent (Some p) (AddNodeNoNotify p s).2)).
Proof.
  intros Hadd. unfold AddNode. rewrite Hadd. cbn [negb].
  by destruct (AddNodeNoNotify p s).
Qed.

End AddNodeSpec.

(** ** Singletons *)

Section Singletons.
Context `{ops : MRMLNodeOps}.

Lemma nth_by_class_filter (s : vtkMRMLScene) (className : string)
    (items : list ptr) (n : nat) :
  nth_by_class s className items n
  = filter (λ p, IsA (GetNode s p) className = true) items !! n.
Proof.
  revert n. induction items as [|p items IH]; intros n; [done|].
  cbn [nth_by_class].
  destruct (IsA (GetNode s p) className) eqn:Hisa.
  - rewrite filter_cons_True by done. destruct n; [done|]. apply IH.
  - rewrite filter_cons_False by (cbv beta; congruence). apply IH.
Qed.

(** The loop over the indices visits the instances of the class in order
    and stops at the first one with the tag. *)
Lemma singleton_loop_spec (s : vtkMRMLScene) (className tag : string)
    (k : nat) :
  let instances := filter (λ p, IsA (GetNode s p) className = true) (CurrentScene s) in
  singleton_loop s className tag (seq k (length instances - k))
  = head (filter (λ q, SingletonTag (GetNode s q) = Some tag) (drop k instances)).
Proof.
  intros instances.
  remember (length instances - k) as d eqn:Hd.
  revert k Hd. induction d as [|d IH]; intros k Hd.
  - rewrite drop_ge by lia. done.
  - cbn [seq singleton_loop]. unfold GetNthNodeByClass.
    rewrite nth_by_class_filter. fold instances.
    destruct (instances !! k) as [sn|] eqn:Hk.
    + rewrite (drop_S _ _ _ Hk).
      unfold singleton_matches.
      destruct (SingletonTag (GetNode s sn)) as [t|] eqn:Htag.
      * case_bool_decide as Ht.
        -- subst t. by rewrite filter_cons_True.
        -- rewrite filter_cons_False by (cbv beta; congruence).
           apply IH. lia.
      * rewrite filter_cons_False by (cbv beta; congruence). apply IH. lia.
    + apply lookup_ge_None in Hk. lia.
Qed.

Lemma find_singleton_spec (s : vtkMRMLScene) (n : vtkMRMLNode) (tag : string) :
  SingletonTag n = Some tag →
  find_singleton s n = first_singleton s (ClassName n) tag.
Proof.
  intros Htag. unfold find_singleton, first_singleton, GetNumberOfNodesByClass.
  rewrite Htag.
  pose proof (singleton_loop_spec s (ClassName n) tag 0) as Hloop.
  cbv zeta in Hloop. rewrite Nat.sub_0_r, drop_0 in Hloop. rewrite Hloop.
  f_equal. rewrite list_filter_filter. apply list_filter_iff.
  intros q. unfold is_singleton_of. tauto.
Qed.

Lemma first_singleton_Some (s : vtkMRMLScene) (className tag : string)
    (sn : ptr) :
  first_singleton s className tag = Some sn →
  sn ∈ CurrentScene s ∧ is_singleton_of s className tag sn.
Proof.
  unfold first_singleton. intros Hhead.
  apply head_Some_elem_of, list_elem_of_filter in Hhead. tauto.
Qed.

Lemma first_singleton_None (s : vtkMRMLScene) (className tag : string) :
  first_singleton s className tag = None ↔
  ∀ q, q ∈ CurrentScene s → ¬ is_singleton_of s className tag q.
Proof.
  unfold first_singleton. rewrite head_None. split.
  - intros Hnil q Hq Hsing.
    assert (q ∈ filter (is_singleton_of s className tag) (CurrentScene s)) as Hin
      by (by apply list_elem_of_filter).
    rewrite Hnil in Hin. by apply elem_of_nil in Hin.
  - intros Hall. induction (CurrentScene s) as [|q l IH]; [done|].
    rewrite filter_cons_False.
    + apply IH. intros q' Hq'. apply Hall. by right.
    + apply Hall. by left.
Qed.

End Singletons.

Section Merge.
Context `{ops : MRMLNodeOps}.

Lemma references_RemoveNodeReferences (p : ptr) (s : vtkMRMLScene) :
  references (RemoveNodeReferences p s)
  = filter (λ e, keeps_reference s (ID (GetNode s p)) e = true) (references s).
Proof. unfold references, RemoveNodeReferences. simpl. apply zip_fst_snd. Qed.


Lemma AddNodeNoNotify_merged (p : ptr) (s : vtkMRMLScene) (tag : string)
    (sn : ptr) :
  AddToScene (GetNode s p) = true →
  SingletonTag (GetNode s p) = Some tag →
  first_singleton s (ClassName (GetNode s p)) tag = Some sn →
  AddNodeNoNotify p s
  = (Some sn,
     RemoveNodeReferences p
       (update_node
          (λ this, CopyWithSceneWithSingleModifiedEvent this (GetNode s p)) sn s)).
Proof.
  intros Hadd Htag Hfirst. unfold AddNodeNoNotify.
  rewrite Hadd, (find_singleton_spec _ _ _ Htag), Hfirst. done.
Qed.

Lemma AddNode_not_added (p : ptr) (s : vtkMRMLScene) :
  AddToScene (GetNode s p) = false → AddNode p s = (None, s).
Proof. intros Hadd. unfold AddNode. by rewrite Hadd. Qed.

End Merge.

(** ** What [AddNode] stores *)

Section AddNodeTheorem.
Context `{ops : MRMLNodeOps}.

Lemma added_node_fields (root : string) (id : option string) (n : vtkMRMLNode) :
  ID (added_node root id n) = id ∧
  ClassName (added_node root id n) = ClassName n ∧
  SingletonTag (added_node root id n) = SingletonTag n ∧
  AddToScene (added_node root id n) = AddToScene n.
Proof. unfold added_node. by destruct (null_or_empty _). Qed.

Lemma GetNode_added_scene (p q : ptr) (id : option string)
    (table : gmap string Z) (changes : gmap string string) (s : vtkMRMLScene) :
  GetNode (added_scene p id table changes s) q
  = if decide (p = q) then added_node (RootDirectory s) id (GetNode s p)
    else GetNode s q.
Proof.
  unfold added_scene, GetNode. simpl. case_decide as Hpq.
  - subst. apply lookup_total_insert_eq.
  - by apply lookup_total_insert_ne.
Qed.

Lemma first_free_smallest_unused (s : vtkMRMLScene) (className : string)
    (hint index : Z) :
  first_free_index (id_map (Heap s) (CurrentScene s)) className hint index ↔
  smallest_unused_index s className hint index.
Proof.
  unfold first_free_index, smallest_unused_index.
  rewrite eq_None_not_Some, id_in_scene_lookup by apply candidateName_nonempty.
  split; intros (Hle & Hfree & Hbelow); (split; [done|split; [done|]]);
    intros j Hj; specialize (Hbelow j Hj);
    by apply id_in_scene_lookup in Hbelow; [|apply candidateName_nonempty].
Qed.

Lemma find_singleton_None (s : vtkMRMLScene) (n : vtkMRMLNode) :
  find_singleton s n = None ↔
  ∀ tag q, SingletonTag n = Some tag → q ∈ CurrentScene s →
           ¬ is_singleton_of s (ClassName n) tag q.
Proof.
  destruct (SingletonTag n) as [tag|] eqn:Htag.
  - rewrite (find_singleton_spec _ _ _ Htag), first_singleton_None.
    split; [by intros Hall ? q [= <-]; apply Hall|by intros Hall q; apply Hall].
  - unfold find_singleton. rewrite Htag. split; [done|done].
Qed.

Lemma needs_new_id_decide (s : vtkMRMLScene) (id : option string) :
  needs_new_id s id ∨ ¬ needs_new_id s id.
Proof.
  rewrite needs_new_id_lookup.
  destruct id as [i|]; [|by left; left].
  destruct (decide (i = "")) as [->|Hne]; [by left; right; left|].
  destruct (id_map (Heap s) (CurrentScene s) !! std_string (Some i)) eqn:Hm.
  - left. right. right. done.
  - right. intros [?|[[= ?]|[? ?]]]; done.
Qed.

(** C4, with the two conditions under which it holds: a node whose
    [AddToScene] flag is unset is refused, [AddNode] returns NULL and the
    scene is unchanged; a node whose flag is set and that is not taken for a
    singleton already in the scene is appended to the collection, all other
    nodes untouched.  When its ID was NULL, empty or the ID of a node of the
    scene, the node first receives the ID made of its class name followed by
    the smallest index, at or above the hint of its class (1 when the class
    has none), whose ID is not in the scene; the change from the old ID is
    recorded in [ReferencedIDChanges] and the hint of the class moves past
    the index.  Otherwise the node keeps its ID and nothing is recorded.
    The scene is taken with a cache of IDs that is out of date or agrees
    with the collection. *)
Theorem AddNode_stores_node (p : ptr) (s : vtkMRMLScene) :
  cache_ok s →
  (AddToScene (GetNode s p) = false → AddNode p s = (None, s)) ∧
  (AddToScene (GetNode s p) = true →
   (∀ tag q, SingletonTag (GetNode s p) = Some tag → q ∈ CurrentScene s →
             ¬ is_singleton_of s (ClassName (GetNode s p)) tag q) →
   ∃ s',
     AddNode p s = (Some p, s') ∧
     CurrentScene s' = CurrentScene s ++ [p] ∧
     (∀ q, q ≠ p → GetNode s' q = GetNode s q) ∧
     (¬ needs_new_id s (ID (GetNode s p)) →
        ID (GetNode s' p) = ID (GetNode s p) ∧
        UniqueIDByClass s' = UniqueIDByClass s ∧
        ReferencedIDChanges s' = ReferencedIDChanges s) ∧
     (needs_new_id s (ID (GetNode s p)) →
        ∃ index,
          smallest_unused_index s (ClassName (GetNode s p))
            (default 1%Z (UniqueIDByClass s !! ClassName (GetNode s p))) index ∧
          ID (GetNode s' p)
          = Some (candidateName (ClassName (GetNode s p)) index) ∧
          ReferencedIDChanges s'
          = <[std_string (ID (GetNode s p))
              := candidateName (ClassName (GetNode s p)) index]>
              (ReferencedIDChanges s) ∧
          UniqueIDByClass s'
          = <[ClassName (GetNode s p) := (index + 1)%Z]> (UniqueIDByClass s))).
Proof.
  intros Hok. split; [apply AddNode_not_added|].
  intros Hadd Hsingle. apply find_singleton_None in Hsingle.
  destruct (AddNodeNoNotify_added p s Hok Hadd Hsingle) as [Hkeep Hnew].
  rewrite (AddNode_added _ _ Hadd).
  destruct (needs_new_id_decide s (ID (GetNode s p))) as [Hneeds|Hfree].
  - destruct (Hnew Hneeds) as (r & Hr & ->). cbn [fst snd].
    eexists. split; [done|]. split; [done|]. split.
    { intros q Hq. unfold GetNode at 1. simpl.
      by rewrite lookup_total_insert_ne. }
    split; [done|]. intros _. exists r.
    split; [by apply first_free_smallest_unused|].
    split; [|done].
    unfold GetNode at 1. simpl. rewrite lookup_total_insert_eq.
    apply added_node_fields.
  - rewrite (Hkeep Hfree). cbn [fst snd].
    eexists. split; [done|]. split; [done|]. split.
    { intros q Hq. unfold GetNode at 1. simpl.
      by rewrite lookup_total_insert_ne. }
    split; [|done]. intros _. split; [|done].
    unfold GetNode at 1. simpl. rewrite lookup_total_insert_eq.
    apply added_node_fields.
Qed.

End AddNodeTheorem.

(** ** The base class satisfies the laws *)

Lemma base_laws : @MRMLNodeLaws base_ops.
Proof.
  split; simpl.
  - intros n. by rewrite bool_decide_eq_true_2.
  - intros n m className Hclass. by rewrite Hclass.
  - intros this node. unfold base_CopyWithScene.
    by destruct (Scene node), (ID node).
  - intros this node. unfold base_CopyWithScene.
    by destruct (Scene node), (ID node).
  - intros this node. unfold base_CopyWithScene.
    by destruct (Scene node), (ID node).
  - done.
  - done.
  - done.
  - done.
Qed.

(** ** Invariants of the reachable scenes *)

Section Invariants.
Context `{ops : MRMLNodeOps} `{laws : !MRMLNodeLaws}.

Lemma cache_stale_cache_ok (s : vtkMRMLScene) : cache_stale s → cache_ok s.
Proof. intros [Hlt Hle]. unfold cache_ok. split; [lia|]. split; [done|lia]. Qed.

Lemma foldl_update_node_heap (f : vtkMRMLNode → vtkMRMLNode) (l : list ptr)
    (s : vtkMRMLScene) :
  foldl (λ s' q, update_node f q s') s l
  = set_Heap (foldl (λ h q, <[q := f (h !!! q)]> h) (Heap s) l) s.
Proof.
  revert s. induction l as [|q l IH]; intros s; [by destruct s|].
  simpl. by rewrite IH.
Qed.

Lemma iter_UpdateReferences_fields (k : nat) (n : vtkMRMLNode) :
  ClassName (Nat.iter k UpdateReferences n) = ClassName n ∧
  ID (Nat.iter k UpdateReferences n) = ID n ∧
  SingletonTag (Nat.iter k UpdateReferences n) = SingletonTag n ∧
  AddToScene (Nat.iter k UpdateReferences n) = AddToScene n.
Proof.
  induction k as [|k (Hc & Hi & Ht & Ha)]; [done|]. simpl.
  by rewrite UpdateReferences_ClassName, UpdateReferences_ID,
     UpdateReferences_SingletonTag, UpdateReferences_AddToScene.
Qed.

Lemma elem_of_remove_first (p q : ptr) (l : list ptr) :
  q ∈ remove_first p l → q ∈ l.
Proof.
  induction l as [|x l IH]; [done|]. simpl. case_decide.
  - by right.
  - intros [->|Hq]%elem_of_cons; [by left|right; auto].
Qed.

(** [RemoveNode] takes the first occurrence of the node out of the
    collection, and every node is left with its class, ID, singleton tag
    and [AddToScene] flag. *)
Lemma RemoveNode_spec (p : ptr) (s : vtkMRMLScene) :
  CurrentScene (RemoveNode (Some p) s) = remove_first p (CurrentScene s) ∧
  (∀ q, GetNode (RemoveNode (Some p) s) q
        = Nat.iter (occurrences q (remove_first p (CurrentScene s)))
            UpdateReferences (GetNode s q)) ∧
  UndoStack (RemoveNode (Some p) s) = UndoStack s ∧
  RedoStack (RemoveNode (Some p) s) = RedoStack s ∧
  NodeIDsMTime (RemoveNode (Some p) s) = NodeIDsMTime s ∧
  NodeIDs (RemoveNode (Some p) s) = NodeIDs s ∧
  dom (Heap (RemoveNode (Some p) s))
  = dom (Heap s) ∪ list_to_set (remove_first p (CurrentScene s)) ∧
  (p ∈ CurrentScene s →
     CurrentSceneMTime (RemoveNode (Some p) s) = S (Clock s) ∧
     Clock (RemoveNode (Some p) s) = S (Clock s)) ∧
  (p ∉ CurrentScene s →
     CurrentSceneMTime (RemoveNode (Some p) s) = CurrentSceneMTime s ∧
     Clock (RemoveNode (Some p) s) = Clock s).
Proof.
  unfold RemoveNode, update_all_references.
  set (s3 := InvokeEvent NodeRemovedEvent (Some p)
               (RemoveNodeReferences p (RemoveItem p s))).
  assert (CurrentScene s3 = remove_first p (CurrentScene s)) as Hscene.
  { subst s3. simpl. apply RemoveItem_CurrentScene. }
  assert (Heap s3 = Heap s) as Hheap.
  { subst s3. simpl. apply RemoveItem_Heap. }
  destruct (foldl_update_node UpdateReferences (CurrentScene s3) s3)
    as [Hcur Hnodes].
  split; [by rewrite Hcur|]. split.
  { intros q. rewrite Hnodes, Hscene. unfold GetNode. by rewrite Hheap. }
  rewrite foldl_update_node_heap. simpl.
  split; [apply RemoveItem_stacks|]. split; [apply RemoveItem_stacks|].
  split; [unfold RemoveItem; by case_decide|].
  split; [unfold RemoveItem; by case_decide|].
  split.
  { rewrite RemoveItem_CurrentScene, RemoveItem_Heap. clear.
    induction (remove_first p (CurrentScene s)) as [|x l IH] using rev_ind.
    - simpl. set_solver.
    - rewrite foldl_app. simpl. rewrite dom_insert_L, IH, list_to_set_app_L.
      simpl. set_solver. }
  unfold RemoveItem. split; intros Hp.
  - by rewrite decide_True.
  - by rewrite decide_False.
Qed.

Lemma singletons_unique_mono (s s' : vtkMRMLScene) :
  (∀ q, q ∈ CurrentScene s' → q ∈ CurrentScene s) →
  (∀ q, q ∈ CurrentScene s' →
        ClassName (GetNode s' q) = ClassName (GetNode s q) ∧
        SingletonTag (GetNode s' q) = SingletonTag (GetNode s q)) →
  singletons_unique s → singletons_unique s'.
Proof.
  intros Hsub Hsame Huniq a b tag Ha Hb Hclass Hta Htb.
  destruct (Hsame a Ha) as [Hca Htga]. destruct (Hsame b Hb) as [Hcb Htgb].
  apply (Huniq a b tag); auto; congruence.
Qed.

End Invariants.

Section Reachable.
Context `{ops : MRMLNodeOps} `{laws : !MRMLNodeLaws}.

Lemma GetNode_heap (s' s : vtkMRMLScene) (q : ptr) :
  Heap s' = Heap s → GetNode s' q = GetNode s q.
Proof. unfold GetNode. by intros ->. Qed.

Lemma GetNode_notified (e : SceneEvent) (callData : option ptr)
    (s : vtkMRMLScene) (q : ptr) :
  GetNode (Modified (InvokeEvent e callData s)) q = GetNode s q.
Proof. done. Qed.

Lemma GetNode_RemoveNodeReferences (p q : ptr) (s : vtkMRMLScene) :
  GetNode (RemoveNodeReferences p s) q = GetNode s q.
Proof. done. Qed.

(** The three ways [AddNode] can go. *)
Lemma AddNode_cases (p : ptr) (s : vtkMRMLScene) :
  cache_ok s →
  AddNode p s = (None, s) ∨
  (∃ tag sn,
     SingletonTag (GetNode s p) = Some tag ∧
     sn ∈ CurrentScene s ∧
     is_singleton_of s (ClassName (GetNode s p)) tag sn ∧
     AddNode p s
     = (Some sn,
        Modified (InvokeEvent NodeAddedEvent (Some p)
          (RemoveNodeReferences p
             (update_node
                (λ this, CopyWithSceneWithSingleModifiedEvent this (GetNode s p))
                sn s))))) ∨
  (∃ id table changes,
     find_singleton s (GetNode s p) = None ∧
     (id = ID (GetNode s p) ∧ ¬ needs_new_id s id ∨
      ∃ r, id = Some (candidateName (ClassName (GetNode s p)) r) ∧
           ¬ id_in_scene s id) ∧
     AddNode p s
     = (Some p,
        Modified (InvokeEvent NodeAddedEvent (Some p)
          (added_scene p id table changes s)))).
Proof.
  intros Hok.
  destruct (AddToScene (GetNode s p)) eqn:Hadd;
    [|left; by apply AddNode_not_added].
  right. rewrite (AddNode_added _ _ Hadd).
  destruct (find_singleton s (GetNode s p)) as [sn|] eqn:Hfind.
  - left. destruct (SingletonTag (GetNode s p)) as [tag|] eqn:Htag;
      [|by unfold find_singleton in Hfind; rewrite Htag in Hfind].
    rewrite (find_singleton_spec _ _ _ Htag) in Hfind.
    exists tag, sn. split; [done|].
    destruct (first_singleton_Some _ _ _ _ Hfind) as [Hin Hsing].
    split; [done|]. split; [done|].
    by rewrite (AddNodeNoNotify_merged _ _ _ _ Hadd Htag Hfind).
  - right. destruct (AddNodeNoNotify_added p s Hok Hadd Hfind) as [Hkeep Hnew].
    destruct (needs_new_id_decide s (ID (GetNode s p))) as [Hneeds|Hfree].
    + destruct (Hnew Hneeds) as (r & Hr & ->).
      eexists _, _, _. split; [done|]. split; [|done]. right.
      exists r. split; [done|].
      apply first_free_smallest_unused in Hr. by destruct Hr as (_ & ? & _).
    + rewrite (Hkeep Hfree). eexists _, _, _. split; [done|]. split; [|done].
      by left.
Qed.

Lemma added_scene_cache_stale (p : ptr) (id : option string)
    (table : gmap string Z) (changes : gmap string string) (s : vtkMRMLScene) :
  cache_ok s →
  cache_stale (Modified (InvokeEvent NodeAddedEvent (Some p)
                           (added_scene p id table changes s))).
Proof. intros (Hle & Hclock & _). unfold cache_stale. simpl. lia. Qed.

(** The cache is behind the collection in every reachable scene, and no
    two nodes of a reachable scene share class and singleton tag. *)
Lemma reachable_invariants (s : vtkMRMLScene) :
  reachable s → cache_stale s ∧ singletons_unique s.
Proof.
  induction 1 as [heap clock|s p Hreach [Hstale Huniq]
                 |s n Hreach [Hstale Huniq]|s p node Hreach [Hstale Huniq] Hp].
  - split; [unfold cache_stale; simpl; lia|].
    intros a b tag Ha. by apply elem_of_nil in Ha.
  - pose proof (cache_stale_cache_ok s Hstale) as Hok.
    destruct (AddNode_cases p s Hok)
      as [->|[(tag & sn & Htag & Hin & [Hisa Hsn] & ->)
             |(id & table & changes & Hfind & _ & ->)]]; cbn [snd].
    + done.
    + split; [destruct Hstale; unfold cache_stale; simpl; lia|].
      apply (singletons_unique_mono s); [done| |done].
      intros q _.
      rewrite GetNode_notified, GetNode_RemoveNodeReferences.
      rewrite GetNode_update_node. case_decide as Hq; [subst q|done].
      rewrite Copy_ClassName, Copy_SingletonTag. by rewrite Htag, Hsn.
    + split; [by apply added_scene_cache_stale|].
      assert (∀ q, ClassName (GetNode (Modified (InvokeEvent NodeAddedEvent
                     (Some p) (added_scene p id table changes s))) q)
                   = ClassName (GetNode s q) ∧
                   SingletonTag (GetNode (Modified (InvokeEvent NodeAddedEvent
                     (Some p) (added_scene p id table changes s))) q)
                   = SingletonTag (GetNode s q)) as Hsame.
      { intros q.
        rewrite GetNode_notified.
        rewrite GetNode_added_scene. case_decide as Hq; [subst q|done].
        by destruct (added_node_fields (RootDirectory s) id (GetNode s p))
          as (_ & -> & -> & _). }
      rewrite find_singleton_None in Hfind.
      intros a b tag Ha Hb Hclass Hta Htb. simpl in Ha, Hb.
      destruct (Hsame a) as [Hca Htga]. destruct (Hsame b) as [Hcb Htgb].
      rewrite Hca, Hcb in Hclass. rewrite Htga in Hta. rewrite Htgb in Htb.
      apply elem_of_app in Ha as [Ha|Ha%list_elem_of_singleton];
        apply elem_of_app in Hb as [Hb|Hb%list_elem_of_singleton].
      * by apply (Huniq a b tag).
      * subst b. exfalso. apply (Hfind tag a Htb Ha). split; [|done].
        rewrite <- Hclass. apply IsA_ClassName.
      * subst a. exfalso. apply (Hfind tag b Hta Hb). split; [|done].
        rewrite Hclass. apply IsA_ClassName.
      * congruence.
  - destruct n as [p|]; [|done].
    destruct (RemoveNode_spec p s)
      as (Hscene & Hnodes & _ & _ & Hmt & _ & _ & Hin & Hout).
    split.
    + unfold cache_stale. rewrite Hmt. destruct Hstale as [Hlt Hle].
      destruct (decide (p ∈ CurrentScene s)) as [Hp|Hp].
      * destruct (Hin Hp) as [-> ->]. lia.
      * destruct (Hout Hp) as [-> ->]. lia.
    + apply (singletons_unique_mono s); [| |done].
      * intros q. rewrite Hscene. apply elem_of_remove_first.
      * intros q _. rewrite Hnodes.
        by destruct (iter_UpdateReferences_fields
          (occurrences q (remove_first p (CurrentScene s))) (GetNode s q))
          as (-> & _ & -> & _).
  - split; [done|].
    apply (singletons_unique_mono s); [done| |done].
    intros q Hq. unfold GetNode. simpl.
    rewrite lookup_total_insert_ne; [done|]. by intros ->.
Qed.

End Reachable.

(** ** Merging into a singleton *)

Section SingletonTheorem.
Context `{ops : MRMLNodeOps} `{laws : !MRMLNodeLaws}.


End SingletonTheorem.



(** C4 as worded fails for a node that matches a singleton of the scene:
    node 2 has its [AddToScene] flag set, and [AddNode] does not store it. *)
Lemma AddNode_singleton_not_stored :
  AddToScene (GetNode view_scene 2) = true ∧
  2 ∉ CurrentScene (@AddNode base_ops 2 view_scene).2.
Proof.
  split; [by vm_compute|]. vm_compute.
  intros Hin. apply list_elem_of_singleton in Hin. discriminate Hin.
Qed.

Lemma AddNode_stores_node_witness :
  CurrentScene (@AddNode base_ops 3 view_scene).2 = CurrentScene view_scene ++ [3] ∧
  @AddNode base_ops 4 view_scene = (None, view_scene).
Proof.
  assert (cache_ok view_scene) as Hok.
  { unfold cache_ok. vm_compute. split; [lia|]. split; [lia|].
    intros Heq. discriminate Heq. }
  destruct (@AddNode_stores_node base_ops 3 view_scene Hok) as [_ Hstore].
  destruct (@AddNode_stores_node base_ops 4 view_scene Hok) as [Hrefuse _].
  split; [|apply Hrefuse; by vm_compute].
  destruct Hstore as (s' & Heq & Hscene & _); [by vm_compute| |].
  - intros tag q Htag. vm_compute in Htag. discriminate Htag.
  - rewrite Heq. exact Hscene.
Defined.

(** ** Unique IDs *)

(** C3 at a scene reached by three calls of [AddNode]: the model node takes
    the ID [vtkMRMLModelNode1], the singleton view node is added, and a
    second view node with the same tag arrives under the ID
    [vtkMRMLModelNode1].  It is merged into the view node, which takes over
    its ID: the scene then holds two distinct nodes under one ID, and
    [GetNodeByID] returns the view node for it. *)
Theorem merged_singleton_duplicates_id :
  @reachable base_ops merged_scene ∧
  CurrentScene merged_scene = [3; 1] ∧
  ID (GetNode merged_scene 3) = Some "vtkMRMLModelNode1" ∧
  ID (GetNode merged_scene 1) = Some "vtkMRMLModelNode1" ∧
  (GetNodeByID (Some "vtkMRMLModelNode1") merged_scene).1 = Some 1 ∧
  ¬ ids_unique merged_scene.
Proof.
  split; [unfold merged_scene; repeat apply reachable_AddNode; apply reachable_New|].
  split; [by vm_compute|]. split; [by vm_compute|]. split; [by vm_compute|].
  split; [by vm_compute|].
  intros [_ Huniq].
  assert (3 = 1) as Heq; [|discriminate Heq].
  apply Huniq.
  - vm_compute. apply list_elem_of_here.
  - vm_compute. apply list_elem_of_further, list_elem_of_here.
  - by vm_compute.
Qed.

(** ** The maps of [Undo] and [Redo] *)

Section MapItems.
Context {V : Type}.

Lemma map_items_Permutation (m : gmap string V) : map_items m ≡ₚ map_to_list m.
Proof. apply merge_sort_Permutation. Qed.

Lemma elem_of_map_items (m : gmap string V) (k : string) (v : V) :
  (k, v) ∈ map_items m ↔ m !! k = Some v.
Proof. by rewrite map_items_Permutation, elem_of_map_to_list. Qed.

Lemma NoDup_fst_map_items (m : gmap string V) : NoDup (map_items m).*1.
Proof. rewrite map_items_Permutation. apply NoDup_fst_map_to_list. Qed.

End MapItems.

Section Frame.

Lemma same_but_heap_stacks_refl (s : vtkMRMLScene) : same_but_heap_stacks s s.
Proof. done. Qed.

Lemma same_but_heap_stacks_trans (s1 s2 s3 : vtkMRMLScene) :
  same_but_heap_stacks s1 s2 → same_but_heap_stacks s2 s3 →
  same_but_heap_stacks s1 s3.
Proof. unfold same_but_heap_stacks. congruence. Qed.

(** A scene that agrees with [s] but for the heap and the stacks is [s]
    with the other heap and stacks. *)
Lemma same_but_heap_stacks_closed (s s' : vtkMRMLScene) :
  same_but_heap_stacks s s' →
  s' = with_heap_stacks (Heap s') (UndoStack s') (RedoStack s') s.
Proof.
  unfold same_but_heap_stacks, with_heap_stacks. intros Heq.
  destruct s, s'. simpl in *. by injection Heq as -> -> -> -> -> -> -> -> -> -> -> -> -> -> -> ->.
Qed.

End Frame.

(** ** The first loop of [Undo] and [Redo] *)

Section CopyBack.
Context `{ops : MRMLNodeOps} `{laws : !MRMLNodeLaws}.
Variable copyInStack : ptr → vtkMRMLScene → vtkMRMLScene.
Variables stk other : vtkMRMLScene → list (list ptr).

Hypothesis copyInStack_heap : ∀ c s,
  Heap (copyInStack c s)
  = <[fresh (dom (Heap s)) := backup_node (GetNode s c)]> (Heap s).
Hypothesis copyInStack_frame : ∀ c s, same_but_heap_stacks s (copyInStack c s).
Hypothesis copyInStack_stk : ∀ c s,
  stk (copyInStack c s)
  = match stk s with
    | T :: rest => replace_item c (fresh (dom (Heap s))) T :: rest
    | [] => []
    end.
Hypothesis copyInStack_other : ∀ c s, other (copyInStack c s) = other s.
Hypothesis stk_set_Heap : ∀ h s, stk (set_Heap h s) = stk s.
Hypothesis other_set_Heap : ∀ h s, other (set_Heap h s) = other s.

Lemma is_target_cons_skip (currentMap : gmap string ptr) (id : string) (u : ptr)
    (rest : list (string * ptr)) (p : ptr) :
  (∀ c, currentMap !! id = Some c → u = c) →
  is_target currentMap ((id, u) :: rest) p ↔ is_target currentMap rest p.
Proof.
  intros Hskip. unfold is_target. split.
  - intros (id' & u' & Hin & Hmap & Hne).
    apply elem_of_cons in Hin as [[= -> ->]|Hin]; [|by eauto].
    by apply Hskip in Hmap.
  - intros (id' & u' & Hin & Hmap & Hne). exists id', u'.
    split; [by right|done].
Qed.

Lemma GetNode_set_Heap_insert (h : gmap ptr vtkMRMLNode) (p q : ptr)
    (n : vtkMRMLNode) (s : vtkMRMLScene) :
  GetNode (set_Heap (<[p := n]> h) s) q
  = if decide (p = q) then n else h !!! q.
Proof.
  unfold GetNode. simpl. case_decide as Hpq.
  - subst. apply lookup_total_insert_eq.
  - by apply lookup_total_insert_ne.
Qed.

Lemma Forall2_backup_rel_refl (currentMap : gmap string ptr) (s : vtkMRMLScene)
    (T : list ptr) :
  Forall2 (backup_rel currentMap [] s s) T T.
Proof.
  apply Forall2_same_length_lookup. split; [done|].
  intros i x y Hx Hy. left. split; [congruence|].
  intros (id & u & Hin & _). by apply elem_of_nil in Hin.
Qed.

(** The first loop, from any point on: the scene changes in its heap and
    stacks only; the saved nodes whose ID is not current are queued in
    order; a current node that has a saved counterpart on another object
    becomes the copy of that counterpart, after a backup of it has taken its
    place in the top of the stack; every other object is left alone. *)
Lemma copy_back_spec (currentMap : gmap string ptr)
    (rest : list (string * ptr)) (s : vtkMRMLScene) (add : list ptr) :
  NoDup rest.*1 →
  (∀ id u, (id, u) ∈ rest →
     u ∈ dom (Heap s) ∧ ID (GetNode s u) = Some id) →
  (∀ id u c, (id, u) ∈ rest → currentMap !! id = Some c →
     c ∈ dom (Heap s) ∧ ID (GetNode s c) = Some id) →
  ∀ res, res = foldl (copy_back_step copyInStack currentMap) (s, add) rest →
  same_but_heap_stacks s res.1 ∧
  dom (Heap s) ⊆ dom (Heap res.1) ∧
  res.2 = add ++ (filter (λ e, currentMap !! e.1 = None) rest).*2 ∧
  (∀ p, p ∈ dom (Heap s) → ¬ is_target currentMap rest p →
     GetNode res.1 p = GetNode s p) ∧
  (∀ id u c, (id, u) ∈ rest → currentMap !! id = Some c → u ≠ c →
     GetNode res.1 c
     = CopyWithSceneWithSingleModifiedEvent (GetNode s c) (GetNode s u)) ∧
  other res.1 = other s ∧
  (∀ T rest_stk, stk s = T :: rest_stk → (∀ a, a ∈ T → a ∈ dom (Heap s)) →
     ∃ T', stk res.1 = T' :: rest_stk ∧
           Forall2 (backup_rel currentMap rest s res.1) T' T).
Proof.
  revert s add.
  induction rest as [|[id u] rest IH]; intros s add Hnodup Hsaved Hcur res ->.
  { cbn [foldl fst snd]. split; [done|]. split; [done|].
    split; [by rewrite app_nil_r|]. split; [done|].
    split; [by intros ? ? ? Hin; apply elem_of_nil in Hin|]. split; [done|].
    intros T rest_stk HT _. exists T. split; [done|].
    apply Forall2_backup_rel_refl. }
  rewrite fmap_cons in Hnodup. apply NoDup_cons in Hnodup as [Hid Hnodup].
  assert (∀ u', (id, u') ∉ rest) as Hfresh_id.
  { intros u' Hin. apply Hid. apply list_elem_of_fmap. by exists (id, u'). }
  cbn [foldl].
  destruct (currentMap !! id) as [c|] eqn:Hmap.
  2:{ (* the saved node is queued *)
    assert (copy_back_step copyInStack currentMap (s, add) (id, u)
            = (s, add ++ [u])) as ->
      by (unfold copy_back_step; cbn [fst snd]; by rewrite Hmap).
    specialize (IH s (add ++ [u]) Hnodup).
    destruct IH with (res := foldl (copy_back_step copyInStack currentMap)
                               (s, add ++ [u]) rest)
      as (Hframe & Hdom & Hadd & Hkeep & Hcopy & Hother & Hstk); [| |done|].
    { intros id' u' Hin. apply Hsaved. by right. }
    { intros id' u' c' Hin. apply (Hcur id' u'). by right. }
    split; [done|]. split; [done|]. split.
    { rewrite Hadd, filter_cons_True by done.
      by rewrite fmap_cons, <- (assoc_L (++)). }
    split.
    { intros p Hp Htarget. apply Hkeep; [done|].
      by rewrite <- (is_target_cons_skip currentMap id u) by (by rewrite Hmap). }
    split.
    { intros id' u' c' Hin. apply elem_of_cons in Hin as [[= -> ->]|Hin].
      - by rewrite Hmap.
      - by apply Hcopy. }
    split; [done|].
    intros T rest_stk HT Halloc. destruct (Hstk T rest_stk HT Halloc) as (T' & HT' & Hrel).
    exists T'. split; [done|].
    eapply Forall2_impl; [exact Hrel|]. intros a c' [[-> Hn]|(Ht & Ha)].
    - left. split; [done|].
      by rewrite (is_target_cons_skip currentMap id u) by (by rewrite Hmap).
    - right. split; [|done].
      by rewrite (is_target_cons_skip currentMap id u) by (by rewrite Hmap). }
  destruct (decide (u ≠ c)) as [Hne|Heq].
  2:{ (* the saved node is the current node *)
    apply dec_stable in Heq. subst c.
    assert (copy_back_step copyInStack currentMap (s, add) (id, u) = (s, add))
      as ->.
    { unfold copy_back_step. cbn [fst snd]. rewrite Hmap.
      by rewrite decide_False by (by intros ?). }
    specialize (IH s add Hnodup).
    destruct IH with (res := foldl (copy_back_step copyInStack currentMap)
                               (s, add) rest)
      as (Hframe & Hdom & Hadd & Hkeep & Hcopy & Hother & Hstk); [| |done|].
    { intros id' u' Hin. apply Hsaved. by right. }
    { intros id' u' c' Hin. apply (Hcur id' u'). by right. }
    assert (∀ p, is_target currentMap ((id, u) :: rest) p
                 ↔ is_target currentMap rest p) as Htarget.
    { intros p. apply is_target_cons_skip. intros c Hc. congruence. }
    split; [done|]. split; [done|]. split.
    { rewrite Hadd, filter_cons_False; [done|]. cbn. by rewrite Hmap. }
    split.
    { intros p Hp Hn. apply Hkeep; [done|]. by rewrite <- Htarget. }
    split.
    { intros id' u' c' Hin. apply elem_of_cons in Hin as [[= -> ->]|Hin].
      - rewrite Hmap. by intros [= <-].
      - by apply Hcopy. }
    split; [done|].
    intros T rest_stk HT Halloc.
    destruct (Hstk T rest_stk HT Halloc) as (T' & HT' & Hrel).
    exists T'. split; [done|].
    eapply Forall2_impl; [exact Hrel|]. intros a c' [[-> Hn]|(Ht & Ha)].
    - left. split; [done|]. by rewrite Htarget.
    - right. split; [|done]. by rewrite Htarget. }
  (* the current node is backed up, then overwritten *)
  set (a := fresh (dom (Heap s))).
  set (s1 := copyInStack c s).
  set (s2 := update_node
               (λ this, CopyWithSceneWithSingleModifiedEvent this (GetNode s1 u))
               c s1).
  assert (copy_back_step copyInStack currentMap (s, add) (id, u) = (s2, add))
    as ->.
  { unfold copy_back_step. cbn [fst snd]. rewrite Hmap. by rewrite decide_True. }
  destruct (Hsaved id u) as [Hu_dom Hu_id]; [by left|].
  destruct (Hcur id u c) as [Hc_dom Hc_id]; [by left|done|].
  assert (a ∉ dom (Heap s)) as Ha by apply is_fresh.
  assert (Heap s1 = <[a := backup_node (GetNode s c)]> (Heap s)) as Hheap1
    by apply copyInStack_heap.
  assert (∀ q, q ∈ dom (Heap s) → GetNode s1 q = GetNode s q) as Hs1.
  { intros q Hq. unfold GetNode. rewrite Hheap1, lookup_total_insert_ne; [done|].
    by intros ->. }
  assert (Heap s2
          = <[c := CopyWithSceneWithSingleModifiedEvent (GetNode s c) (GetNode s u)]>
              (Heap s1)) as Hheap2.
  { subst s2. unfold update_node. simpl. by rewrite !Hs1. }
  assert (∀ q, q ∈ dom (Heap s) → q ≠ c → GetNode s2 q = GetNode s q) as Hs2.
  { intros q Hq Hqc. rewrite <- Hs1 by done. unfold GetNode.
    by rewrite Hheap2, lookup_total_insert_ne. }
  assert (GetNode s2 c
          = CopyWithSceneWithSingleModifiedEvent (GetNode s c) (GetNode s u))
    as Hs2c.
  { unfold GetNode at 1. by rewrite Hheap2, lookup_total_insert_eq. }
  assert (a ≠ c) as Hac by (by intros ->).
  assert (GetNode s2 a = backup_node (GetNode s c)) as Hs2a.
  { unfold GetNode at 1.
    by rewrite Hheap2, lookup_total_insert_ne, Hheap1, lookup_total_insert_eq. }
  assert (dom (Heap s2) = {[c]} ∪ ({[a]} ∪ dom (Heap s))) as Hdom2.
  { by rewrite Hheap2, dom_insert_L, Hheap1, dom_insert_L. }
  assert (∀ id' u', (id', u') ∈ rest → id' ≠ id) as Hrest_id.
  { intros id' u' Hin ->. by apply (Hfresh_id u'). }
  assert (∀ id' u', (id', u') ∈ rest → u' ≠ c) as Hrest_u.
  { intros id' u' Hin ->. destruct (Hsaved id' c) as [_ Hid']; [by right|].
    apply (Hrest_id id' c Hin). congruence. }
  assert (∀ id' u' c', (id', u') ∈ rest → currentMap !! id' = Some c' → c' ≠ c)
    as Hrest_c.
  { intros id' u' c' Hin Hmap' ->. apply (Hrest_id id' u' Hin).
    destruct (Hcur id' u' c) as [_ Hid']; [by right|done|]. congruence. }
  assert (¬ is_target currentMap rest c) as Hc_target.
  { intros (id' & u' & Hin & Hmap' & _). by apply (Hrest_c id' u' c). }
  assert (∀ p, is_target currentMap rest p → p ∈ dom (Heap s)) as Htarget_dom.
  { intros p (id' & u' & Hin & Hmap' & _).
    destruct (Hcur id' u' p) as [Hp _]; [by right|done|done]. }
  assert (∀ p, is_target currentMap ((id, u) :: rest) p
               ↔ p = c ∨ is_target currentMap rest p) as Htarget.
  { intros p. unfold is_target. split.
    - intros (id' & u' & Hin & Hmap' & Hne').
      apply elem_of_cons in Hin as [[= -> ->]|Hin].
      + left. congruence.
      + right. eauto.
    - intros [->|(id' & u' & Hin & Hmap' & Hne')].
      + exists id, u. split; [by left|done].
      + exists id', u'. split; [by right|done]. }
  specialize (IH s2 add Hnodup).
  destruct IH with (res := foldl (copy_back_step copyInStack currentMap)
                             (s2, add) rest)
    as (Hframe & Hdom & Hadd & Hkeep & Hcopy & Hother & Hstk); [| |done|].
  { intros id' u' Hin. destruct (Hsaved id' u') as [Hd Hi]; [by right|].
    split; [rewrite Hdom2; set_solver|].
    rewrite Hs2; [done|done|]. by apply (Hrest_u id'). }
  { intros id' u' c' Hin Hmap'.
    destruct (Hcur id' u' c') as [Hd Hi]; [by right|done|].
    split; [rewrite Hdom2; set_solver|].
    rewrite Hs2; [done|done|]. by apply (Hrest_c id' u'). }
  split.
  { eapply same_but_heap_stacks_trans; [apply (copyInStack_frame c s)|].
    eapply same_but_heap_stacks_trans; [|exact Hframe]. done. }
  split; [rewrite Hdom2 in Hdom; set_solver|].
  split.
  { rewrite Hadd, filter_cons_False; [done|]. cbn. by rewrite Hmap. }
  split.
  { intros p Hp Hn. rewrite Htarget in Hn.
    rewrite Hkeep; [|rewrite Hdom2; set_solver|tauto].
    apply Hs2; [done|]. intros ->. tauto. }
  split.
  { intros id' u' c' Hin Hmap' Hne'.
    apply elem_of_cons in Hin as [[= -> ->]|Hin].
    - assert (c' = c) as -> by congruence.
      rewrite Hkeep; [done|rewrite Hdom2; set_solver|done].
    - rewrite (Hcopy id' u' c' Hin Hmap' Hne').
      destruct (Hsaved id' u') as [Hd _]; [by right|].
      destruct (Hcur id' u' c') as [Hd' _]; [by right|done|].
      rewrite !Hs2; [done|done| |done|].
      + by apply (Hrest_u id').
      + by apply (Hrest_c id' u'). }
  split.
  { rewrite Hother. subst s2 s1. unfold update_node.
    by rewrite other_set_Heap, copyInStack_other. }
  intros T rest_stk HT Halloc.
  destruct (Hstk (replace_item c a T) rest_stk) as (T' & HT' & Hrel).
  { subst s2 s1. unfold update_node. rewrite stk_set_Heap, copyInStack_stk.
    by rewrite HT. }
  { intros q Hq. unfold replace_item in Hq.
    apply list_elem_of_fmap in Hq as (q' & -> & Hq').
    rewrite Hdom2. case_decide; [set_solver|]. apply Halloc in Hq'. set_solver. }
  exists T'. split; [done|].
  apply Forall2_same_length_lookup. apply Forall2_same_length_lookup in Hrel.
  destruct Hrel as [Hlen Hrel]. unfold replace_item in Hlen, Hrel.
  rewrite length_fmap in Hlen. split; [done|].
  intros i a' q Ha' Hq.
  specialize (Hrel i a' (if decide (q = c) then a else q) Ha').
  rewrite list_lookup_fmap, Hq in Hrel. specialize (Hrel eq_refl).
  assert (q ∈ dom (Heap s)) as Hq_dom by (by eapply Halloc, list_elem_of_lookup_2).
  destruct (decide (q = c)) as [->|Hqc].
  - right. rewrite Htarget. split; [by left|].
    destruct Hrel as [[-> _]|(Ht & _)].
    + split; [done|]. split; [apply Hdom; rewrite Hdom2; set_solver|].
      rewrite Hkeep; [done|rewrite Hdom2; set_solver|].
      intros Ht. by apply Htarget_dom in Ht.
    + by apply Htarget_dom in Ht.
  - destruct Hrel as [[-> Hn]|(Ht & Hnew & Hin & Hnode)].
    + left. split; [done|]. rewrite Htarget. tauto.
    + right. rewrite Htarget. split; [by right|].
      split; [rewrite Hdom2 in Hnew; set_solver|]. split; [done|].
      by rewrite Hnode, Hs2.
Qed.

End CopyBack.

(** ** The loops of [Undo] and [Redo] over [AddNode] and [RemoveNode] *)

Section AddRemoveLoops.
Context `{ops : MRMLNodeOps} `{laws : !MRMLNodeLaws}.

Lemma has_id_key (heap : gmap ptr vtkMRMLNode) (p : ptr) :
  has_id (heap !!! p) ↔ node_key heap p ≠ "".
Proof.
  unfold has_id, node_key. destruct (ID (heap !!! p)) as [id|]; simpl.
  - split; [by intros (? & [= <-] & ?)|eauto].
  - split; [by intros (? & ? & ?)|done].
Qed.

Lemma has_id_ID (heap : gmap ptr vtkMRMLNode) (p : ptr) :
  has_id (heap !!! p) → ID (heap !!! p) = Some (node_key heap p).
Proof. unfold node_key. by intros (id & -> & _). Qed.

(** A node with an ID that no node of the scene has keeps it. *)
Lemma not_needs_new_id (s : vtkMRMLScene) (p : ptr) :
  has_id (GetNode s p) →
  node_key (Heap s) p ∉ node_key (Heap s) <$> CurrentScene s →
  ¬ needs_new_id s (ID (GetNode s p)).
Proof.
  intros (id & Hid & Hne) Hkey. rewrite Hid.
  intros [?|[[= ?]|(q & Hq & Hqid)]]; [done|done|].
  apply Hkey. apply list_elem_of_fmap. exists q. split; [|done].
  unfold node_key. fold (GetNode s p) (GetNode s q). by rewrite Hid, Hqid.
Qed.

(** [AddNode] on a node that can be added as it is. *)
Lemma AddNode_as_is (p : ptr) (s : vtkMRMLScene) :
  cache_ok s → addable (GetNode s p) → has_id (GetNode s p) →
  node_key (Heap s) p ∉ node_key (Heap s) <$> CurrentScene s →
  (AddNode p s).2
  = Modified (InvokeEvent NodeAddedEvent (Some p)
      (added_scene p (ID (GetNode s p)) (UniqueIDByClass s)
         (ReferencedIDChanges s) s)).
Proof.
  intros Hok [Hadd Htag] Hid Hkey.
  rewrite (AddNode_added _ _ Hadd). cbn [snd].
  destruct (AddNodeNoNotify_added p s Hok Hadd) as [Hkeep _].
  { unfold find_singleton. by rewrite Htag. }
  rewrite Hkeep; [done|]. by apply not_needs_new_id.
Qed.

Lemma node_key_added (p q : ptr) (table : gmap string Z)
    (changes : gmap string string) (s : vtkMRMLScene) :
  node_key (Heap (added_scene p (ID (GetNode s p)) table changes s)) q
  = node_key (Heap s) q.
Proof.
  unfold node_key.
  change (std_string (ID (GetNode (added_scene p (ID (GetNode s p)) table changes s) q))
          = std_string (ID (GetNode s q))).
  rewrite GetNode_added_scene. case_decide as Hpq; [subst q|done].
  by destruct (added_node_fields (RootDirectory s) (ID (GetNode s p)) (GetNode s p))
    as (-> & _).
Qed.

Lemma Heap_notified (e : SceneEvent) (callData : option ptr) (s : vtkMRMLScene) :
  Heap (Modified (InvokeEvent e callData s)) = Heap s.
Proof. done. Qed.

Lemma CurrentScene_notified_added (e : SceneEvent) (callData : option ptr)
    (p : ptr) (id : option string) (table : gmap string Z)
    (changes : gmap string string) (s : vtkMRMLScene) :
  CurrentScene (Modified (InvokeEvent e callData (added_scene p id table changes s)))
  = CurrentScene s ++ [p].
Proof. done. Qed.

Lemma stacks_notified_added (e : SceneEvent) (callData : option ptr)
    (p : ptr) (id : option string) (table : gmap string Z)
    (changes : gmap string string) (s : vtkMRMLScene) :
  UndoStack (Modified (InvokeEvent e callData (added_scene p id table changes s)))
  = UndoStack s ∧
  RedoStack (Modified (InvokeEvent e callData (added_scene p id table changes s)))
  = RedoStack s.
Proof. done. Qed.

Lemma Heap_added_scene (p : ptr) (id : option string) (table : gmap string Z)
    (changes : gmap string string) (s : vtkMRMLScene) :
  Heap (added_scene p id table changes s)
  = <[p := added_node (RootDirectory s) id (GetNode s p)]> (Heap s).
Proof. done. Qed.

(** The loop that adds back the queued nodes appends them in order and
    leaves class, ID, singleton tag and flag of every node as they were. *)
Lemma add_back_spec (addNodes : list ptr) (s : vtkMRMLScene) :
  cache_ok s →
  (∀ u, u ∈ addNodes → addable (GetNode s u) ∧ has_id (GetNode s u)) →
  NoDup (node_key (Heap s) <$> addNodes) →
  (∀ u, u ∈ addNodes →
        node_key (Heap s) u ∉ node_key (Heap s) <$> CurrentScene s) →
  ∀ s', s' = foldl (λ s' p, (AddNode p s').2) s addNodes →
  CurrentScene s' = CurrentScene s ++ addNodes ∧
  cache_ok s' ∧
  UndoStack s' = UndoStack s ∧ RedoStack s' = RedoStack s ∧
  dom (Heap s') = dom (Heap s) ∪ list_to_set addNodes ∧
  (∀ q, q ∉ addNodes → GetNode s' q = GetNode s q) ∧
  (∀ q, ID (GetNode s' q) = ID (GetNode s q) ∧
        ClassName (GetNode s' q) = ClassName (GetNode s q) ∧
        SingletonTag (GetNode s' q) = SingletonTag (GetNode s q) ∧
        AddToScene (GetNode s' q) = AddToScene (GetNode s q)).
Proof.
  revert s.
  induction addNodes as [|u addNodes IH]; intros s Hok Hnodes Hnodup Hkeys s' ->.
  { cbn [foldl]. rewrite app_nil_r. repeat (split; [done|]).
    split; [simpl; set_solver|done]. }
  cbn [foldl].
  rewrite fmap_cons in Hnodup. apply NoDup_cons in Hnodup as [Hu Hnodup].
  destruct (Hnodes u) as [Haddable Hid]; [by left|].
  rewrite (AddNode_as_is u s Hok Haddable Hid) by (apply Hkeys; by left).
  set (s1 := Modified (InvokeEvent NodeAddedEvent (Some u)
               (added_scene u (ID (GetNode s u)) (UniqueIDByClass s)
                  (ReferencedIDChanges s) s))).
  assert (Heap s1 = <[u := added_node (RootDirectory s) (ID (GetNode s u))
                             (GetNode s u)]> (Heap s)) as Hheap1.
  { subst s1. by rewrite Heap_notified, Heap_added_scene. }
  assert (CurrentScene s1 = CurrentScene s ++ [u]) as Hscene1
    by apply CurrentScene_notified_added.
  assert (∀ q, GetNode s1 q
               = if decide (u = q)
                 then added_node (RootDirectory s) (ID (GetNode s u)) (GetNode s u)
                 else GetNode s q) as Hnode1.
  { intros q. subst s1. rewrite GetNode_notified. apply GetNode_added_scene. }
  assert (∀ q, ID (GetNode s1 q) = ID (GetNode s q) ∧
               ClassName (GetNode s1 q) = ClassName (GetNode s q) ∧
               SingletonTag (GetNode s1 q) = SingletonTag (GetNode s q) ∧
               AddToScene (GetNode s1 q) = AddToScene (GetNode s q)) as Hfields1.
  { intros q. rewrite Hnode1. case_decide as Hq; [subst q|done].
    apply added_node_fields. }
  assert (∀ q, node_key (Heap s1) q = node_key (Heap s) q) as Hkey1.
  { intros q. unfold node_key. fold (GetNode s1 q) (GetNode s q).
    by destruct (Hfields1 q) as (-> & _). }
  assert (u ∉ addNodes) as Hu_notin.
  { intros Hin. apply Hu. apply list_elem_of_fmap. by exists u. }
  destruct (IH s1) with (s' := foldl (λ s' p, (AddNode p s').2) s1 addNodes)
    as (Hscene & Hok' & Hundo & Hredo & Hdom & Hother & Hfields); [| | | |done|].
  - by apply cache_stale_cache_ok, added_scene_cache_stale.
  - intros u' Hu'. destruct (Hnodes u') as [[Ha Ht] Hi]; [by right|].
    destruct (Hfields1 u') as (Hf1 & _ & Hf3 & Hf4).
    split; [split; congruence|].
    destruct Hi as (id & Hi & Hne). exists id. split; [congruence|done].
  - erewrite list_fmap_ext; [exact Hnodup|]. intros ? q _. apply Hkey1.
  - intros u' Hu'. rewrite Hkey1.
    erewrite list_fmap_ext; [|intros ? q _; apply Hkey1].
    rewrite Hscene1, fmap_app. intros [Hin|Hin]%elem_of_app.
    + by apply (Hkeys u'); [right|].
    + apply list_elem_of_singleton in Hin. apply Hu. rewrite <- Hin.
      apply list_elem_of_fmap. by exists u'.
  - split.
    { rewrite Hscene, Hscene1. by rewrite <- (assoc_L (++)). }
    split; [done|].
    destruct (stacks_notified_added NodeAddedEvent (Some u) u (ID (GetNode s u))
                (UniqueIDByClass s) (ReferencedIDChanges s) s) as [Hu1 Hr1].
    split; [by rewrite Hundo|]. split; [by rewrite Hredo|]. split.
    { rewrite Hdom, Hheap1, dom_insert_L. clear. set_solver. }
    split.
    { intros q Hq. apply not_elem_of_cons in Hq as [Hqu Hq].
      rewrite Hother by done. rewrite Hnode1. by rewrite decide_False. }
    intros q. destruct (Hfields q) as (-> & -> & -> & ->). apply Hfields1.
Qed.

Lemma occurrences_not_in (q : ptr) (l : list ptr) : q ∉ l → occurrences q l = 0.
Proof.
  intros Hq. unfold occurrences. induction l as [|x l IH]; [done|].
  apply not_elem_of_cons in Hq as [Hne Hq].
  rewrite filter_cons_False by (by intros ->). by apply IH.
Qed.

Lemma RemoveNode_cache_ok (p : ptr) (s : vtkMRMLScene) :
  cache_ok s → cache_ok (RemoveNode (Some p) s).
Proof.
  intros (Hle & Hclock & Hcoherent).
  destruct (RemoveNode_spec p s)
    as (Hscene & Hnodes & _ & _ & Hmt & Hids & _ & Hin & Hout).
  unfold cache_ok. rewrite Hmt, Hids, Hscene.
  destruct (decide (p ∈ CurrentScene s)) as [Hp|Hp].
  - destruct (Hin Hp) as [-> ->]. split; [lia|]. split; [lia|]. intros ?. lia.
  - destruct (Hout Hp) as [-> ->]. split; [done|]. split; [done|].
    rewrite remove_first_not_in by done. intros Heq Hne.
    rewrite (Hcoherent Heq Hne). apply id_map_ext. intros q _.
    unfold node_key. fold (GetNode s q) (GetNode (RemoveNode (Some p) s) q).
    rewrite Hnodes.
    by destruct (iter_UpdateReferences_fields
      (occurrences q (remove_first p (CurrentScene s))) (GetNode s q))
      as (_ & -> & _).
Qed.

(** The loop that removes the nodes unknown to the saved collection takes
    their first occurrences out, one after the other; the stacks are not
    touched, and the only change to the nodes is that those still in the
    scene have updated their references. *)
Lemma remove_loop_spec (removeNodes : list ptr) (s : vtkMRMLScene) :
  cache_ok s →
  ∀ s', s' = foldl (λ s' p, RemoveNode (Some p) s') s removeNodes →
  CurrentScene s'
  = foldl (λ l p, remove_first p l) (CurrentScene s) removeNodes ∧
  cache_ok s' ∧
  UndoStack s' = UndoStack s ∧ RedoStack s' = RedoStack s ∧
  dom (Heap s) ⊆ dom (Heap s') ∧
  (∀ q, q ∈ dom (Heap s') → q ∈ dom (Heap s) ∨ q ∈ CurrentScene s) ∧
  (∀ q, q ∉ CurrentScene s → GetNode s' q = GetNode s q) ∧
  (∀ q, ∃ k, GetNode s' q = Nat.iter k UpdateReferences (GetNode s q)).
Proof.
  revert s. induction removeNodes as [|p removeNodes IH]; intros s Hok s' ->.
  { cbn [foldl]. repeat (split; [by auto|]). intros q. by exists 0. }
  cbn [foldl].
  destruct (RemoveNode_spec p s)
    as (Hscene1 & Hnodes1 & Hundo1 & Hredo1 & _ & _ & Hdom1 & _).
  destruct (IH (RemoveNode (Some p) s) (RemoveNode_cache_ok p s Hok) _ eq_refl)
    as (Hscene & Hok' & Hundo & Hredo & Hdom & Hdom' & Hout & Hiter).
  split; [by rewrite Hscene, Hscene1|]. split; [done|].
  split; [by rewrite Hundo|]. split; [by rewrite Hredo|].
  split.
  { etrans; [|exact Hdom]. rewrite Hdom1. apply union_subseteq_l. }
  split.
  { intros q Hq. apply Hdom' in Hq as [Hq|Hq].
    - rewrite Hdom1 in Hq. apply elem_of_union in Hq as [Hq|Hq]; [by left|].
      right. apply elem_of_list_to_set in Hq. by eapply elem_of_remove_first.
    - right. rewrite Hscene1 in Hq. by eapply elem_of_remove_first. }
  split.
  { intros q Hq. rewrite Hout.
    - rewrite Hnodes1, occurrences_not_in; [done|].
      intros Hin. by apply Hq, (elem_of_remove_first p).
    - rewrite Hscene1. intros Hin. by apply Hq, (elem_of_remove_first p). }
  intros q. destruct (Hiter q) as [k Hk]. rewrite Hk, Hnodes1.
  exists (k + occurrences q (remove_first p (CurrentScene s))).
  by rewrite Nat.iter_add.
Qed.

Lemma remove_first_NoDup (p : ptr) (l : list ptr) :
  NoDup l → remove_first p l = filter (λ x, x ≠ p) l.
Proof.
  induction 1 as [|x l Hx Hl IH]; [done|]. simpl.
  destruct (decide (x = p)) as [->|Hne].
  - rewrite filter_cons_False by (by intros ?).
    clear IH. induction l as [|y l IHl]; [done|].
    apply not_elem_of_cons in Hx as [Hy Hx]. apply NoDup_cons in Hl as [_ Hl].
    rewrite filter_cons_True by (by intros ->). f_equal. by apply IHl.
  - by rewrite filter_cons_True, IH.
Qed.

Lemma foldl_remove_first_NoDup (r l : list ptr) :
  NoDup l → foldl (λ l p, remove_first p l) l r = filter (λ x, x ∉ r) l.
Proof.
  revert l. induction r as [|p r IH]; intros l Hl; cbn [foldl].
  - clear Hl. induction l as [|x l IHl]; [done|].
    rewrite filter_cons_True by apply not_elem_of_nil. by f_equal.
  - rewrite remove_first_NoDup, IH by (done || by apply NoDup_filter).
    rewrite list_filter_filter. apply list_filter_iff. intros x.
    rewrite not_elem_of_cons. tauto.
Qed.

End AddRemoveLoops.

(** ** Restoring a saved collection *)

Section MapFacts.

Lemma id_map_lookup_iff (heap : gmap ptr vtkMRMLNode) (l : list ptr)
    (k : string) (p : ptr) :
  NoDup (node_key heap <$> l) →
  id_map heap l !! k = Some p ↔ p ∈ l ∧ node_key heap p = k.
Proof.
  intros Hnodup. split; [apply id_map_lookup_Some|].
  intros [Hp <-]. by apply id_map_lookup_NoDup.
Qed.

Lemma id_map_None_iff (heap : gmap ptr vtkMRMLNode) (l : list ptr) (k : string) :
  id_map heap l !! k = None ↔ k ∉ node_key heap <$> l.
Proof.
  rewrite id_map_lookup_None. split.
  - intros Hall (p & -> & Hp)%list_elem_of_fmap. by apply (Hall p).
  - intros Hk p Hp Heq. apply Hk, list_elem_of_fmap. by exists p.
Qed.

Lemma with_heap_stacks_projections (h : gmap ptr vtkMRMLNode)
    (u r : list (list ptr)) (s : vtkMRMLScene) :
  Heap (with_heap_stacks h u r s) = h ∧
  UndoStack (with_heap_stacks h u r s) = u ∧
  RedoStack (with_heap_stacks h u r s) = r ∧
  CurrentScene (with_heap_stacks h u r s) = CurrentScene s ∧
  CurrentSceneMTime (with_heap_stacks h u r s) = CurrentSceneMTime s ∧
  Clock (with_heap_stacks h u r s) = Clock s ∧
  NodeIDs (with_heap_stacks h u r s) = NodeIDs s ∧
  NodeIDsMTime (with_heap_stacks h u r s) = NodeIDsMTime s.
Proof. done. Qed.

(** A scene that differs from a well-formed one in heap and stacks only,
    with the IDs of the nodes of the collection unchanged, is well-formed. *)
Lemma cache_ok_same_keys (s s' : vtkMRMLScene) :
  same_but_heap_stacks s s' →
  (∀ p, p ∈ CurrentScene s → node_key (Heap s') p = node_key (Heap s) p) →
  cache_ok s → cache_ok s'.
Proof.
  intros Hframe Hkeys (Hle & Hclock & Hcoherent).
  pose proof (same_but_heap_stacks_closed _ _ Hframe) as Hclosed.
  destruct (with_heap_stacks_projections (Heap s') (UndoStack s') (RedoStack s') s)
    as (_ & _ & _ & Hc & Hm & Hk & Hn & Hnm).
  rewrite <- Hclosed in Hc, Hm, Hk, Hn, Hnm.
  unfold cache_ok. rewrite Hc, Hm, Hk, Hn, Hnm.
  split; [done|]. split; [done|]. intros Heq Hne.
  rewrite (Hcoherent Heq Hne). symmetry. by apply id_map_ext.
Qed.

Lemma filter_ext_in {A : Type} (P Q : A → Prop) `{∀ x, Decision (P x)}
    `{∀ x, Decision (Q x)} (l : list A) :
  (∀ x, x ∈ l → P x ↔ Q x) → filter P l = filter Q l.
Proof.
  induction l as [|x l IH]; intros Hiff; [done|].
  rewrite !filter_cons, IH by (intros y Hy; apply Hiff; by right).
  destruct (decide (P x)) as [HP|HP], (decide (Q x)) as [HQ|HQ]; try done.
  - exfalso. apply HQ, Hiff; [by left|done].
  - exfalso. apply HP, Hiff; [by left|done].
Qed.

Lemma filter_all {A : Type} (P : A → Prop) `{∀ x, Decision (P x)} (l : list A) :
  (∀ x, x ∈ l → P x) → filter P l = l.
Proof.
  induction l as [|x l IH]; intros Hall; [done|].
  rewrite filter_cons_True by (apply Hall; by left).
  f_equal. apply IH. intros y Hy. apply Hall. by right.
Qed.

Lemma is_overwritten_decide (s : vtkMRMLScene) (saved : list ptr) (c : ptr) :
  is_overwritten s saved c ∨ ¬ is_overwritten s saved c.
Proof.
  unfold is_overwritten.
  destruct (decide (c ∈ CurrentScene s)) as [Hc|Hc]; [|right; tauto].
  destruct (decide (Exists (λ u, node_key (Heap s) u = node_key (Heap s) c ∧ u ≠ c)
                      saved)) as [Hex|Hex].
  - left. split; [done|]. apply Exists_exists in Hex as (u & Hu & Hkey & Hne).
    by exists u.
  - right. intros (_ & u & Hu & Hkey & Hne). apply Hex, Exists_exists.
    by exists u.
Qed.

End MapFacts.

Section Restore.
Context `{ops : MRMLNodeOps} `{laws : !MRMLNodeLaws}.
Variable copyInStack : ptr → vtkMRMLScene → vtkMRMLScene.
Variables stk other : vtkMRMLScene → list (list ptr).

Hypothesis copyInStack_heap : ∀ c s,
  Heap (copyInStack c s)
  = <[fresh (dom (Heap s)) := backup_node (GetNode s c)]> (Heap s).
Hypothesis copyInStack_frame : ∀ c s, same_but_heap_stacks s (copyInStack c s).
Hypothesis copyInStack_stk : ∀ c s,
  stk (copyInStack c s)
  = match stk s with
    | T :: rest => replace_item c (fresh (dom (Heap s))) T :: rest
    | [] => []
    end.
Hypothesis copyInStack_other : ∀ c s, other (copyInStack c s) = other s.
Hypothesis stacks :
  stk = UndoStack ∧ other = RedoStack ∨ stk = RedoStack ∧ other = UndoStack.

Lemma stk_set_Heap (h : gmap ptr vtkMRMLNode) (s : vtkMRMLScene) :
  stk (set_Heap h s) = stk s.
Proof. by destruct stacks as [[-> _]|[-> _]]. Qed.

Lemma other_set_Heap (h : gmap ptr vtkMRMLNode) (s : vtkMRMLScene) :
  other (set_Heap h s) = other s.
Proof. by destruct stacks as [[_ ->]|[_ ->]]. Qed.

Lemma stacks_preserved (s s' : vtkMRMLScene) :
  UndoStack s' = UndoStack s → RedoStack s' = RedoStack s →
  stk s' = stk s ∧ other s' = other s.
Proof. by destruct stacks as [[-> ->]|[-> ->]]. Qed.

(** The three loops of [Undo] and [Redo] on a well-formed scene. *)
Lemma restore_scene_spec (saved : list ptr) (s : vtkMRMLScene) :
  restorable s saved →
  ∀ s', s' = restore_scene copyInStack saved s →
  (∃ addNodes,
     addNodes ≡ₚ only_in (Heap s) saved (CurrentScene s) ∧
     CurrentScene s'
     = filter (λ c, node_key (Heap s) c ∈ node_key (Heap s) <$> saved)
         (CurrentScene s) ++ addNodes) ∧
  cache_ok s' ∧
  dom (Heap s) ⊆ dom (Heap s') ∧
  (∀ p, p ∈ dom (Heap s) → node_key (Heap s') p = node_key (Heap s) p) ∧
  (∀ c u, c ∈ CurrentScene s → u ∈ saved →
     node_key (Heap s) c = node_key (Heap s) u → c ≠ u →
     ∃ k, GetNode s' c
          = Nat.iter k UpdateReferences
              (CopyWithSceneWithSingleModifiedEvent (GetNode s c) (GetNode s u))) ∧
  (∀ p, p ∈ only_in (Heap s) (CurrentScene s) saved →
     AddToScene (GetNode s' p) = AddToScene (GetNode s p) ∧
     SingletonTag (GetNode s' p) = SingletonTag (GetNode s p)) ∧
  other s' = other s ∧
  (∀ T rest_stk, stk s = T :: rest_stk → (∀ a, a ∈ T → a ∈ dom (Heap s)) →
     ∃ T', stk s' = T' :: rest_stk ∧ backed_up s saved s' T' T).
Proof.
  intros [Hok Halloc Hids Hcur_nodup Hsaved_nodup Haddable] s' ->.
  unfold restore_scene.
  set (currentMap := id_map (Heap s) (CurrentScene s)).
  set (undoMap := id_map (Heap s) saved).
  (* the two maps, read back on the collections *)
  assert (∀ id c, currentMap !! id = Some c
                  ↔ c ∈ CurrentScene s ∧ node_key (Heap s) c = id) as Hcurrent
    by (intros; by apply id_map_lookup_iff).
  assert (∀ id u, undoMap !! id = Some u ↔ u ∈ saved ∧ node_key (Heap s) u = id)
    as Hundo by (intros; by apply id_map_lookup_iff).
  assert (∀ p, p ∈ CurrentScene s ++ saved →
               ID (GetNode s p) = Some (node_key (Heap s) p)) as Hid.
  { intros p Hp. by apply has_id_ID, Hids. }
  assert (∀ c, is_target currentMap (map_items undoMap) c ↔ is_overwritten s saved c)
    as Htarget.
  { intros c. unfold is_target, is_overwritten. split.
    - intros (id & u & Hin & Hmap & Hne).
      apply elem_of_map_items, Hundo in Hin as [Hu Hkey].
      apply Hcurrent in Hmap as [Hc Hkey']. split; [done|].
      exists u. split; [done|]. split; [congruence|done].
    - intros (Hc & u & Hu & Hkey & Hne). exists (node_key (Heap s) u), u.
      split; [by apply elem_of_map_items, Hundo|].
      split; [by apply Hcurrent|done]. }
  (* first loop *)
  destruct (foldl (copy_back_step copyInStack currentMap) (s, [])
              (map_items undoMap)) as [s1 addNodes] eqn:Hloop1.
  destruct (copy_back_spec copyInStack stk other copyInStack_heap
              copyInStack_frame copyInStack_stk copyInStack_other
              stk_set_Heap other_set_Heap currentMap (map_items undoMap) s [])
    with (res := (s1, addNodes))
    as (Hframe & Hdom1 & Hadd & Hkeep & Hcopy & Hother1 & Hstk1);
    [apply NoDup_fst_map_items| | |done|].
  { intros id u Hin. apply elem_of_map_items, Hundo in Hin as [Hu <-].
    split; [apply Halloc|apply Hid]; apply elem_of_app; by right. }
  { intros id u c _ Hmap. apply Hcurrent in Hmap as [Hc <-].
    split; [apply Halloc|apply Hid]; apply elem_of_app; by left. }
  cbn [fst snd] in *.
  set (removeNodes := (filter (λ e, undoMap !! e.1 = None) (map_items currentMap)).*2).
  pose proof (same_but_heap_stacks_closed _ _ Hframe) as Hclosed.
  assert (CurrentScene s1 = CurrentScene s) as Hscene1.
  { rewrite Hclosed. apply with_heap_stacks_projections. }
  assert (∀ p, p ∈ dom (Heap s) → node_key (Heap s1) p = node_key (Heap s) p)
    as Hkeys1.
  { intros p Hp. unfold node_key at 1. fold (GetNode s1 p).
    destruct (is_overwritten_decide s saved p) as [(Hc & u & Hu & Hkey & Hne)|Hn].
    - rewrite (Hcopy (node_key (Heap s) u) u p);
        [|by apply elem_of_map_items, Hundo|by apply Hcurrent|done].
      rewrite Copy_ID, (Hid u) by (apply elem_of_app; by right). done.
    - rewrite Hkeep; [done|done|]. by rewrite Htarget. }
  assert (cache_ok s1) as Hok1.
  { apply (cache_ok_same_keys s); [done| |done].
    intros p Hp. apply Hkeys1, Halloc, elem_of_app. by left. }
  (* the queue of nodes to add back *)
  rewrite app_nil_l in Hadd.
  assert (∀ u, u ∈ addNodes ↔ u ∈ only_in (Heap s) saved (CurrentScene s)) as Hadd_in.
  { intros u. rewrite Hadd. unfold only_in.
    rewrite list_elem_of_filter, list_elem_of_fmap. split.
    - intros ([id u'] & -> & [Hnone Hin]%list_elem_of_filter). cbn in *.
      apply elem_of_map_items, Hundo in Hin as [Hu <-].
      split; [by apply id_map_None_iff|done].
    - intros [Hkey Hu]. exists (node_key (Heap s) u, u). split; [done|].
      apply list_elem_of_filter. split; [by apply id_map_None_iff|].
      by apply elem_of_map_items, Hundo. }
  assert (node_key (Heap s) <$> addNodes
          = (filter (λ e, currentMap !! e.1 = None) (map_items undoMap)).*1)
    as Hadd_keys.
  { rewrite Hadd, <- list_fmap_compose. apply list_fmap_ext.
    intros i [id u] Hi. apply list_elem_of_lookup_2, list_elem_of_filter in Hi as [_ Hin].
    apply elem_of_map_items, Hundo in Hin as [_ <-]. done. }
  assert (NoDup (node_key (Heap s) <$> addNodes)) as Hadd_nodup.
  { rewrite Hadd_keys. eapply sublist_NoDup; [apply (NoDup_fst_map_items undoMap)|].
    apply fmap_sublist, sublist_filter. }
  assert (∀ u, u ∈ addNodes → u ∈ saved ∧ u ∈ dom (Heap s) ∧ (u ∉ CurrentScene s) ∧
               (node_key (Heap s) u ∉ node_key (Heap s) <$> CurrentScene s))
    as Hadd_facts.
  { intros u Hu. apply Hadd_in in Hu. unfold only_in in Hu.
    apply list_elem_of_filter in Hu as [Hkey Hu]. split; [done|].
    split; [apply Halloc, elem_of_app; by right|]. split; [|done].
    intros Hc. apply Hkey, list_elem_of_fmap. by exists u. }
  assert (∀ u, u ∈ addNodes → GetNode s1 u = GetNode s u) as Hadd_nodes.
  { intros u Hu. destruct (Hadd_facts u Hu) as (_ & Hd & Hc & _).
    apply Hkeep; [done|]. rewrite Htarget. by intros [? _]. }
  (* second loop *)
  destruct (add_back_spec addNodes s1 Hok1) with
    (s' := foldl (λ s' p, (AddNode p s').2) s1 addNodes)
    as (Hscene2 & Hok2 & Hundo2 & Hredo2 & Hdom2 & Hother2 & Hfields2); [| | |done|].
  { intros u Hu. rewrite (Hadd_nodes u Hu). split.
    - apply Haddable. by apply Hadd_in.
    - apply Hids, elem_of_app. right. by apply Hadd_facts. }
  { erewrite list_fmap_ext; [exact Hadd_nodup|].
    intros i u Hi. apply Hkeys1. apply list_elem_of_lookup_2 in Hi.
    by apply Hadd_facts in Hi as (_ & ? & _). }
  { intros u Hu. destruct (Hadd_facts u Hu) as (_ & Hd & _ & Hkey).
    rewrite Hscene1, (Hkeys1 u Hd).
    erewrite list_fmap_ext; [exact Hkey|].
    intros i c Hi. apply Hkeys1, Halloc, elem_of_app. left.
    by eapply list_elem_of_lookup_2. }
  set (s2 := foldl (λ s' p, (AddNode p s').2) s1 addNodes) in *.
  (* third loop *)
  destruct (remove_loop_spec removeNodes s2 Hok2) with
    (s' := foldl (λ s' p, RemoveNode (Some p) s') s2 removeNodes)
    as (Hscene3 & Hok3 & Hundo3 & Hredo3 & Hdom3 & _ & Hout3 & Hiter3); [done|].
  set (s3 := foldl (λ s' p, RemoveNode (Some p) s') s2 removeNodes) in *.
  assert (∀ c, c ∈ removeNodes ↔ c ∈ only_in (Heap s) (CurrentScene s) saved)
    as Hremove_in.
  { intros c. unfold removeNodes, only_in.
    rewrite list_elem_of_filter, list_elem_of_fmap. split.
    - intros ([id c'] & -> & [Hnone Hin]%list_elem_of_filter). cbn in *.
      apply elem_of_map_items, Hcurrent in Hin as [Hc <-].
      split; [by apply id_map_None_iff|done].
    - intros [Hkey Hc]. exists (node_key (Heap s) c, c). split; [done|].
      apply list_elem_of_filter. split; [by apply id_map_None_iff|].
      by apply elem_of_map_items, Hcurrent. }
  assert (∀ c, c ∈ removeNodes → c ∈ CurrentScene s ∧
               (node_key (Heap s) c ∉ node_key (Heap s) <$> saved)) as Hremove_facts.
  { intros c Hc. apply Hremove_in in Hc. unfold only_in in Hc.
    apply list_elem_of_filter in Hc as [Hkey Hc]. done. }
  assert (CurrentScene s3
          = filter (λ c, node_key (Heap s) c ∈ node_key (Heap s) <$> saved)
              (CurrentScene s) ++ addNodes) as Hscene.
  { rewrite Hscene3, Hscene2, Hscene1.
    rewrite foldl_remove_first_NoDup.
    - rewrite filter_app. f_equal.
      + apply filter_ext_in. intros c Hc. split.
        * intros Hn. destruct (decide (node_key (Heap s) c
                                 ∈ node_key (Heap s) <$> saved)) as [|Hk]; [done|].
          exfalso. apply Hn, Hremove_in. unfold only_in.
          by apply list_elem_of_filter.
        * intros Hk Hr. by apply Hremove_facts in Hr as [_ Hr].
      + apply filter_all. intros u Hu Hr.
        apply Hremove_facts in Hr as [Hr _]. by apply Hadd_facts in Hu as (_ & _ & ? & _).
    - apply NoDup_app. split; [by eapply NoDup_fmap_1|]. split.
      + intros c Hc Hu. by apply Hadd_facts in Hu as (_ & _ & ? & _).
      + by eapply NoDup_fmap_1. }
  assert (∀ q, ID (GetNode s3 q) = ID (GetNode s1 q) ∧
               SingletonTag (GetNode s3 q) = SingletonTag (GetNode s1 q) ∧
               AddToScene (GetNode s3 q) = AddToScene (GetNode s1 q)) as Hfields3.
  { intros q. destruct (Hiter3 q) as [k ->].
    destruct (iter_UpdateReferences_fields k (GetNode s2 q)) as (_ & -> & -> & ->).
    by destruct (Hfields2 q) as (-> & _ & -> & ->). }
  assert (dom (Heap s) ⊆ dom (Heap s3)) as Hdom.
  { etrans; [exact Hdom1|]. etrans; [|exact Hdom3]. rewrite Hdom2.
    apply union_subseteq_l. }
  assert (∀ a, a ∉ dom (Heap s) → GetNode s3 a = GetNode s1 a) as Hnew.
  { intros a Ha. rewrite Hout3, Hother2; [done| |].
    - intros Hu. by apply Hadd_facts in Hu as (_ & ? & _).
    - rewrite Hscene2, Hscene1. intros [Hc|Hu]%elem_of_app.
      + apply Ha, Halloc, elem_of_app. by left.
      + by apply Hadd_facts in Hu as (_ & ? & _). }
  destruct (stacks_preserved s1 s3) as [Hstk3 Hother3];
    [by rewrite Hundo3, Hundo2|by rewrite Hredo3, Hredo2|].
  split; [exists addNodes; split; [|done]|].
  { apply NoDup_Permutation; [by eapply NoDup_fmap_1| |done].
    unfold only_in. apply NoDup_filter. by eapply NoDup_fmap_1. }
  split; [done|]. split; [done|]. split.
  { intros p Hp. rewrite <- (Hkeys1 p Hp). unfold node_key.
    fold (GetNode s3 p) (GetNode s1 p). by destruct (Hfields3 p) as (-> & _). }
  split.
  { intros c u Hc Hu Hkey Hne. destruct (Hiter3 c) as [k Hk]. exists k.
    rewrite Hk, Hother2.
    - rewrite (Hcopy (node_key (Heap s) u) u c);
        [done|by apply elem_of_map_items, Hundo|by apply Hcurrent|done].
    - intros Hadd'. by apply Hadd_facts in Hadd' as (_ & _ & ? & _). }
  split.
  { intros p Hp. unfold only_in in Hp. apply list_elem_of_filter in Hp as [Hkey Hp].
    destruct (Hfields3 p) as (_ & -> & ->).
    rewrite Hkeep; [done|apply Halloc, elem_of_app; by left|].
    rewrite Htarget. intros (_ & u & Hu & Hkey' & _).
    apply Hkey, list_elem_of_fmap. by exists u. }
  split; [by rewrite Hother3|].
  intros T rest_stk HT HTalloc.
  destruct (Hstk1 T rest_stk HT HTalloc) as (T' & HT' & Hrel).
  exists T'. split; [by rewrite Hstk3|].
  unfold backed_up. eapply Forall2_impl; [exact Hrel|].
  intros a c [[-> Hn]|(Ht & Ha & Hin & Hnode)].
  - left. split; [done|]. by rewrite <- Htarget.
  - right. split; [by rewrite <- Htarget|]. split; [done|].
    split; [by apply Hdom3; rewrite Hdom2; apply elem_of_union_l|].
    by rewrite Hnew.
Qed.

(** After the three loops the IDs of the scene are those of the saved
    collection. *)
Lemma restore_scene_ids (saved : list ptr) (s : vtkMRMLScene) :
  restorable s saved →
  scene_ids (restore_scene copyInStack saved s) = collection_ids (Heap s) saved.
Proof.
  intros Hr.
  destruct (restore_scene_spec saved s Hr _ eq_refl)
    as ((addNodes & Hperm & Hscene) & _ & _ & Hkeys & _).
  destruct Hr as [_ Halloc _ _ _ _].
  unfold scene_ids, collection_ids. rewrite Hscene.
  apply set_eq. intros id.
  rewrite !elem_of_list_to_set, !list_elem_of_fmap. split.
  - intros (p & -> & Hp). apply elem_of_app in Hp as [Hp|Hp].
    + apply list_elem_of_filter in Hp as [Hkey Hp].
      rewrite Hkeys by (apply Halloc, elem_of_app; by left).
      by apply list_elem_of_fmap in Hkey.
    + rewrite Hperm in Hp. apply list_elem_of_filter in Hp as [_ Hp].
      exists p. split; [|done]. apply Hkeys, Halloc, elem_of_app. by right.
  - intros (u & -> & Hu).
    destruct (decide (node_key (Heap s) u ∈ node_key (Heap s) <$> CurrentScene s))
      as [Hin|Hout].
    + apply list_elem_of_fmap in Hin as (c & Hkey & Hc). exists c. split.
      * rewrite Hkeys by (apply Halloc, elem_of_app; by left). done.
      * apply elem_of_app. left. apply list_elem_of_filter. split; [|done].
        rewrite <- Hkey. apply list_elem_of_fmap. by exists u.
    + exists u. split.
      * rewrite Hkeys by (apply Halloc, elem_of_app; by right). done.
      * apply elem_of_app. right. rewrite Hperm. unfold only_in.
        by apply list_elem_of_filter.
Qed.

Lemma restore_scene_restored (saved : list ptr) (s : vtkMRMLScene) :
  restorable s saved → restored s saved (restore_scene copyInStack saved s).
Proof.
  intros Hr. pose proof (restore_scene_ids saved s Hr) as Hids.
  destruct (restore_scene_spec saved s Hr _ eq_refl)
    as (? & ? & ? & ? & ? & ? & _).
  by split.
Qed.

Lemma restore_scene_stacks (saved : list ptr) (s : vtkMRMLScene) :
  restorable s saved →
  other (restore_scene copyInStack saved s) = other s ∧
  ∀ T rest_stk, stk s = T :: rest_stk → (∀ a, a ∈ T → a ∈ dom (Heap s)) →
    ∃ T', stk (restore_scene copyInStack saved s) = T' :: rest_stk ∧
          backed_up s saved (restore_scene copyInStack saved s) T' T.
Proof.
  intros Hr.
  destruct (restore_scene_spec saved s Hr _ eq_refl)
    as (_ & _ & _ & _ & _ & _ & ? & ?).
  by split.
Qed.

End Restore.

(** ** [Undo] and [Redo] on well-formed scenes *)

Section UndoRedo.
Context `{ops : MRMLNodeOps} `{laws : !MRMLNodeLaws}.

Lemma CopyNodeInRedoStack_spec (c : ptr) (s : vtkMRMLScene) :
  Heap (CopyNodeInRedoStack c s)
  = <[fresh (dom (Heap s)) := backup_node (GetNode s c)]> (Heap s) ∧
  same_but_heap_stacks s (CopyNodeInRedoStack c s) ∧
  RedoStack (CopyNodeInRedoStack c s)
  = match RedoStack s with
    | T :: rest => replace_item c (fresh (dom (Heap s))) T :: rest
    | [] => []
    end ∧
  UndoStack (CopyNodeInRedoStack c s) = UndoStack s.
Proof.
  unfold CopyNodeInRedoStack, new_copy, backup_node, same_but_heap_stacks.
  cbv zeta. cbn [RedoStack set_Heap]. destruct s as []; cbn.
  match goal with |- context [match ?l with _ => _ end] => destruct l end; done.
Qed.

Lemma CopyNodeInUndoStack_spec (c : ptr) (s : vtkMRMLScene) :
  Heap (CopyNodeInUndoStack c s)
  = <[fresh (dom (Heap s)) := backup_node (GetNode s c)]> (Heap s) ∧
  same_but_heap_stacks s (CopyNodeInUndoStack c s) ∧
  UndoStack (CopyNodeInUndoStack c s)
  = match UndoStack s with
    | T :: rest => replace_item c (fresh (dom (Heap s))) T :: rest
    | [] => []
    end ∧
  RedoStack (CopyNodeInUndoStack c s) = RedoStack s.
Proof.
  unfold CopyNodeInUndoStack, new_copy, backup_node, same_but_heap_stacks.
  cbv zeta. cbn [UndoStack set_Heap]. destruct s as []; cbn.
  match goal with |- context [match ?l with _ => _ end] => destruct l end; done.
Qed.

Lemma restorable_ext (s0 s : vtkMRMLScene) (saved : list ptr) :
  Heap s0 = Heap s → CurrentScene s0 = CurrentScene s →
  (cache_ok s → cache_ok s0) →
  restorable s saved → restorable s0 saved.
Proof.
  intros Hh Hc Hok [? ? ? ? ? ?].
  split; unfold GetNode in *; rewrite ?Hh, ?Hc; auto.
Qed.

Lemma is_overwritten_ext (s0 s : vtkMRMLScene) (saved : list ptr) (c : ptr) :
  Heap s0 = Heap s → CurrentScene s0 = CurrentScene s →
  is_overwritten s0 saved c ↔ is_overwritten s saved c.
Proof. intros Hh Hc. unfold is_overwritten. by rewrite Hh, Hc. Qed.

Lemma backed_up_ext (s0 s s2 s' : vtkMRMLScene) (saved T' T : list ptr) :
  Heap s0 = Heap s → CurrentScene s0 = CurrentScene s → Heap s' = Heap s2 →
  backed_up s saved s2 T' T → backed_up s0 saved s' T' T.
Proof.
  intros Hh Hc Hh' HT. unfold backed_up in *.
  eapply Forall2_impl; [exact HT|]. intros a c. cbv beta.
  rewrite (is_overwritten_ext s0 s) by done. unfold GetNode.
  by rewrite Hh, Hh'.
Qed.

Lemma restored_ext (s0 s s2 s' : vtkMRMLScene) (saved : list ptr) :
  Heap s0 = Heap s → CurrentScene s0 = CurrentScene s →
  Heap s' = Heap s2 → CurrentScene s' = CurrentScene s2 →
  (cache_ok s2 → cache_ok s') →
  restored s saved s2 → restored s0 saved s'.
Proof.
  intros Hh Hc Hh' Hc' Hok [? ? ? ? ? ? ?].
  split; unfold scene_ids, GetNode in *; rewrite ?Hh, ?Hc, ?Hh', ?Hc'; auto.
Qed.

Lemma cache_ok_ext (s s' : vtkMRMLScene) :
  Heap s' = Heap s → CurrentScene s' = CurrentScene s →
  NodeIDs s' = NodeIDs s → NodeIDsMTime s' = NodeIDsMTime s →
  CurrentSceneMTime s' = CurrentSceneMTime s → Clock s ≤ Clock s' →
  cache_ok s → cache_ok s'.
Proof.
  intros Hh Hc Hn Hnt Hct Hclock (? & ? & Hcache). unfold cache_ok.
  rewrite Hh, Hc, Hn, Hnt, Hct. split_and!; [done|lia|done].
Qed.

(** [Undo] on a scene whose undo stack has the well-formed collection
    [saved] on top. *)
Lemma Undo_spec (s : vtkMRMLScene) (saved : list ptr) (rest : list (list ptr)) :
  UndoStack s = saved :: rest → restorable s saved →
  restored s saved (Undo s) ∧
  UndoStack (Undo s) = rest ∧
  ∃ T, RedoStack (Undo s) = T :: RedoStack s ∧
       backed_up s saved (Undo s) T (CurrentScene s).
Proof.
  intros HU Hr. unfold Undo. rewrite HU. cbv zeta.
  set (s1 := PushIntoRedoStack (set_InUndo true s)).
  assert (Hh1 : Heap s1 = Heap s) by done.
  assert (Hc1 : CurrentScene s1 = CurrentScene s) by done.
  assert (HU1 : UndoStack s1 = UndoStack s) by done.
  assert (HR1 : RedoStack s1 = CurrentScene s :: RedoStack s) by done.
  assert (Hr1 : restorable s1 saved).
  { eapply restorable_ext; [done|done| |done].
    by apply cache_ok_ext. }
  assert (Hres : restored s1 saved (restore_scene CopyNodeInRedoStack saved s1)).
  { apply (restore_scene_restored _ RedoStack UndoStack); try done;
      try (intros; apply CopyNodeInRedoStack_spec). by right. }
  destruct (restore_scene_stacks CopyNodeInRedoStack RedoStack UndoStack)
    with (saved := saved) (s := s1) as [HU2 HR2]; try done;
    try (intros; apply CopyNodeInRedoStack_spec); [by right|].
  destruct (HR2 _ _ HR1) as (T & HT & Hback).
  { intros a Ha. rewrite Hh1. destruct Hr as [_ Halloc _ _ _ _].
    apply Halloc, elem_of_app. by left. }
  clearbody s1. generalize dependent (restore_scene CopyNodeInRedoStack saved s1).
  intros s2 Hres HU2 _ HT Hback.
  split_and!.
  - eapply restored_ext; [symmetry; exact Hh1|symmetry; exact Hc1| | | |exact Hres];
      [done|done|]. by apply cache_ok_ext; [..|cbn; lia].
  - cbn. by rewrite HU2, HU1, HU.
  - exists T. split; [exact HT|].
    eapply backed_up_ext; [symmetry; exact Hh1|symmetry; exact Hc1| |exact Hback].
    done.
Qed.

(** [Redo] on a scene whose redo stack has the well-formed collection
    [saved] on top. *)
Lemma Redo_spec (s : vtkMRMLScene) (saved : list ptr) (rest : list (list ptr)) :
  RedoStack s = saved :: rest → restorable s saved →
  restored s saved (Redo s) ∧
  RedoStack (Redo s) = rest ∧
  ∃ T, UndoStack (Redo s) = T :: UndoStack s ∧
       backed_up s saved (Redo s) T (CurrentScene s).
Proof.
  intros HR Hr. unfold Redo. rewrite HR. cbv zeta.
  set (s1 := PushIntoUndoStack s).
  assert (Hh1 : Heap s1 = Heap s) by done.
  assert (Hc1 : CurrentScene s1 = CurrentScene s) by done.
  assert (HR1 : RedoStack s1 = RedoStack s) by done.
  assert (HU1 : UndoStack s1 = CurrentScene s :: UndoStack s) by done.
  assert (Hr1 : restorable s1 saved).
  { eapply restorable_ext; [done|done| |done].
    by apply cache_ok_ext. }
  assert (Hres : restored s1 saved (restore_scene CopyNodeInUndoStack saved s1)).
  { apply (restore_scene_restored _ UndoStack RedoStack); try done;
      try (intros; apply CopyNodeInUndoStack_spec). by left. }
  destruct (restore_scene_stacks CopyNodeInUndoStack UndoStack RedoStack)
    with (saved := saved) (s := s1) as [HR2 HU2]; try done;
    try (intros; apply CopyNodeInUndoStack_spec); [by left|].
  destruct (HU2 _ _ HU1) as (T & HT & Hback).
  { intros a Ha. rewrite Hh1. destruct Hr as [_ Halloc _ _ _ _].
    apply Halloc, elem_of_app. by left. }
  clearbody s1. generalize dependent (restore_scene CopyNodeInUndoStack saved s1).
  intros s2 Hres HR2 _ HT Hback.
  split_and!.
  - eapply restored_ext; [symmetry; exact Hh1|symmetry; exact Hc1| | | |exact Hres];
      [done|done|]. by apply cache_ok_ext; [..|cbn; lia].
  - cbn. by rewrite HR2, HR1, HR.
  - exists T. split; [exact HT|].
    eapply backed_up_ext; [symmetry; exact Hh1|symmetry; exact Hc1| |exact Hback].
    done.
Qed.

End UndoRedo.

(** ** The state that [Undo] leaves for [Redo] *)

Section RoundTrip.
Context `{ops : MRMLNodeOps} `{laws : !MRMLNodeLaws}.

(** An entry of the stack top is filed under the ID of the node it stands
    for. *)
Lemma backed_up_key (s s' : vtkMRMLScene) (saved : list ptr) (a c : ptr) :
  c ∈ dom (Heap s) → has_id (GetNode s c) →
  (∀ p, p ∈ dom (Heap s) → node_key (Heap s') p = node_key (Heap s) p) →
  (a = c ∧ ¬ is_overwritten s saved c) ∨
  (is_overwritten s saved c ∧ (a ∉ dom (Heap s)) ∧ (a ∈ dom (Heap s')) ∧
   GetNode s' a = backup_node (GetNode s c)) →
  node_key (Heap s') a = node_key (Heap s) c.
Proof.
  intros Hc (id & Hid & _) Hkeys [[-> _]|(_ & _ & _ & Ha)]; [by apply Hkeys|].
  unfold node_key. fold (GetNode s' a) (GetNode s c).
  rewrite Ha. unfold backup_node. by rewrite Copy_ID, Hid.
Qed.

Lemma backed_up_keys (s s' : vtkMRMLScene) (saved T' T : list ptr) :
  (∀ c, c ∈ T → c ∈ dom (Heap s) ∧ has_id (GetNode s c)) →
  (∀ p, p ∈ dom (Heap s) → node_key (Heap s') p = node_key (Heap s) p) →
  backed_up s saved s' T' T →
  node_key (Heap s') <$> T' = node_key (Heap s) <$> T.
Proof.
  intros HT Hkeys Hback. unfold backed_up in Hback.
  induction Hback as [|a c T' T Hac _ IH]; [done|].
  rewrite !fmap_cons. f_equal.
  - destruct (HT c) as [Hc Hid]; [left|]. by eapply backed_up_key.
  - apply IH. intros c' Hc'. apply HT. by right.
Qed.

Lemma backed_up_elem_of (s s' : vtkMRMLScene) (saved T' T : list ptr) (a : ptr) :
  backed_up s saved s' T' T → a ∈ T' →
  ∃ c, c ∈ T ∧
    ((a = c ∧ ¬ is_overwritten s saved c) ∨
     (is_overwritten s saved c ∧ (a ∉ dom (Heap s)) ∧ (a ∈ dom (Heap s')) ∧
      GetNode s' a = backup_node (GetNode s c))).
Proof.
  intros Hback Ha. apply list_elem_of_lookup in Ha as [i Hi].
  destruct (Forall2_lookup_l _ _ _ i a Hback Hi) as (c & Hc & Hac).
  exists c. split; [|done]. apply list_elem_of_lookup. by exists i.
Qed.

(** The scene after the restore, with the backed-up former state on top of
    the other stack, is well formed for the way back, provided the nodes
    that the restore removed can be added again. *)
Lemma restored_restorable (s s' : vtkMRMLScene) (saved T : list ptr) :
  restorable s saved →
  (∀ p, p ∈ only_in (Heap s) (CurrentScene s) saved → addable (GetNode s p)) →
  restored s saved s' → backed_up s saved s' T (CurrentScene s) →
  restorable s' T ∧
  node_key (Heap s') <$> T = node_key (Heap s) <$> CurrentScene s.
Proof.
  intros [Hcache Halloc Hids Hcur Hsaved Haddable] Hadd
    [(addNodes & Hperm & Hscene) Hsids Hok Hdom Hkeys Hcopy Hrem] Hback.
  assert (HTkeys : node_key (Heap s') <$> T = node_key (Heap s) <$> CurrentScene s).
  { eapply backed_up_keys; [|done|done].
    intros c Hc. split; [apply Halloc|apply Hids]; apply elem_of_app; by left. }
  assert (Hsub : ∀ p, p ∈ CurrentScene s' → p ∈ CurrentScene s ++ saved).
  { intros p. rewrite Hscene, !elem_of_app. intros [Hp|Hp].
    - left. by apply list_elem_of_filter in Hp as [_ Hp].
    - right. rewrite Hperm in Hp. by apply list_elem_of_filter in Hp as [_ Hp]. }
  assert (Hkey' : ∀ p, p ∈ CurrentScene s' →
            node_key (Heap s') p = node_key (Heap s) p).
  { intros p Hp. by apply Hkeys, Halloc, Hsub. }
  assert (Hfmap : node_key (Heap s') <$> CurrentScene s'
                  = node_key (Heap s) <$> CurrentScene s').
  { apply list_fmap_ext. intros i p Hp. apply Hkey', list_elem_of_lookup. eauto. }
  assert (HTalloc : ∀ a, a ∈ T → a ∈ dom (Heap s')).
  { intros a Ha.
    destruct (backed_up_elem_of _ _ _ _ _ _ Hback Ha)
      as (c & Hc & [[-> _]|(_ & _ & Hin & _)]); [|done].
    apply Hdom, Halloc, elem_of_app. by left. }
  assert (HTid : ∀ a, a ∈ T → has_id (GetNode s' a)).
  { intros a Ha. apply has_id_key.
    assert (node_key (Heap s') a ∈ node_key (Heap s') <$> T) as Hin
      by (apply list_elem_of_fmap; eauto).
    rewrite HTkeys in Hin. apply list_elem_of_fmap in Hin as (c & -> & Hc).
    apply has_id_key, Hids, elem_of_app. by left. }
  split; [|done]. split.
  - done.
  - intros p [Hp|Hp]%elem_of_app; [|by apply HTalloc]. by apply Hdom, Halloc, Hsub.
  - intros p [Hp|Hp]%elem_of_app; [|by apply HTid].
    apply has_id_key. rewrite Hkey' by done. by apply has_id_key, Hids, Hsub.
  - rewrite Hfmap, Hscene, fmap_app. apply NoDup_app. split_and!.
    + eapply sublist_NoDup; [exact Hcur|]. apply fmap_sublist, sublist_filter.
    + intros x Hx Hx'.
      apply list_elem_of_fmap in Hx as (c & -> & Hc).
      apply list_elem_of_filter in Hc as [_ Hc].
      apply list_elem_of_fmap in Hx' as (u & Hu & Hu').
      rewrite Hperm in Hu'. apply list_elem_of_filter in Hu' as [Hu' _].
      apply Hu'. rewrite <- Hu. apply list_elem_of_fmap. eauto.
    + rewrite Hperm. eapply sublist_NoDup; [exact Hsaved|].
      apply fmap_sublist, sublist_filter.
  - by rewrite HTkeys.
  - intros p [Hnot Hp]%list_elem_of_filter.
    assert (Hset : ∀ id, id ∈ node_key (Heap s) <$> saved →
              id ∈ node_key (Heap s') <$> CurrentScene s').
    { intros id Hid.
      assert (id ∈ scene_ids s') as Hin.
      { rewrite Hsids. unfold collection_ids. by apply elem_of_list_to_set. }
      unfold scene_ids, collection_ids in Hin. by apply elem_of_list_to_set in Hin. }
    destruct (backed_up_elem_of _ _ _ _ _ _ Hback Hp) as (c & Hc & Hac).
    assert (Hcd : c ∈ dom (Heap s)) by (apply Halloc, elem_of_app; by left).
    assert (Hci : has_id (GetNode s c)) by (apply Hids, elem_of_app; by left).
    pose proof (backed_up_key _ _ _ _ _ Hcd Hci Hkeys Hac) as Hpk.
    assert (Hcs : node_key (Heap s) c ∉ node_key (Heap s) <$> saved).
    { intros Hin. apply Hnot. rewrite Hpk. by apply Hset. }
    destruct Hac as [[-> _]|((_ & u & Hu & Huc & _) & _)].
    + assert (c ∈ only_in (Heap s) (CurrentScene s) saved) as Honly
        by (by apply list_elem_of_filter).
      destruct (Hrem c Honly) as [Hflag Htag].
      destruct (Hadd c Honly) as [Hflag' Htag'].
      split; congruence.
    + exfalso. apply Hcs. rewrite <- Huc. apply list_elem_of_fmap. eauto.
Qed.

End RoundTrip.

(** ** Undo and redo *)

Lemma restorable_edited_scene : restorable edited_scene [4; 2].
Proof.
  split.
  - apply cache_stale_cache_ok. split; vm_compute; lia.
  - apply Forall_forall.
    replace (CurrentScene edited_scene) with [1; 3] by (vm_compute; reflexivity).
    repeat first [apply Forall_nil_2|apply Forall_cons_2];
      vm_compute; reflexivity.
  - apply Forall_forall.
    replace (CurrentScene edited_scene) with [1; 3] by (vm_compute; reflexivity).
    repeat first [apply Forall_nil_2|apply Forall_cons_2];
      (eexists; split; [vm_compute; reflexivity|discriminate]).
  - replace (node_key (Heap edited_scene) <$> CurrentScene edited_scene)
      with ["vtkMRMLModelNode1"; "vtkMRMLModelNode3"] by (vm_compute; reflexivity).
    apply (bool_decide_unpack _). vm_compute. exact I.
  - replace (node_key (Heap edited_scene) <$> [4; 2])
      with ["vtkMRMLModelNode1"; "vtkMRMLModelNode2"] by (vm_compute; reflexivity).
    apply (bool_decide_unpack _). vm_compute. exact I.
  - apply Forall_forall.
    replace (only_in (Heap edited_scene) [4; 2] (CurrentScene edited_scene))
      with [2] by (vm_compute; reflexivity).
    repeat first [apply Forall_nil_2|apply Forall_cons_2].
    vm_compute. split; reflexivity.
Qed.

(** X24: [Undo] on the scenes that are well formed for the restore
    ([restorable]: coherent or stale ID cache, allocated nodes with
    non-empty IDs that are distinct within the scene and within the saved
    collection, and saved nodes to add back that have their [AddToScene]
    flag set and no singleton tag).  When the undo stack has the collection
    [saved] on top, [Undo] leaves in the scene the current nodes whose ID is saved, in
    their order, followed by the saved nodes whose ID was not current; the
    IDs of the scene are then those of the saved collection, and every node
    has kept its own.  A saved node whose ID was not current is in the
    scene, a current node whose ID is not saved is not, and a current node
    whose ID is saved on another object is still in the scene and holds the
    copy of that object (followed by the reference updates that
    [RemoveNode] asks of the nodes it leaves).  The top of the undo stack
    is popped. *)
Theorem Undo_restores_saved_state `{ops : MRMLNodeOps} `{laws : !MRMLNodeLaws}
    (s : vtkMRMLScene) (saved : list ptr) (rest : list (list ptr)) :
  UndoStack s = saved :: rest → restorable s saved →
  (∃ addNodes,
     addNodes ≡ₚ only_in (Heap s) saved (CurrentScene s) ∧
     CurrentScene (Undo s)
     = filter (λ c, node_key (Heap s) c ∈ node_key (Heap s) <$> saved)
         (CurrentScene s) ++ addNodes) ∧
  scene_ids (Undo s) = collection_ids (Heap s) saved ∧
  (∀ p, p ∈ CurrentScene s ++ saved → ID (GetNode (Undo s) p) = ID (GetNode s p)) ∧
  (∀ u, u ∈ saved → node_key (Heap s) u ∉ node_key (Heap s) <$> CurrentScene s →
     u ∈ CurrentScene (Undo s)) ∧
  (∀ c, c ∈ CurrentScene s → node_key (Heap s) c ∉ node_key (Heap s) <$> saved →
     c ∉ CurrentScene (Undo s)) ∧
  (∀ c u, c ∈ CurrentScene s → u ∈ saved →
     node_key (Heap s) c = node_key (Heap s) u → c ≠ u →
     c ∈ CurrentScene (Undo s) ∧
     ∃ k, GetNode (Undo s) c
          = Nat.iter k UpdateReferences
              (CopyWithSceneWithSingleModifiedEvent (GetNode s c) (GetNode s u))) ∧
  UndoStack (Undo s) = rest.
Proof.
  intros HU Hr.
  destruct (Undo_spec s saved rest HU Hr) as (Hres & Hpop & _).
  destruct Hres as [(addNodes & Hperm & Hscene) Hsids _ _ Hkeys Hcopy _].
  destruct Hr as [_ Halloc Hids _ _ _].
  split_and!.
  - by exists addNodes.
  - done.
  - intros p Hp. pose proof (Hids p Hp) as Hid.
    pose proof (Hkeys p (Halloc p Hp)) as Hkey.
    assert (has_id (GetNode (Undo s) p)) as Hid'.
    { apply has_id_key. rewrite Hkey. by apply has_id_key. }
    apply has_id_ID in Hid, Hid'. unfold GetNode. by rewrite Hid, Hid', Hkey.
  - intros u Hu Hnot. rewrite Hscene. apply elem_of_app. right.
    rewrite Hperm. by apply list_elem_of_filter.
  - intros c Hc Hnot. rewrite Hscene. intros [Hin|Hin]%elem_of_app.
    + by apply list_elem_of_filter in Hin as [? _].
    + rewrite Hperm in Hin. apply list_elem_of_filter in Hin as [_ Hin].
      apply Hnot, list_elem_of_fmap. eauto.
  - intros c u Hc Hu Hkey Hne. split; [|by apply Hcopy].
    rewrite Hscene. apply elem_of_app. left. apply list_elem_of_filter.
    split; [|done]. rewrite Hkey. apply list_elem_of_fmap. eauto.
  - done.
Qed.

Lemma Undo_restores_saved_state_witness :
  UndoStack edited_scene = [[4; 2]] ∧ restorable edited_scene [4; 2] ∧
  scene_ids (@Undo base_ops edited_scene) = collection_ids (Heap edited_scene) [4; 2] ∧
  2 ∈ CurrentScene (@Undo base_ops edited_scene) ∧
  (3 ∉ CurrentScene (@Undo base_ops edited_scene)) ∧
  UndoStack (@Undo base_ops edited_scene) = [].
Proof.
  assert (UndoStack edited_scene = [[4; 2]]) as HU by (vm_compute; reflexivity).
  destruct (@Undo_restores_saved_state base_ops base_laws edited_scene [4; 2] []
              HU restorable_edited_scene)
    as (_ & Hids & _ & Hadd & Hremove & _ & Hpop).
  split; [exact HU|]. split; [exact restorable_edited_scene|].
  split; [exact Hids|]. split; [|split; [|exact Hpop]].
  - apply Hadd; [apply (bool_decide_unpack _); vm_compute; exact I|].
    replace (node_key (Heap edited_scene) <$> CurrentScene edited_scene)
      with ["vtkMRMLModelNode1"; "vtkMRMLModelNode3"] by (vm_compute; reflexivity).
    replace (node_key (Heap edited_scene) 2) with "vtkMRMLModelNode2"
      by (vm_compute; reflexivity).
    apply (bool_decide_unpack _). vm_compute. exact I.
  - apply Hremove.
    + replace (CurrentScene edited_scene) with [1; 3] by (vm_compute; reflexivity).
      apply (bool_decide_unpack _). vm_compute. exact I.
    + replace (node_key (Heap edited_scene) <$> [4; 2])
        with ["vtkMRMLModelNode1"; "vtkMRMLModelNode2"] by (vm_compute; reflexivity).
      replace (node_key (Heap edited_scene) 3) with "vtkMRMLModelNode3"
        by (vm_compute; reflexivity).
      apply (bool_decide_unpack _). vm_compute. exact I.
Defined.

(** C1 at a scene in which a singleton was replaced after the state was
    saved: the view node 1 is added and [SaveStateForUndo] called, node 1
    is removed and the view node 5 with the same singleton tag is added.
    The scene holds node 5 under the ID [vtkMRMLViewNode2], and the
    collection on top of the undo stack holds node 1 under the ID
    [vtkMRMLViewNode1]: an ID that appears only in the saved collection.
    [Undo] files node 1 among the nodes to add back and node 5 among the
    nodes to remove.  It hands node 1 to [AddNode], which merges it into
    node 5 and does not store it, and then removes node 5: the scene is
    left empty, where the state on top of the undo stack held node 1. *)
Lemma Undo_drops_saved_singleton :
  UndoStack replaced_singleton_scene = [[1]] ∧
  CurrentScene replaced_singleton_scene = [5] ∧
  ID (GetNode replaced_singleton_scene 1) = Some "vtkMRMLViewNode1" ∧
  ID (GetNode replaced_singleton_scene 5) = Some "vtkMRMLViewNode2" ∧
  CurrentScene (@Undo base_ops replaced_singleton_scene) = [] ∧
  UndoStack (@Undo base_ops replaced_singleton_scene) = [].
Proof. repeat split; vm_compute; reflexivity. Qed.

(** X25: [Undo] followed by [Redo], on the scenes that are well formed
    for the restore and whose nodes that [Undo] removes (those whose ID is
    not saved) have their [AddToScene] flag set and no singleton tag.
    [Undo] pushes on the redo
    stack a collection that stands for the scene as it was, entry by entry:
    the node itself, or a backup of it on a new object when [Undo]
    overwrites the node; its IDs are those of the scene before [Undo].
    [Redo] then brings the set of node IDs of the scene back to what it was
    before [Undo], pops the redo stack, and pushes on the undo stack, in
    place of the entry that [Undo] popped, a collection that stands in the
    same way for the scene as [Undo] left it. *)
Theorem Undo_Redo_restores_ids `{ops : MRMLNodeOps} `{laws : !MRMLNodeLaws}
    (s : vtkMRMLScene) (saved : list ptr) (rest : list (list ptr)) :
  UndoStack s = saved :: rest → restorable s saved →
  (∀ p, p ∈ only_in (Heap s) (CurrentScene s) saved → addable (GetNode s p)) →
  ∃ T T',
    RedoStack (Undo s) = T :: RedoStack s ∧
    backed_up s saved (Undo s) T (CurrentScene s) ∧
    collection_ids (Heap (Undo s)) T = scene_ids s ∧
    scene_ids (Redo (Undo s)) = scene_ids s ∧
    RedoStack (Redo (Undo s)) = RedoStack s ∧
    UndoStack (Redo (Undo s)) = T' :: rest ∧
    backed_up (Undo s) T (Redo (Undo s)) T' (CurrentScene (Undo s)) ∧
    collection_ids (Heap (Redo (Undo s))) T' = scene_ids (Undo s).
Proof.
  intros HU Hr Hadd.
  destruct (Undo_spec s saved rest HU Hr) as (Hres & Hpop & T & HT & Hback).
  destruct (restored_restorable s (Undo s) saved T Hr Hadd Hres Hback)
    as [Hr' HTkeys].
  destruct (Redo_spec (Undo s) T (RedoStack s) HT Hr')
    as (Hres' & Hpop' & T' & HT' & Hback').
  assert (collection_ids (Heap (Undo s)) T = scene_ids s) as HTids.
  { unfold scene_ids, collection_ids. by rewrite HTkeys. }
  exists T, T'.
  split_and!; [exact HT|exact Hback|exact HTids| |exact Hpop'| |exact Hback'|].
  - rewrite (restored_ids _ _ _ Hres'). exact HTids.
  - rewrite HT'. f_equal. exact Hpop.
  - unfold scene_ids, collection_ids. f_equal.
    eapply backed_up_keys; [|apply (restored_keys _ _ _ Hres')|exact Hback'].
    destruct Hr' as [_ Halloc Hids _ _ _].
    intros c Hc. split; [apply Halloc|apply Hids]; apply elem_of_app; by left.
Qed.

Lemma Undo_Redo_restores_ids_witness :
  UndoStack edited_scene = [[4; 2]] ∧ restorable edited_scene [4; 2] ∧
  addable (GetNode edited_scene 3) ∧
  scene_ids (@Redo base_ops (@Undo base_ops edited_scene)) = scene_ids edited_scene ∧
  RedoStack (@Redo base_ops (@Undo base_ops edited_scene)) = [].
Proof.
  assert (UndoStack edited_scene = [[4; 2]]) as HU by (vm_compute; reflexivity).
  assert (addable (GetNode edited_scene 3)) as Hadd
    by (vm_compute; split; reflexivity).
  destruct (@Undo_Redo_restores_ids base_ops base_laws edited_scene [4; 2] []
              HU restorable_edited_scene)
    as (T & T' & _ & _ & _ & Hids & Hredo & _).
  { apply Forall_forall.
    replace (only_in (Heap edited_scene) (CurrentScene edited_scene) [4; 2])
      with [3] by (vm_compute; reflexivity).
    apply Forall_cons_2; [exact Hadd|apply Forall_nil_2]. }
  split; [exact HU|]. split; [exact restorable_edited_scene|].
  split; [exact Hadd|]. split; [exact Hids|].
  rewrite Hredo. vm_compute. reflexivity.
Defined.

(** C2 at the scene in which a singleton was replaced after the state was
    saved.  [Undo] does its work: it pushes the collection with node 5 on
    the redo stack, and its [AddNode] then merges the saved node 1 into
    node 5, the object the redo entry holds, which takes over the ID of
    node 1.  The state moved on the redo stack has thereby lost the ID
    [vtkMRMLViewNode2] that was current before [Undo]: [Redo] adds node 5
    back under [vtkMRMLViewNode1], and the set of node IDs of the scene
    is not the one from before [Undo]. *)
Lemma Undo_Redo_changes_ids :
  UndoStack replaced_singleton_scene = [[1]] ∧
  RedoStack (@Undo base_ops replaced_singleton_scene) = [[5]] ∧
  node_key (Heap replaced_singleton_scene) <$> CurrentScene replaced_singleton_scene
  = ["vtkMRMLViewNode2"] ∧
  node_key (Heap (@Redo base_ops (@Undo base_ops replaced_singleton_scene)))
    <$> CurrentScene (@Redo base_ops (@Undo base_ops replaced_singleton_scene))
  = ["vtkMRMLViewNode1"] ∧
  scene_ids (@Redo base_ops (@Undo base_ops replaced_singleton_scene))
  ≠ scene_ids replaced_singleton_scene.
Proof.
  split; [vm_compute; reflexivity|]. split; [vm_compute; reflexivity|].
  split; [vm_compute; reflexivity|]. split; [vm_compute; reflexivity|].
  apply (bool_decide_eq_false_1 _). vm_compute. reflexivity.
Qed.

(** ** Queries on the collection *)

Section QueryTheorems.
Context `{ops : MRMLNodeOps}.

Lemma push_instances_filter (s : vtkMRMLScene) (className : string)
    (items nodes : list ptr) :
  foldl (λ acc p, if IsA (GetNode s p) className then acc ++ [p] else acc)
        nodes items
  = nodes ++ filter (λ p, IsA (GetNode s p) className = true) items.
Proof.
  revert nodes. induction items as [|p items IH]; intros nodes.
  - by rewrite app_nil_r.
  - cbn [foldl]. rewrite IH.
    destruct (IsA (GetNode s p) className) eqn:Hisa.
    + rewrite filter_cons_True by done. by rewrite <- app_assoc.
    + by rewrite filter_cons_False by (cbv beta; congruence).
Qed.

(** X1: the three ways to enumerate the instances of a class agree.
    [GetNodesByClass] pushes on the vector it is given the nodes [found]
    that [GetNthNodeByClass] returns for the indices 0, 1, ... in this
    order; there are [GetNumberOfNodesByClass] of them, and they are the
    nodes of the scene that are instances of the class.  The number
    [GetNodesByClass] returns is the size of the whole vector, what it held
    before included. *)
Theorem GetNodesByClass_enumerates (className : string) (nodes : list ptr)
    (s : vtkMRMLScene) :
  ∃ found,
    GetNodesByClass className nodes s
    = (Z.of_nat (length nodes + length found), nodes ++ found) ∧
    length found = GetNumberOfNodesByClass s className ∧
    (∀ n, GetNthNodeByClass s n className = found !! n) ∧
    (∀ p, p ∈ found ↔
          p ∈ CurrentScene s ∧ IsA (GetNode s p) className = true).
Proof.
  exists (filter (λ p, IsA (GetNode s p) className = true) (CurrentScene s)).
  split_and!.
  - unfold GetNodesByClass. rewrite push_instances_filter.
    by rewrite length_app.
  - done.
  - intros n. apply nth_by_class_filter.
  - intros p. rewrite list_elem_of_filter. naive_solver.
Qed.

Lemma nodes_by_name_Some (heap : gmap ptr vtkMRMLNode) (name : string)
    (isa : vtkMRMLNode → bool) (items nodes : list ptr) :
  (∀ p, p ∈ items → Name (heap !!! p) ≠ None) →
  nodes_by_name heap name isa items nodes
  = Some (nodes ++ filter (λ p, Name (heap !!! p) = Some name
                                ∧ isa (heap !!! p) = true) items).
Proof.
  revert nodes. induction items as [|p items IH]; intros nodes Hnames.
  - by rewrite app_nil_r.
  - cbn [nodes_by_name].
    destruct (Name (heap !!! p)) as [nm|] eqn:Hnm.
    2:{ exfalso. apply (Hnames p); [left|done]. }
    rewrite IH by (intros q Hq; apply Hnames; by right).
    f_equal. case_bool_decide as Heq; cbn [andb].
    + subst nm. destruct (isa (heap !!! p)) eqn:Hisa.
      * rewrite filter_cons_True by (by rewrite Hnm).
        by rewrite <- app_assoc.
      * rewrite filter_cons_False; [done|].
        rewrite Hisa. by intros [_ ?].
    + rewrite filter_cons_False; [done|].
      rewrite Hnm. intros [[= ?] _]. done.
Qed.

Lemma nodes_by_name_None (heap : gmap ptr vtkMRMLNode) (name : string)
    (isa : vtkMRMLNode → bool) (items nodes : list ptr) (p : ptr) :
  p ∈ items → Name (heap !!! p) = None →
  nodes_by_name heap name isa items nodes = None.
Proof.
  revert nodes. induction items as [|q items IH]; intros nodes Hp Hname.
  - by apply elem_of_nil in Hp.
  - cbn [nodes_by_name]. destruct (Name (heap !!! q)) as [nm|] eqn:Hnm; [|done].
    apply elem_of_cons in Hp as [->|Hp]; [congruence|]. by apply IH.
Qed.

(** X2: the lookups by name.  When every node of the scene has a name,
    [GetNodesByName] returns the nodes with the name, in collection order,
    and [GetNodesByClassByName] those of them that are instances of the
    class.  When a node of the scene has a NULL name, the comparison of
    names has no defined result and neither method has one. *)
Theorem GetNodesByName_selects (className name : string) (s : vtkMRMLScene) :
  ((∀ p, p ∈ CurrentScene s → Name (GetNode s p) ≠ None) →
   ∃ named,
     GetNodesByName name s = Some named ∧
     named = filter (λ p, Name (GetNode s p) = Some name) (CurrentScene s) ∧
     GetNodesByClassByName className name s
     = Some (filter (λ p, IsA (GetNode s p) className = true) named)) ∧
  ((∃ p, p ∈ CurrentScene s ∧ Name (GetNode s p) = None) →
   GetNodesByName name s = None ∧
   GetNodesByClassByName className name s = None).
Proof.
  split.
  - intros Hnames. eexists. split_and!; [|done|].
    + unfold GetNodesByName. rewrite nodes_by_name_Some by done.
      cbn [app]. f_equal. apply list_filter_iff. intros p. unfold GetNode.
      naive_solver.
    + unfold GetNodesByClassByName. rewrite nodes_by_name_Some by done.
      cbn [app]. f_equal. rewrite list_filter_filter.
      apply list_filter_iff. intros p. unfold GetNode. naive_solver.
  - intros (p & Hp & Hname).
    split; eapply nodes_by_name_None; done.
Qed.

(** *** The classes of the scene *)

Lemma unique_from_spec (x : string) (l : list string) :
  StronglySorted String.le (x :: l) →
  (∀ y, y ∈ unique_from x l ↔ y = x ∨ y ∈ l) ∧
  NoDup (unique_from x l) ∧
  StronglySorted String.le (unique_from x l).
Proof.
  revert x. induction l as [|y rest IH]; intros x Hsorted.
  - cbn [unique_from]. split_and!.
    + intros y. rewrite list_elem_of_singleton. set_solver.
    + apply NoDup_singleton.
    + done.
  - apply StronglySorted_cons in Hsorted as [Hall Hrest].
    cbn [unique_from]. destruct (decide (y = x)) as [->|Hne].
    + destruct (IH x) as (Hin & Hnodup & Hs).
      { apply StronglySorted_cons. split; [|by apply StronglySorted_cons in Hrest as [_ ?]].
        by apply Forall_cons in Hall as [_ ?]. }
      split_and!; [|done|done].
      intros z. rewrite Hin, elem_of_cons. naive_solver.
    + destruct (IH y Hrest) as (Hin & Hnodup & Hs).
      split_and!.
      * intros z. rewrite !elem_of_cons, Hin. naive_solver.
      * apply NoDup_cons. split; [|done].
        intros Hx. apply Hin in Hx.
        apply Forall_cons in Hall as [Hxy Hall].
        apply StronglySorted_cons in Hrest as [Hyrest _].
        assert (String.le y x) as Hyx.
        { destruct Hx as [->|Hx]; [done|].
          by apply (proj1 (Forall_forall _ _) Hyrest). }
        apply Hne. by apply (anti_symm String.le).
      * apply StronglySorted_cons. split; [|done].
        apply Forall_forall. intros z Hz. apply Hin in Hz.
        apply (proj1 (Forall_forall _ _) Hall). apply elem_of_cons.
        naive_solver.
Qed.

Lemma unique_spec (l : list string) :
  StronglySorted String.le l →
  (∀ y, y ∈ unique l ↔ y ∈ l) ∧ NoDup (unique l) ∧
  StronglySorted String.le (unique l).
Proof.
  destruct l as [|x l]; intros Hsorted.
  - split_and!; [done|apply NoDup_nil_2|done].
  - destruct (unique_from_spec x l Hsorted) as (Hin & ? & ?).
    split_and!; [|done|done]. intros y. cbn [unique].
    by rewrite Hin, elem_of_cons.
Qed.

(** X3: [GetNodeClassesList] returns the class names of the nodes of the
    scene, each once, in ascending order of [std::string]; and of every
    class it lists the scene has at least one instance, so that the counts
    [PrintSelf] prints are never zero, provided [IsA] recognises the own
    class of a node. *)
Theorem GetNodeClassesList_sorted_classes (s : vtkMRMLScene) :
  (∀ n, IsA n (ClassName n) = true) →
  NoDup (GetNodeClassesList s) ∧
  StronglySorted String.le (GetNodeClassesList s) ∧
  (∀ c, c ∈ GetNodeClassesList s ↔
        ∃ p, p ∈ CurrentScene s ∧ ClassName (GetNode s p) = c) ∧
  (∀ c, c ∈ GetNodeClassesList s → 0 < GetNumberOfNodesByClass s c).
Proof.
  intros Hisa. unfold GetNodeClassesList.
  set (names := (λ p, ClassName (GetNode s p)) <$> CurrentScene s).
  destruct (unique_spec (merge_sort String.le names)) as (Hin & Hnodup & Hs).
  { apply StronglySorted_merge_sort; apply _. }
  assert (Hclasses : ∀ c, c ∈ unique (merge_sort String.le names) ↔
            ∃ p, p ∈ CurrentScene s ∧ ClassName (GetNode s p) = c).
  { intros c. rewrite Hin, merge_sort_Permutation. unfold names.
    rewrite list_elem_of_fmap. naive_solver. }
  split_and!; [done|done|done|].
  intros c (p & Hp & <-)%Hclasses. unfold GetNumberOfNodesByClass.
  assert (p ∈ filter (λ q, IsA (GetNode s q) (ClassName (GetNode s p)) = true)
                     (CurrentScene s)) as Hpin
    by (apply list_elem_of_filter; split; [apply Hisa|done]).
  destruct (filter _ (CurrentScene s)); [by apply elem_of_nil in Hpin|].
  cbn [length]. lia.
Qed.

End QueryTheorems.

(** ** The registered node classes *)

Section RegistryTheorems.
Context `{ops : MRMLNodeOps}.

(** [RegisterNodeClass] keeps the two vectors in step: the tag at an index
    is the tag of the node at this index. *)
Lemma registered_tags (r : NodeRegistry) :
  registered r →
  RegisteredNodeTags r = GetNodeTagName <$> RegisteredNodeClasses r.
Proof.
  induction 1 as [|node r _ IH]; [done|].
  cbn [RegisterNodeClass RegisteredNodeTags RegisteredNodeClasses].
  by rewrite fmap_app, IH.
Qed.

Lemma GetClassNameByTag_Some (tagName c : string) (r : NodeRegistry) :
  registered r →
  GetClassNameByTag tagName r = Some c ↔
  ∃ i n, RegisteredNodeClasses r !! i = Some n ∧ ClassName n = c ∧
         GetNodeTagName n = tagName ∧
         ∀ j m, RegisteredNodeClasses r !! j = Some m → j < i →
                GetNodeTagName m ≠ tagName.
Proof.
  intros Hr. unfold GetClassNameByTag. rewrite (registered_tags r Hr).
  destruct (list_find _ _) as [[i t]|] eqn:Hfind.
  - apply list_find_Some in Hfind as (Hi & -> & Hleast).
    rewrite list_lookup_fmap in Hi.
    destruct (RegisteredNodeClasses r !! i) as [n|] eqn:Hn; [|done].
    injection Hi as Hi. cbn [fmap option_fmap option_map]. split.
    + intros [= <-]. exists i, n. split_and!; [done..|].
      intros j m Hm Hlt. apply (Hleast j); [|done].
      by rewrite list_lookup_fmap, Hm.
    + intros (i' & n' & Hn' & <- & Htag & Hleast').
      destruct (Nat.lt_trichotomy i i') as [Hlt|[->|Hlt]].
      * by destruct (Hleast' i n Hn Hlt).
      * congruence.
      * destruct (Hleast i' (GetNodeTagName n')); [|done..].
        by rewrite list_lookup_fmap, Hn'.
  - apply list_find_None in Hfind. split; [done|].
    intros (i & n & Hn & _ & Htag & _). exfalso.
    apply (proj1 (Forall_forall _ _) Hfind (GetNodeTagName n)); [|done].
    apply list_elem_of_fmap. exists n. split; [done|].
    by eapply list_elem_of_lookup_2.
Qed.

Lemma GetTagByClassName_Some (className t : string) (r : NodeRegistry) :
  GetTagByClassName className r = Some t ↔
  ∃ i n, RegisteredNodeClasses r !! i = Some n ∧ ClassName n = className ∧
         GetNodeTagName n = t ∧
         ∀ j m, RegisteredNodeClasses r !! j = Some m → j < i →
                ClassName m ≠ className.
Proof.
  unfold GetTagByClassName.
  destruct (list_find _ _) as [[i n]|] eqn:Hfind.
  - apply list_find_Some in Hfind as (Hn & Hc & Hleast). split.
    + intros [= <-]. by exists i, n.
    + intros (i' & n' & Hn' & Hc' & <- & Hleast').
      destruct (Nat.lt_trichotomy i i') as [Hlt|[->|Hlt]].
      * by destruct (Hleast' i n Hn Hlt).
      * congruence.
      * by destruct (Hleast i' n' Hn' Hlt).
  - apply list_find_None in Hfind. split; [done|].
    intros (i & n & Hn & Hc & _). exfalso.
    apply (proj1 (Forall_forall _ _) Hfind n); [|done].
    by eapply list_elem_of_lookup_2.
Qed.

(** X4: tags and class names of a registry built by [RegisterNodeClass],
    when the tag of a node is a matter of its class.  A class that
    [GetClassNameByTag] returns for a tag has this tag by
    [GetTagByClassName]; the tag that [GetTagByClassName] returns for a
    class leads [GetClassNameByTag] to a class with this tag (the first
    registered one, which need not be the class asked about); and either
    lookup returns NULL exactly when no registered node has the class, or
    the tag. *)
Theorem registry_tag_class_round_trip (r : NodeRegistry) :
  registered r →
  (∀ n m, ClassName n = ClassName m → GetNodeTagName n = GetNodeTagName m) →
  (∀ t c, GetClassNameByTag t r = Some c → GetTagByClassName c r = Some t) ∧
  (∀ c t, GetTagByClassName c r = Some t →
          ∃ c', GetClassNameByTag t r = Some c' ∧
                GetTagByClassName c' r = Some t) ∧
  (∀ c, GetTagByClassName c r = None ↔
        ∀ n, n ∈ RegisteredNodeClasses r → ClassName n ≠ c) ∧
  (∀ t, GetClassNameByTag t r = None ↔
        ∀ n, n ∈ RegisteredNodeClasses r → GetNodeTagName n ≠ t).
Proof.
  intros Hr Htag.
  assert (Hback : ∀ t c, GetClassNameByTag t r = Some c →
                         GetTagByClassName c r = Some t).
  { intros t c (i & n & Hn & Hc & Ht & _)%GetClassNameByTag_Some; [|done].
    destruct (GetTagByClassName c r) as [t'|] eqn:Hget.
    - apply GetTagByClassName_Some in Hget as (j & m & Hm & Hmc & <- & _).
      f_equal. rewrite <- Ht. apply Htag. congruence.
    - exfalso. unfold GetTagByClassName in Hget.
      destruct (list_find _ _) as [[j m]|] eqn:Hfind; [done|].
      apply list_find_None in Hfind.
      apply (proj1 (Forall_forall _ _) Hfind n); [|done].
      by eapply list_elem_of_lookup_2. }
  assert (Hnone : ∀ t, GetClassNameByTag t r = None ↔
            ∀ n, n ∈ RegisteredNodeClasses r → GetNodeTagName n ≠ t).
  { intros t. unfold GetClassNameByTag. rewrite (registered_tags r Hr).
    destruct (list_find _ _) as [[i t']|] eqn:Hfind.
    - apply list_find_Some in Hfind as (Hi & -> & _).
      rewrite list_lookup_fmap in Hi.
      destruct (RegisteredNodeClasses r !! i) as [n|] eqn:Hn; [|done].
      injection Hi as Hi. cbn. split; [done|]. intros Hall. exfalso.
      apply (Hall n); [by eapply list_elem_of_lookup_2|done].
    - apply list_find_None in Hfind. split; [|done]. intros _ n Hn Ht.
      apply (proj1 (Forall_forall _ _) Hfind (GetNodeTagName n)); [|done].
      apply list_elem_of_fmap. eauto. }
  split_and!; [done| | |done].
  - intros c t Hget.
    destruct (GetClassNameByTag t r) as [c'|] eqn:Hc'.
    + exists c'. split; [done|]. by apply Hback.
    + exfalso.
      apply GetTagByClassName_Some in Hget as (i & n & Hn & _ & Ht & _).
      apply (proj1 (Hnone t) Hc' n); [by eapply list_elem_of_lookup_2|done].
  - intros c. unfold GetTagByClassName.
    destruct (list_find _ _) as [[i n]|] eqn:Hfind.
    + apply list_find_Some in Hfind as (Hn & Hc & _). split; [done|].
      intros Hall. exfalso.
      apply (Hall n); [by eapply list_elem_of_lookup_2|done].
    + apply list_find_None in Hfind. split; [|done]. intros _ n Hn.
      by apply (proj1 (Forall_forall _ _) Hfind n).
Qed.

(** X5: the first registration wins.  Once a class has a tag, a tag has a
    class, or [CreateNodeByClass] makes its nodes from a registered node,
    registering further nodes changes none of these answers; and
    [CreateNodeByClass] turns to the object factory only for a class that
    no registered node has. *)
Theorem RegisterNodeClass_keeps_answers (factory : string → option vtkMRMLNode)
    (node : vtkMRMLNode) (r : NodeRegistry) :
  (∀ c t, GetTagByClassName c r = Some t →
          GetTagByClassName c (RegisterNodeClass node r) = Some t) ∧
  (∀ t c, GetClassNameByTag t r = Some c →
          GetClassNameByTag t (RegisterNodeClass node r) = Some c) ∧
  (∀ c, (∃ n, n ∈ RegisteredNodeClasses r ∧ ClassName n = c) →
        CreateNodeByClass factory c (RegisterNodeClass node r)
        = CreateNodeByClass factory c r ∧
        ∃ n, n ∈ RegisteredNodeClasses r ∧ ClassName n = c ∧
             CreateNodeByClass factory c r = Some (CreateNodeInstance n)) ∧
  (∀ c, (∀ n, n ∈ RegisteredNodeClasses r → ClassName n ≠ c) →
        CreateNodeByClass factory c r = factory c) ∧
  GetTagByClassName (ClassName node) (RegisterNodeClass node r)
  = Some (default (GetNodeTagName node) (GetTagByClassName (ClassName node) r)).
Proof.
  split_and!.
  - intros c t. unfold GetTagByClassName.
    cbn [RegisterNodeClass RegisteredNodeClasses].
    destruct (list_find _ (RegisteredNodeClasses r)) as [[i n]|] eqn:Hfind; [|done].
    by rewrite (list_find_app_l _ _ _ _ _ Hfind).
  - intros t c. unfold GetClassNameByTag.
    cbn [RegisterNodeClass RegisteredNodeClasses RegisteredNodeTags].
    destruct (list_find _ (RegisteredNodeTags r)) as [[i t']|] eqn:Hfind; [|done].
    rewrite (list_find_app_l _ _ _ _ _ Hfind).
    destruct (RegisteredNodeClasses r !! i) as [n|] eqn:Hn; [|done].
    by rewrite (lookup_app_l_Some _ _ _ _ Hn).
  - intros c (n & Hn & Hc). unfold CreateNodeByClass.
    cbn [RegisterNodeClass RegisteredNodeClasses].
    destruct (list_find (λ n, ClassName n = c) (RegisteredNodeClasses r))
      as [[i m]|] eqn:Hfind.
    + rewrite (list_find_app_l _ _ _ _ _ Hfind). split; [done|].
      apply list_find_Some in Hfind as (Hm & Hmc & _).
      exists m. split_and!; [by eapply list_elem_of_lookup_2|done|done].
    + apply list_find_None in Hfind. exfalso.
      by apply (proj1 (Forall_forall _ _) Hfind n).
  - intros c Hnone. unfold CreateNodeByClass.
    destruct (list_find _ _) as [[i m]|] eqn:Hfind; [|done].
    apply list_find_Some in Hfind as (Hm & Hmc & _). exfalso.
    apply (Hnone m); [by eapply list_elem_of_lookup_2|done].
  - unfold GetTagByClassName.
    cbn [RegisterNodeClass RegisteredNodeClasses].
    destruct (list_find (λ n, ClassName n = ClassName node)
                (RegisteredNodeClasses r)) as [[i m]|] eqn:Hfind.
    + by rewrite (list_find_app_l _ _ _ _ _ Hfind).
    + rewrite list_find_app_r by done. cbn.
      by rewrite decide_True.
Qed.

End RegistryTheorems.

(** ** Lookups after adding and removing *)

Section LookupTheorems.
Context `{ops : MRMLNodeOps} `{laws : !MRMLNodeLaws}.

Lemma cache_ok_clock (s : vtkMRMLScene) : cache_ok s → CurrentSceneMTime s ≤ Clock s.
Proof. by intros (_ & ? & _). Qed.

Lemma synced_projections (s : vtkMRMLScene) :
  Heap (synced s) = Heap s ∧ CurrentScene (synced s) = CurrentScene s ∧
  UndoStack (synced s) = UndoStack s ∧ RedoStack (synced s) = RedoStack s ∧
  UniqueIDByClass (synced s) = UniqueIDByClass s ∧
  Events (synced s) = Events s ∧
  ReferencedIDChanges (synced s) = ReferencedIDChanges s.
Proof. done. Qed.

Lemma NoDup_fmap_elem_inj {A B : Type} (f : A → B) (l : list A) (x y : A) :
  NoDup (f <$> l) → x ∈ l → y ∈ l → f x = f y → x = y.
Proof.
  induction l as [|a l IH]; intros Hnodup Hx Hy Hf.
  - by apply elem_of_nil in Hx.
  - rewrite fmap_cons in Hnodup. apply NoDup_cons in Hnodup as [Hnotin Hnodup].
    apply elem_of_cons in Hx as [->|Hx]; apply elem_of_cons in Hy as [->|Hy].
    + done.
    + exfalso. apply Hnotin. rewrite Hf. by apply list_elem_of_fmap_2.
    + exfalso. apply Hnotin. rewrite <- Hf. by apply list_elem_of_fmap_2.
    + by apply IH.
Qed.

(** X6: [GetNodeByID] on a scene whose cache of IDs is up to date or
    stale.  A node it returns is a node of the scene with the ID; it
    returns NULL exactly when no node of the scene has the ID; when the IDs
    of the scene are distinct it returns every node for its own ID.  The
    call rebuilds the cache and changes neither the nodes nor the
    collection, and it does not change the answer of a later lookup. *)
Theorem GetNodeByID_finds_scene_nodes (id : string) (s : vtkMRMLScene) :
  cache_ok s →
  (∀ p, (GetNodeByID (Some id) s).1 = Some p →
        p ∈ CurrentScene s ∧ node_key (Heap s) p = id) ∧
  ((GetNodeByID (Some id) s).1 = None ↔
   ∀ p, p ∈ CurrentScene s → node_key (Heap s) p ≠ id) ∧
  (NoDup (node_key (Heap s) <$> CurrentScene s) →
   ∀ p, p ∈ CurrentScene s →
        (GetNodeByID (Some (node_key (Heap s) p)) s).1 = Some p) ∧
  cache_ok (GetNodeByID (Some id) s).2 ∧
  Heap (GetNodeByID (Some id) s).2 = Heap s ∧
  CurrentScene (GetNodeByID (Some id) s).2 = CurrentScene s ∧
  (∀ id', (GetNodeByID (Some id') (GetNodeByID (Some id) s).2).1
          = (GetNodeByID (Some id') s).1).
Proof.
  intros Hok. rewrite GetNodeByID_synced by done. cbn [fst snd].
  pose proof (synced_cache_ok s (cache_ok_clock s Hok)) as Hok'.
  destruct (synced_projections s) as (Hh & Hc & _).
  split_and!.
  - intros p. apply id_map_lookup_Some.
  - apply id_map_lookup_None.
  - intros Hnodup p Hp. rewrite GetNodeByID_synced by done. cbn [fst].
    by apply id_map_lookup_NoDup.
  - done.
  - done.
  - done.
  - intros id'. rewrite !GetNodeByID_synced by done. cbn [fst].
    by rewrite Hh, Hc.
Qed.

(** The scene after [AddNode] has stored a node, in closed form. *)
Lemma AddNode_stored (p : ptr) (s : vtkMRMLScene) :
  cache_ok s →
  AddToScene (GetNode s p) = true →
  find_singleton s (GetNode s p) = None →
  ∃ id table changes,
    id ≠ "" ∧
    AddNode p s
    = (Some p,
       Modified (InvokeEvent NodeAddedEvent (Some p)
         (added_scene p (Some id) table changes s))).
Proof.
  intros Hok Hadd Hsingle.
  destruct (AddNodeNoNotify_added p s Hok Hadd Hsingle) as [Hkeep Hnew].
  rewrite (AddNode_added _ _ Hadd).
  destruct (needs_new_id_decide s (ID (GetNode s p))) as [Hneeds|Hfree].
  - destruct (Hnew Hneeds) as (r & _ & ->). cbn [fst snd].
    eexists _, _, _. split; [|done]. apply candidateName_nonempty.
  - rewrite (Hkeep Hfree). cbn [fst snd].
    destruct (ID (GetNode s p)) as [id|] eqn:Hid.
    + exists id. eexists _, _. split; [|done].
      intros ->. apply Hfree. right. by left.
    + exfalso. apply Hfree. by left.
Qed.

(** X7: what the lookups return once [AddNode] has stored a node (its flag
    is set and it matches no singleton of the scene).  The node has a
    non-empty ID under which [GetNodeByID] finds it; [GetNthNode] returns
    it for the former number of nodes and nothing beyond; and the number of
    instances goes up by one for the classes the node is an instance of and
    stays for the others. *)
Theorem AddNode_then_lookup (p : ptr) (s : vtkMRMLScene) :
  cache_ok s →
  AddToScene (GetNode s p) = true →
  find_singleton s (GetNode s p) = None →
  ∃ id,
    id ≠ "" ∧
    ID (GetNode (AddNode p s).2 p) = Some id ∧
    (GetNodeByID (Some id) (AddNode p s).2).1 = Some p ∧
    GetNthNode (Z.of_nat (length (CurrentScene s))) (AddNode p s).2 = Some p ∧
    GetNthNode (Z.of_nat (length (CurrentScene s)) + 1) (AddNode p s).2 = None ∧
    (∀ className,
       GetNumberOfNodesByClass (AddNode p s).2 className
       = GetNumberOfNodesByClass s className
         + (if IsA (GetNode s p) className then 1 else 0)).
Proof.
  intros Hok Hadd Hsingle.
  destruct (AddNode_stored p s Hok Hadd Hsingle)
    as (id & table & changes & Hne & ->).
  cbn [snd]. exists id.
  set (s' := Modified (InvokeEvent NodeAddedEvent (Some p)
                         (added_scene p (Some id) table changes s))).
  assert (Hscene : CurrentScene s' = CurrentScene s ++ [p])
    by apply CurrentScene_notified_added.
  assert (Hnode : ∀ q, GetNode s' q
            = if decide (p = q) then added_node (RootDirectory s) (Some id) (GetNode s p)
              else GetNode s q).
  { intros q. unfold s'. by rewrite GetNode_notified, GetNode_added_scene. }
  assert (Hid : ID (GetNode s' p) = Some id).
  { rewrite Hnode, decide_True by done. apply added_node_fields. }
  assert (Hok' : cache_ok s')
    by (by apply cache_stale_cache_ok, added_scene_cache_stale).
  clearbody s'. split_and!.
  - done.
  - done.
  - rewrite GetNodeByID_synced by done. cbn [fst].
    rewrite Hscene, id_map_snoc.
    assert (node_key (Heap s') p = id) as ->
      by (unfold node_key; fold (GetNode s' p); by rewrite Hid).
    apply lookup_insert_eq.
  - unfold GetNthNode. rewrite Hscene, length_app. cbn [length].
    rewrite decide_False by lia. rewrite Nat2Z.id.
    by rewrite lookup_app_r, Nat.sub_diag by lia.
  - unfold GetNthNode. rewrite Hscene, length_app. cbn [length].
    rewrite decide_True by lia. done.
  - intros className. unfold GetNumberOfNodesByClass.
    rewrite Hscene, filter_app, length_app.
    assert (Hisa : ∀ q, IsA (GetNode s' q) className = IsA (GetNode s q) className).
    { intros q. rewrite Hnode. case_decide as Hq; [subst q|done].
      apply IsA_class. apply added_node_fields. }
    f_equal.
    + f_equal. apply list_filter_iff. intros q. by rewrite Hisa.
    + rewrite <- (Hisa p).
      destruct (IsA (GetNode s' p) className) eqn:Hp.
      * by rewrite filter_cons_True.
      * by rewrite filter_cons_False by (cbv beta; congruence).
Qed.

(** X8: lookups after [RemoveNode] of a node of a scene with distinct
    IDs.  The node is gone from the collection, the other nodes stay in
    their order, [GetNodeByID] returns NULL for the ID of the removed node
    and still finds every other node under its ID. *)
Theorem RemoveNode_then_lookup (p : ptr) (s : vtkMRMLScene) :
  cache_ok s →
  NoDup (node_key (Heap s) <$> CurrentScene s) →
  p ∈ CurrentScene s →
  CurrentScene (RemoveNode (Some p) s) = filter (λ q, q ≠ p) (CurrentScene s) ∧
  (GetNodeByID (Some (node_key (Heap s) p)) (RemoveNode (Some p) s)).1 = None ∧
  (∀ q, q ∈ CurrentScene s → q ≠ p →
        (GetNodeByID (Some (node_key (Heap s) q)) (RemoveNode (Some p) s)).1
        = Some q).
Proof.
  intros Hok Hnodup Hp.
  destruct (RemoveNode_spec p s) as (Hscene & Hnodes & _).
  pose proof (RemoveNode_cache_ok p s Hok) as Hok'.
  rewrite (remove_first_NoDup p _ (NoDup_fmap_1 _ _ Hnodup)) in Hscene.
  assert (Hkeys : ∀ q, node_key (Heap (RemoveNode (Some p) s)) q
                       = node_key (Heap s) q).
  { intros q. unfold node_key.
    fold (GetNode (RemoveNode (Some p) s) q) (GetNode s q).
    rewrite Hnodes. f_equal. apply iter_UpdateReferences_fields. }
  generalize dependent (RemoveNode (Some p) s). intros s' Hscene _ Hok' Hkeys.
  assert (Hmap : id_map (Heap s') (CurrentScene s')
                 = id_map (Heap s) (filter (λ q, q ≠ p) (CurrentScene s))).
  { rewrite Hscene. apply id_map_ext. intros q _. apply Hkeys. }
  split_and!.
  - done.
  - rewrite GetNodeByID_synced by done. cbn [fst]. rewrite Hmap.
    apply id_map_None_iff.
    intros (q & Hkey & [Hq Hin]%list_elem_of_filter)%list_elem_of_fmap.
    apply Hq. symmetry.
    by apply (NoDup_fmap_elem_inj (node_key (Heap s)) (CurrentScene s)).
  - intros q Hq Hne. rewrite GetNodeByID_synced by done. cbn [fst].
    rewrite Hmap. apply id_map_lookup_NoDup.
    + eapply sublist_NoDup; [exact Hnodup|].
      apply fmap_sublist, sublist_filter.
    + by apply list_elem_of_filter.
Qed.

End LookupTheorems.

(** ** Unique indices and requested IDs *)

Section UniqueIndexTheorems.
Context `{ops : MRMLNodeOps}.

Lemma GetUniqueIDIndexByClass_spec (className : string) (s : vtkMRMLScene) :
  cache_ok s →
  ∃ r,
    first_free_index (id_map (Heap s) (CurrentScene s)) className
      (default 1%Z (UniqueIDByClass s !! className)) r ∧
    GetUniqueIDIndexByClass className s
    = (r, set_UniqueIDByClass (<[className := (r + 1)%Z]> (UniqueIDByClass s))
            (synced s)).
Proof.
  intros Hok. unfold GetUniqueIDIndexByClass.
  destruct (GetUniqueIDIndexByClassFromIndex_spec className
              (default 1%Z (UniqueIDByClass s !! className)) s Hok)
    as (r & -> & Hfree).
  by exists r.
Qed.

Lemma set_UniqueIDByClass_synced_projections (table : gmap string Z)
    (s : vtkMRMLScene) :
  Heap (set_UniqueIDByClass table (synced s)) = Heap s ∧
  CurrentScene (set_UniqueIDByClass table (synced s)) = CurrentScene s ∧
  UniqueIDByClass (set_UniqueIDByClass table (synced s)) = table ∧
  UndoStack (set_UniqueIDByClass table (synced s)) = UndoStack s ∧
  RedoStack (set_UniqueIDByClass table (synced s)) = RedoStack s.
Proof. done. Qed.

Lemma set_UniqueIDByClass_synced_cache_ok (table : gmap string Z)
    (s : vtkMRMLScene) :
  cache_ok s → cache_ok (set_UniqueIDByClass table (synced s)).
Proof.
  intros Hok. pose proof (synced_cache_ok s (cache_ok_clock s Hok)) as Hok'.
  exact Hok'.
Qed.

Lemma unique_index_loop_le (fuel : nat) (className : string) (index : Z)
    (s : vtkMRMLScene) :
  ((unique_index_loop fuel className index s).1 ≤ index + Z.of_nat fuel)%Z.
Proof.
  revert index s. induction fuel as [|fuel IH]; intros index s;
    cbn [unique_index_loop];
    destruct (GetNodeByID (Some (candidateName className index)) s)
      as [[found|] s']; cbn [fst]; try lia.
  pose proof (IH (index + 1)%Z s'). lia.
Qed.

Lemma GetUniqueIDIndexByClass_le (className : string) (s : vtkMRMLScene) :
  ((GetUniqueIDIndexByClass className s).1
   ≤ default 1%Z (UniqueIDByClass s !! className)
     + Z.of_nat (length (CurrentScene s)))%Z.
Proof.
  unfold GetUniqueIDIndexByClass, GetUniqueIDIndexByClassFromIndex.
  pose proof (unique_index_loop_le (length (CurrentScene s)) className
                (default 1%Z (UniqueIDByClass s !! className)) s) as Hle.
  by destruct (unique_index_loop _ _ _ _).
Qed.

Lemma has_space_app (a b : string) :
  has_space (a +:+ b) = has_space a || has_space b.
Proof.
  induction a as [|c a IH]; [done|]. simpl. by rewrite IH, orb_assoc.
Qed.

Lemma extract_no_space (buf : string) :
  has_space buf = false → extract buf = buf.
Proof.
  unfold extract. destruct buf as [|a buf]; [done|]. cbn.
  intros [Ha Hbuf]%orb_false_elim. rewrite Ha. cbn. rewrite Ha. f_equal.
  clear a Ha. induction buf as [|a buf IH]; [done|]. cbn in *.
  apply orb_false_elim in Hbuf as [Ha Hbuf]. rewrite Ha. f_equal. by apply IH.
Qed.

Lemma pretty_N_char_no_space (x : N) :
  Ascii.is_space (pretty_N_char x) = false.
Proof. unfold pretty_N_char. repeat case_match; reflexivity. Qed.

Lemma pretty_N_go_no_space (x : N) (str : string) :
  has_space str = false → has_space (pretty_N_go x str) = false.
Proof.
  revert str. induction (N.lt_wf_0 x) as [x _ IH]; intros str Hstr.
  destruct (decide (x = 0%N)) as [->|Hne]; [by rewrite pretty_N_go_0|].
  rewrite pretty_N_go_step by lia. apply IH; [apply N.div_lt; lia|].
  cbn [has_space]. by rewrite Hstr, pretty_N_char_no_space.
Qed.

Lemma pretty_Z_no_space (z : Z) : has_space (pretty z) = false.
Proof.
  assert (∀ x : N, has_space (pretty x) = false) as HN.
  { intros x. unfold pretty, pretty_N. case_decide; [done|].
    by apply pretty_N_go_no_space. }
  destruct z as [|x|x];
    [reflexivity|exact (HN (N.pos x))|exact (HN (N.pos x))].
Qed.

(** On a class name without white space the stream extraction returns the
    whole candidate. *)
Lemma extracted_candidate_whole (className : string) (index : Z) :
  has_space className = false →
  extracted_candidate className index = candidateName className index.
Proof.
  intros Hname. unfold extracted_candidate, candidateName.
  apply extract_no_space. by rewrite has_space_app, Hname, pretty_Z_no_space.
Qed.

(** X9: [GetUniqueIDIndexByClass] on a scene whose cache of IDs is up to
    date or stale, for a class name without white space, which the stream
    extraction of the candidate IDs reads whole, and a hint of the class (1
    when the class has none) that leaves room for two indices per node of
    the scene below [INT_MAX], so that no index overflows.  The index it
    returns is at or above the hint, the ID made of the class name and the
    index is the ID of no node of the scene, and every index between the
    hint and the one returned is taken.  It changes neither the nodes nor
    the collection, and a second call for the class returns a larger
    index, whether or not the first one was used; the index that the
    second call stores in the table is within [INT_MAX]. *)
Theorem GetUniqueIDIndexByClass_increases (className : string)
    (s : vtkMRMLScene) :
  cache_ok s →
  has_space className = false →
  (INT_MIN ≤ default 1%Z (UniqueIDByClass s !! className))%Z →
  (default 1%Z (UniqueIDByClass s !! className)
   + 2 * Z.of_nat (length (CurrentScene s)) + 2 ≤ INT_MAX)%Z →
  ∃ i1 i2 s1 s2,
    GetUniqueIDIndexByClass className s = (i1, s1) ∧
    GetUniqueIDIndexByClass className s1 = (i2, s2) ∧
    smallest_unused_index s className
      (default 1%Z (UniqueIDByClass s !! className)) i1 ∧
    (i1 < i2)%Z ∧
    ¬ id_in_scene s (Some (candidateName className i2)) ∧
    Heap s2 = Heap s ∧ CurrentScene s2 = CurrentScene s ∧
    (∀ j, extracted_candidate className j = candidateName className j) ∧
    (INT_MIN ≤ i1)%Z ∧ (i2 + 1 ≤ INT_MAX)%Z.
Proof.
  intros Hok Hname Hmin Hmax. unfold INT_MIN, INT_MAX in *.
  pose proof (GetUniqueIDIndexByClass_le className s) as Hle1.
  destruct (GetUniqueIDIndexByClass_spec className s Hok) as (r1 & Hfree1 & Heq1).
  rewrite Heq1 in Hle1. cbn [fst] in Hle1.
  pose proof (set_UniqueIDByClass_synced_cache_ok
                (<[className := (r1 + 1)%Z]> (UniqueIDByClass s)) s Hok) as Hok1.
  destruct (set_UniqueIDByClass_synced_projections
              (<[className := (r1 + 1)%Z]> (UniqueIDByClass s)) s)
    as (Hh1 & Hc1 & Ht1 & _).
  revert Heq1 Hok1 Hh1 Hc1 Ht1.
  generalize (set_UniqueIDByClass (<[className := (r1 + 1)%Z]> (UniqueIDByClass s))
                (synced s)).
  intros s1 Heq1 Hok1 Hh1 Hc1 Ht1.
  pose proof (GetUniqueIDIndexByClass_le className s1) as Hle2.
  destruct (GetUniqueIDIndexByClass_spec className s1 Hok1) as (r2 & Hfree2 & Heq2).
  rewrite Heq2 in Hle2. cbn [fst] in Hle2.
  rewrite Hc1, Ht1, lookup_insert_eq in Hle2.
  change (default 1%Z (Some (r1 + 1)%Z)) with (r1 + 1)%Z in Hle2.
  destruct (set_UniqueIDByClass_synced_projections
              (<[className := (r2 + 1)%Z]> (UniqueIDByClass s1)) s1)
    as (Hh2 & Hc2 & _).
  rewrite Hh1, Hc1, Ht1, lookup_insert_eq in Hfree2.
  change (default 1%Z (Some (r1 + 1)%Z)) with (r1 + 1)%Z in Hfree2.
  eexists r1, r2, s1, _.
  split_and!; [exact Heq1|exact Heq2| | | | | | | |].
  - by apply first_free_smallest_unused.
  - destruct Hfree2 as [Hle _]. lia.
  - apply first_free_smallest_unused in Hfree2. apply Hfree2.
  - by rewrite Hh2, Hh1.
  - by rewrite Hc2, Hc1.
  - intros j. by apply extracted_candidate_whole.
  - destruct Hfree1 as [Hle _]. lia.
  - lia.
Qed.

Lemma string_app_self (a b : string) : a +:+ b = a → b = "".
Proof.
  induction a as [|c a IH]; cbn; [done|]. intros [= Heq]. by apply IH.
Qed.

(** X10: [RequestNodeID] on a scene whose cache of IDs is up to date or
    stale.  Without a node or without an ID it does nothing.  When no node
    of the scene has the requested ID, the node takes it.  When one has,
    the node takes the requested ID followed by the index that
    [GetUniqueIDIndexByClass] returns for its class, an ID other than the
    requested one; the index is chosen among the IDs made of the class
    name, not among those made of the requested ID.  The method touches no
    other node and leaves the collection alone. *)
Theorem RequestNodeID_sets_id (p : ptr) (id : string) (s : vtkMRMLScene) :
  cache_ok s →
  RequestNodeID None (Some id) s = s ∧
  RequestNodeID (Some p) None s = s ∧
  CurrentScene (RequestNodeID (Some p) (Some id) s) = CurrentScene s ∧
  (∀ q, q ≠ p → GetNode (RequestNodeID (Some p) (Some id) s) q = GetNode s q) ∧
  ((∀ q, q ∈ CurrentScene s → node_key (Heap s) q ≠ id) →
   GetNode (RequestNodeID (Some p) (Some id) s) p = SetID (Some id) (GetNode s p)) ∧
  ((∃ q, q ∈ CurrentScene s ∧ node_key (Heap s) q = id) →
   ∃ index,
     smallest_unused_index s (ClassName (GetNode s p))
       (default 1%Z (UniqueIDByClass s !! ClassName (GetNode s p))) index ∧
     GetNode (RequestNodeID (Some p) (Some id) s) p
     = SetID (Some (id +:+ pretty index)) (GetNode s p) ∧
     id +:+ pretty index ≠ id).
Proof.
  intros Hok. split; [done|]. split; [done|].
  unfold RequestNodeID. rewrite GetNodeByID_synced by done.
  pose proof (synced_cache_ok s (cache_ok_clock s Hok)) as Hok'.
  destruct (synced_projections s) as (Hh & Hc & _ & _ & Ht & _).
  assert (Hnode : ∀ q, GetNode (synced s) q = GetNode s q) by done.
  destruct (id_map (Heap s) (CurrentScene s) !! id) as [found|] eqn:Hfound.
  - destruct (GetUniqueIDIndexByClass_spec (ClassName (GetNode (synced s) p))
                (synced s) Hok') as (r & Hfree & ->).
    rewrite Hh, Hc, Ht, Hnode in Hfree. rewrite synced_idemp, Hnode.
    destruct (set_UniqueIDByClass_synced_projections
                (<[ClassName (GetNode s p) := (r + 1)%Z]> (UniqueIDByClass (synced s))) s)
      as (Hh2 & Hc2 & _).
    assert (Hnode2 : ∀ q, GetNode (set_UniqueIDByClass
                (<[ClassName (GetNode s p) := (r + 1)%Z]> (UniqueIDByClass (synced s)))
                (synced s)) q = GetNode s q) by done.
    split_and!.
    + done.
    + intros q Hq. by rewrite GetNode_update_node, decide_False, Hnode2.
    + intros Hnone. apply id_map_lookup_Some in Hfound as [Hin Hkey].
      by destruct (Hnone found).
    + intros _. exists r. split_and!.
      * by apply first_free_smallest_unused.
      * by rewrite GetNode_update_node, decide_True, Hnode2.
      * intros Heq. by apply string_app_self, pretty_Z_nonempty in Heq.
  - split_and!.
    + done.
    + intros q Hq. by rewrite GetNode_update_node, decide_False, Hnode.
    + intros _. by rewrite GetNode_update_node, decide_True, Hnode.
    + intros (q & Hq & Hkey). exfalso.
      apply (proj1 (id_map_lookup_None _ _ _) Hfound q Hq Hkey).
Qed.

End UniqueIndexTheorems.

(** ** Removing, and the reference vectors *)

Section RemoveTheorems.
Context `{ops : MRMLNodeOps}.

Lemma update_all_references_InvokeEvent (e : SceneEvent) (callData : option ptr)
    (s : vtkMRMLScene) :
  update_all_references (InvokeEvent e callData s)
  = InvokeEvent e callData (update_all_references s).
Proof.
  unfold update_all_references. rewrite !foldl_update_node_heap. done.
Qed.

Lemma Events_update_all_references (s : vtkMRMLScene) :
  Events (update_all_references s) = Events s.
Proof. unfold update_all_references. by rewrite foldl_update_node_heap. Qed.

Lemma RemoveNodeNoNotify_Events (p : ptr) (s : vtkMRMLScene) :
  Events (RemoveNodeNoNotify (Some p) s) = Events s.
Proof.
  unfold RemoveNodeNoNotify. rewrite Events_update_all_references.
  unfold RemoveItem. by case_decide.
Qed.

(** X11: [RemoveNode] and [RemoveNodeNoNotify] differ by the event and by
    nothing else.  [RemoveNode(n)] leaves the scene as
    [RemoveNodeNoNotify(n)] does, with one [NodeRemovedEvent] for [n] on
    top of the events; [RemoveNodeNoNotify] invokes no event; and both do
    nothing on NULL. *)
Theorem RemoveNode_notifies (p : ptr) (s : vtkMRMLScene) :
  RemoveNode (Some p) s
  = InvokeEvent NodeRemovedEvent (Some p) (RemoveNodeNoNotify (Some p) s) ∧
  Events (RemoveNode (Some p) s) = (NodeRemovedEvent, Some p) :: Events s ∧
  Events (RemoveNodeNoNotify (Some p) s) = Events s ∧
  RemoveNode None s = s ∧ RemoveNodeNoNotify None s = s.
Proof.
  assert (RemoveNode (Some p) s
          = InvokeEvent NodeRemovedEvent (Some p) (RemoveNodeNoNotify (Some p) s))
    as Heq.
  { unfold RemoveNode, RemoveNodeNoNotify.
    apply update_all_references_InvokeEvent. }
  split_and!; [done| |apply RemoveNodeNoNotify_Events|done|done].
  rewrite Heq.
  change (Events (InvokeEvent NodeRemovedEvent (Some p)
                    (RemoveNodeNoNotify (Some p) s)))
    with ((NodeRemovedEvent, Some p) :: Events (RemoveNodeNoNotify (Some p) s)).
  by rewrite RemoveNodeNoNotify_Events.
Qed.

Lemma references_RemoveReferencedNodeID (id : option string) (p : ptr)
    (s : vtkMRMLScene) :
  references (RemoveReferencedNodeID id p s)
  = filter (λ e, drops_reference s id (ID (GetNode s p)) e = false)
      (references s).
Proof. unfold references, RemoveReferencedNodeID. simpl. apply zip_fst_snd. Qed.

Lemma reference_vectors_in_step (l : list (option ptr * string)) :
  length (l.*1) = length (l.*2).
Proof. by rewrite !length_fmap. Qed.

(** X12: [RemoveReferencedNodeID(id, n)] drops the entries that pair the
    referenced ID [id] with a referencing node that has the ID of [n], and
    no other: an entry stays when its referenced ID is another one, when
    its referencing node is NULL or has a NULL or another ID; with a NULL
    [id], or for a node [n] without ID, every entry stays.  The entries
    that stay keep their order, and the two vectors come out with the same
    length. *)
Theorem RemoveReferencedNodeID_drops_matching (id : option string) (p : ptr)
    (s : vtkMRMLScene) :
  (∀ e, e ∈ references (RemoveReferencedNodeID id p s) ↔
        e ∈ references s ∧
        ¬ (id = Some e.2 ∧
           ∃ q a, e.1 = Some q ∧ ID (GetNode s q) = Some a ∧
                  ID (GetNode s p) = Some a)) ∧
  references (RemoveReferencedNodeID id p s) `sublist_of` references s ∧
  (id = None ∨ ID (GetNode s p) = None →
   references (RemoveReferencedNodeID id p s) = references s) ∧
  length (ReferencingNodes (RemoveReferencedNodeID id p s))
  = length (ReferencedIDs (RemoveReferencedNodeID id p s)).
Proof.
  rewrite references_RemoveReferencedNodeID. split_and!.
  - intros [q' rid]. rewrite list_elem_of_filter. cbn [fst snd].
    unfold drops_reference. cbn [fst snd].
    split.
    + intros [Hdrop He]. split; [done|].
      intros (-> & q & a & -> & Ha & Hp). rewrite Ha, Hp in Hdrop.
      by rewrite !bool_decide_true in Hdrop.
    + intros [He Hnot]. split; [|done].
      destruct q' as [q|], id as [i|]; try done.
      destruct (ID (GetNode s q)) as [a|] eqn:Ha; [|done].
      destruct (ID (GetNode s p)) as [b|] eqn:Hb; [|done].
      apply andb_false_iff.
      destruct (decide (a = b)) as [->|Hab];
        [|left; by apply bool_decide_eq_false].
      right. apply bool_decide_eq_false. intros ->.
      apply Hnot. split; [done|]. by exists q, b.
  - apply sublist_filter.
  - intros Hnull. apply filter_all. intros [q' rid] _.
    unfold drops_reference. cbn [fst snd].
    destruct q' as [q|]; [|done]. destruct Hnull as [->| ->]; [done|].
    destruct id; [|done]. by destruct (ID (GetNode s q)).
  - unfold RemoveReferencedNodeID. cbn. apply reference_vectors_in_step.
Qed.

(** X13: [RemoveNodeReferences(n)] keeps an entry only if its referencing
    node has an ID other than the ID of [n].  For a node [n] without ID it
    therefore drops every entry, where [RemoveReferencedNodeID] drops none;
    it drops every entry whose referencing node is NULL or has no ID; and
    whatever [RemoveReferencedNodeID(id, n)] drops it drops as well, so
    that calling it after [RemoveReferencedNodeID] leaves the vectors as
    calling it alone. *)
Theorem RemoveNodeReferences_drops_more (id : option string) (p : ptr)
    (s : vtkMRMLScene) :
  (ID (GetNode s p) = None → references (RemoveNodeReferences p s) = []) ∧
  (∀ e, e ∈ references (RemoveNodeReferences p s) →
        ∃ q a b, e.1 = Some q ∧ ID (GetNode s q) = Some a ∧
                 ID (GetNode s p) = Some b ∧ a ≠ b) ∧
  references (RemoveNodeReferences p s)
    `sublist_of` references (RemoveReferencedNodeID id p s) ∧
  references (RemoveNodeReferences p (RemoveReferencedNodeID id p s))
  = references (RemoveNodeReferences p s).
Proof.
  assert (Hkeep : ∀ e, keeps_reference s (ID (GetNode s p)) e = true →
            drops_reference s id (ID (GetNode s p)) e = false).
  { intros [q' rid]. unfold keeps_reference, drops_reference. cbn [fst snd].
    destruct q' as [q|], id as [i|]; try done.
    destruct (ID (GetNode s q)) as [a|]; [|done].
    destruct (ID (GetNode s p)) as [b|]; [|done].
    rewrite bool_decide_eq_true. intros Hab.
    by rewrite (bool_decide_false (a = b)). }
  assert (Hfilter :
    filter (λ e, keeps_reference s (ID (GetNode s p)) e = true)
      (filter (λ e, drops_reference s id (ID (GetNode s p)) e = false)
         (references s))
    = filter (λ e, keeps_reference s (ID (GetNode s p)) e = true) (references s)).
  { rewrite list_filter_filter. apply list_filter_iff. intros e.
    split; [by intros [? _]|]. intros He. split; [done|by apply Hkeep]. }
  rewrite !references_RemoveNodeReferences, references_RemoveReferencedNodeID.
  split_and!.
  - intros Hnull. rewrite Hnull. clear Hfilter.
    induction (references s) as [|[q' rid] l IH]; [done|].
    rewrite filter_cons_False; [done|].
    unfold keeps_reference. cbn [fst]. destruct q' as [q|]; [|done].
    by destruct (ID (GetNode s q)).
  - intros [q' rid] [Hk _]%list_elem_of_filter.
    unfold keeps_reference in Hk. cbn [fst] in *.
    destruct q' as [q|]; [|done].
    destruct (ID (GetNode s q)) as [a|] eqn:Ha; [|done].
    destruct (ID (GetNode s p)) as [b|] eqn:Hb; [|done].
    apply bool_decide_eq_true in Hk. by exists q, a, b.
  - rewrite <- Hfilter. apply sublist_filter.
  - assert (∀ q, GetNode (RemoveReferencedNodeID id p s) q = GetNode s q)
      as Hnode by done.
    rewrite <- Hfilter. apply list_filter_iff. intros e.
    unfold keeps_reference. rewrite Hnode.
    destruct e.1 as [q|]; [|done]. by rewrite Hnode.
Qed.

End RemoveTheorems.

(** ** Saving the state and coming back *)

Section SaveTheorems.
Context `{ops : MRMLNodeOps}.

Lemma filter_none {A : Type} (P : A → Prop) `{∀ x, Decision (P x)} (l : list A) :
  (∀ x, x ∈ l → ¬ P x) → filter P l = [].
Proof.
  induction l as [|x l IH]; intros Hall; [done|].
  rewrite filter_cons_False by (apply Hall; left). apply IH.
  intros y Hy. apply Hall. by right.
Qed.

Lemma copy_back_same (copyInStack : ptr → vtkMRMLScene → vtkMRMLScene)
    (m : gmap string ptr) (l : list (string * ptr)) (s : vtkMRMLScene)
    (addNodes : list ptr) :
  (∀ e, e ∈ l → m !! e.1 = Some e.2) →
  foldl (copy_back_step copyInStack m) (s, addNodes) l = (s, addNodes).
Proof.
  induction l as [|e l IH]; intros Hall; [done|].
  cbn [foldl].
  assert (copy_back_step copyInStack m (s, addNodes) e = (s, addNodes)) as ->.
  { unfold copy_back_step. rewrite (Hall e) by left.
    rewrite decide_False; [done|]. by intros Hne. }
  apply IH. intros e' He'. apply Hall. by right.
Qed.

(** Restoring the collection the scene already has changes nothing. *)
Lemma restore_scene_same (copyInStack : ptr → vtkMRMLScene → vtkMRMLScene)
    (s : vtkMRMLScene) :
  restore_scene copyInStack (CurrentScene s) s = s.
Proof.
  unfold restore_scene.
  rewrite copy_back_same by (intros [k v] He; by apply elem_of_map_items).
  rewrite filter_none; [done|].
  intros [k v] He%elem_of_map_items. cbn [fst]. by rewrite He.
Qed.

Lemma Undo_of_current (s : vtkMRMLScene) (rest : list (list ptr)) :
  UndoStack s = CurrentScene s :: rest →
  Undo s = set_InUndo false (Modified (set_UndoStack rest
             (PushIntoRedoStack (set_InUndo true s)))).
Proof.
  intros HU. unfold Undo. rewrite HU. cbv zeta.
  assert (restore_scene CopyNodeInRedoStack (CurrentScene s)
            (PushIntoRedoStack (set_InUndo true s))
          = PushIntoRedoStack (set_InUndo true s)) as ->
    by apply (restore_scene_same _ (PushIntoRedoStack (set_InUndo true s))).
  change (UndoStack (PushIntoRedoStack (set_InUndo true s))) with (UndoStack s).
  by rewrite HU.
Qed.

Lemma Redo_of_current (s : vtkMRMLScene) (rest : list (list ptr)) :
  RedoStack s = CurrentScene s :: rest →
  Redo s = Modified (set_RedoStack rest (PushIntoUndoStack s)).
Proof.
  intros HR. unfold Redo. rewrite HR. cbv zeta.
  assert (restore_scene CopyNodeInUndoStack (CurrentScene s) (PushIntoUndoStack s)
          = PushIntoUndoStack s) as ->
    by apply (restore_scene_same _ (PushIntoUndoStack s)).
  change (RedoStack (PushIntoUndoStack s)) with (RedoStack s).
  by rewrite HR.
Qed.

(** X14: [Undo] right after [SaveStateForUndo()], outside of an undo.  The
    collection and the nodes are as they were before the save and no event
    is invoked; the undo stack is back to what it was, and the redo stack,
    which the save had emptied, holds the collection as its one entry.  A
    [Redo] then leaves the collection and the nodes alone again and brings
    the stacks back to their state after the save. *)
Theorem SaveStateForUndo_then_Undo (s : vtkMRMLScene) :
  InUndo s = false →
  CurrentScene (Undo (SaveStateForUndo None s)) = CurrentScene s ∧
  Heap (Undo (SaveStateForUndo None s)) = Heap s ∧
  Events (Undo (SaveStateForUndo None s)) = Events s ∧
  UndoStack (Undo (SaveStateForUndo None s)) = UndoStack s ∧
  RedoStack (Undo (SaveStateForUndo None s)) = [CurrentScene s] ∧
  InUndo (Undo (SaveStateForUndo None s)) = false ∧
  CurrentScene (Redo (Undo (SaveStateForUndo None s))) = CurrentScene s ∧
  Heap (Redo (Undo (SaveStateForUndo None s))) = Heap s ∧
  UndoStack (Redo (Undo (SaveStateForUndo None s)))
  = UndoStack (SaveStateForUndo None s) ∧
  RedoStack (Redo (Undo (SaveStateForUndo None s)))
  = RedoStack (SaveStateForUndo None s).
Proof.
  intros Hin. unfold SaveStateForUndo. rewrite Hin.
  rewrite (Undo_of_current (PushIntoUndoStack (SetUndoOn (ClearRedoStack s)))
             (UndoStack s)) by done.
  rewrite (Redo_of_current _ []) by done.
  done.
Qed.

(** What the loop of [SaveStateForUndo] over the nodes of the scene has
    done after a prefix of them: an entry of the top of the undo stack is
    the node itself as long as the loop has not come to the node, and then
    a new object with the backup of the node. *)
Lemma backup_loop_spec (nodes : list ptr) (s0 s : vtkMRMLScene)
    (done_nodes : list ptr) (top : list ptr) (rest : list (list ptr)) :
  (∀ c, c ∈ CurrentScene s0 → c ∈ dom (Heap s0)) →
  dom (Heap s0) ⊆ dom (Heap s) →
  (∀ q, q ∈ dom (Heap s0) → GetNode s q = GetNode s0 q) →
  CurrentScene s = CurrentScene s0 →
  RedoStack s = [] →
  UndoStack s = top :: rest →
  Forall2 (λ a c,
     ((c ∉ done_nodes) ∧ a = c) ∨
     (c ∈ done_nodes ∧ (a ∉ dom (Heap s0)) ∧ a ∈ dom (Heap s) ∧
      GetNode s a = backup_node (GetNode s0 c))) top (CurrentScene s0) →
  (∀ c, c ∈ nodes → c ∈ CurrentScene s0) →
  ∀ s', s' = foldl (λ s' p, CopyNodeInUndoStack p s') s nodes →
  CurrentScene s' = CurrentScene s0 ∧
  RedoStack s' = [] ∧
  (∀ q, q ∈ dom (Heap s0) → GetNode s' q = GetNode s0 q) ∧
  ∃ top', UndoStack s' = top' :: rest ∧
    Forall2 (λ a c,
       ((c ∉ done_nodes ++ nodes) ∧ a = c) ∨
       (c ∈ done_nodes ++ nodes ∧ (a ∉ dom (Heap s0)) ∧
        GetNode s' a = backup_node (GetNode s0 c))) top' (CurrentScene s0).
Proof.
  intros Halloc. revert s done_nodes top.
  induction nodes as [|p nodes IH];
    intros s done_nodes top Hdom Hnodes Hscene Hredo Hundo Htop Hin s' ->.
  - cbn [foldl]. split_and!; [done..|]. exists top. split; [done|].
    rewrite app_nil_r. eapply Forall2_impl; [exact Htop|].
    intros a c. cbv beta. naive_solver.
  - cbn [foldl].
    destruct (CopyNodeInUndoStack_spec p s) as (Hheap & Hframe & Hstack & Hother).
    rewrite Hundo in Hstack.
    pose proof (same_but_heap_stacks_closed _ _ Hframe) as Hclosed.
    destruct (with_heap_stacks_projections (Heap (CopyNodeInUndoStack p s))
                (UndoStack (CopyNodeInUndoStack p s))
                (RedoStack (CopyNodeInUndoStack p s)) s) as (_ & _ & _ & Hc & _).
    rewrite <- Hclosed in Hc.
    assert (Hfresh : fresh (dom (Heap s)) ∉ dom (Heap s)) by apply is_fresh.
    assert (Hp : p ∈ dom (Heap s0)) by (apply Halloc, Hin; left).
    assert (Hget : ∀ q, q ≠ fresh (dom (Heap s)) →
              GetNode (CopyNodeInUndoStack p s) q = GetNode s q).
    { intros q Hq. unfold GetNode. rewrite Hheap.
      by rewrite lookup_total_insert_ne. }
    assert (Hnew : GetNode (CopyNodeInUndoStack p s) (fresh (dom (Heap s)))
                   = backup_node (GetNode s0 p)).
    { unfold GetNode at 1. rewrite Hheap, lookup_total_insert_eq.
      by rewrite Hnodes. }
    revert Hheap Hstack Hother Hc Hget Hnew.
    generalize (CopyNodeInUndoStack p s). clear Hframe Hclosed.
    intros s1 Hheap Hstack Hother Hc Hget Hnew.
    destruct (IH s1 (done_nodes ++ [p])
                (replace_item p (fresh (dom (Heap s))) top))
      with (s' := foldl (λ s' p, CopyNodeInUndoStack p s') s1 nodes)
      as (Hscene' & Hredo' & Hnodes' & top' & Hundo' & Htop'); try done.
    + rewrite Hheap, dom_insert. set_solver.
    + intros q Hq. rewrite Hget; [by apply Hnodes|].
      intros ->. by apply Hfresh, Hdom.
    + by rewrite Hc.
    + by rewrite Hother.
    + unfold replace_item. apply Forall2_fmap_l.
      eapply Forall2_impl; [exact Htop|]. intros a c. unfold compose. cbv beta.
      intros [[Hc' ->]|(Hc' & Ha & Ha' & Hback)].
      * case_decide as Hcp.
        -- subst c. right. split_and!.
           ++ apply elem_of_app. right. by left.
           ++ intros Hf. by apply Hfresh, Hdom.
           ++ rewrite Hheap, dom_insert. set_solver.
           ++ done.
        -- left. split; [|done]. rewrite elem_of_app, list_elem_of_singleton.
           naive_solver.
      * right. assert (a ≠ p) as Hap by (intros ->; done).
        rewrite decide_False by done. split_and!.
        -- apply elem_of_app. by left.
        -- done.
        -- rewrite Hheap, dom_insert. set_solver.
        -- rewrite Hget; [done|]. intros ->. done.
    + intros c Hc'. apply Hin. by right.
    + split_and!; [done..|]. exists top'. split; [done|].
      eapply Forall2_impl; [exact Htop'|]. intros a c. cbv beta.
      rewrite <- !app_assoc. cbn [app]. done.
Qed.

(** X15: [SaveStateForUndo()] without argument, outside of an undo, on a
    scene whose nodes are allocated objects.  The collection and its nodes
    are untouched and the redo stack is emptied.  The undo stack gets one
    new entry on top, as long as the collection, that shares no object with
    the scene: at each position it holds a new object with the backup of
    the node at this position, so that later changes to the nodes of the
    scene do not reach the saved state. *)
Theorem SaveStateForUndo_scene_backs_up (s : vtkMRMLScene) :
  InUndo s = false →
  (∀ c, c ∈ CurrentScene s → c ∈ dom (Heap s)) →
  CurrentScene (SaveStateForUndo_scene s) = CurrentScene s ∧
  RedoStack (SaveStateForUndo_scene s) = [] ∧
  (∀ q, q ∈ dom (Heap s) → GetNode (SaveStateForUndo_scene s) q = GetNode s q) ∧
  ∃ top,
    UndoStack (SaveStateForUndo_scene s) = top :: UndoStack s ∧
    Forall2 (λ a c,
       (a ∉ dom (Heap s)) ∧ (a ∉ CurrentScene s) ∧
       GetNode (SaveStateForUndo_scene s) a = backup_node (GetNode s c))
      top (CurrentScene s).
Proof.
  intros Hin Halloc.
  unfold SaveStateForUndo_scene, SaveStateForUndo_collection. rewrite Hin.
  destruct (backup_loop_spec (CurrentScene s) s
              (PushIntoUndoStack (SetUndoOn (ClearRedoStack s))) []
              (CurrentScene s) (UndoStack s))
    with (s' := foldl (λ s' p, CopyNodeInUndoStack p s')
                  (PushIntoUndoStack (SetUndoOn (ClearRedoStack s)))
                  (CurrentScene s))
    as (Hscene & Hredo & Hnodes & top & Hundo & Htop); try done.
  - apply Forall2_same_length_lookup_2; [done|].
    intros i a c Ha Hc. left. split; [apply not_elem_of_nil|congruence].
  - split_and!; [done..|]. exists top. split; [done|].
    apply Forall2_same_length_lookup in Htop as [Hlen Htop].
    apply Forall2_same_length_lookup_2; [done|].
    intros i a c Ha Hc.
    assert (c ∈ CurrentScene s) as Hcin by (by eapply list_elem_of_lookup_2).
    destruct (Htop i a c Ha Hc) as [[Hnot _]|(_ & Hfresh & Hback)]; [done|].
    split_and!; [done| |done]. intros Hin'. by apply Hfresh, Halloc.
Qed.

End SaveTheorems.

(** ** A cleared scene, and the scenes that can be reached *)

Section ReachableTheorems.
Context `{ops : MRMLNodeOps} `{laws : !MRMLNodeLaws}.

Lemma Clear_all_projections (removeSingletons : Z) (s : vtkMRMLScene) :
  removeSingletons ≠ 0%Z →
  CurrentScene (Clear removeSingletons s) = [] ∧
  Heap (Clear removeSingletons s) = Heap s ∧
  UniqueIDByClass (Clear removeSingletons s) = ∅.
Proof.
  intros Hr. unfold Clear. rewrite decide_False by done.
  unfold RemoveAllItems. cbv zeta.
  by case_decide as Hempty.
Qed.

Lemma Clear_all_cache_ok (removeSingletons : Z) (s : vtkMRMLScene) :
  removeSingletons ≠ 0%Z → cache_ok s → cache_ok (Clear removeSingletons s).
Proof.
  intros Hr (Hle & Hclock & _).
  destruct (Clear_all_projections removeSingletons s Hr) as (Hscene & _).
  unfold cache_ok. rewrite Hscene. split_and!; [| |done].
  - unfold Clear. rewrite decide_False by done.
    unfold RemoveAllItems. cbv zeta. case_decide; cbn; lia.
  - unfold Clear. rewrite decide_False by done.
    unfold RemoveAllItems. cbv zeta. case_decide; cbn; lia.
Qed.

(** X16: the IDs start again at 1 after [Clear] with a nonzero argument.
    The first node added to the cleared scene, its [AddToScene] flag set,
    is stored as the only node of the collection; it keeps its ID when it
    has a non-empty one, and otherwise receives the ID made of its class
    name and the index 1, whatever indices the scene had handed out
    before. *)
Theorem Clear_then_AddNode (removeSingletons : Z) (p : ptr) (s : vtkMRMLScene) :
  removeSingletons ≠ 0%Z →
  cache_ok s →
  AddToScene (GetNode s p) = true →
  (AddNode p (Clear removeSingletons s)).1 = Some p ∧
  CurrentScene (AddNode p (Clear removeSingletons s)).2 = [p] ∧
  ID (GetNode (AddNode p (Clear removeSingletons s)).2 p)
  = Some (if null_or_empty (ID (GetNode s p))
          then candidateName (ClassName (GetNode s p)) 1
          else std_string (ID (GetNode s p))).
Proof.
  intros Hr Hok Hadd.
  pose proof (Clear_all_cache_ok removeSingletons s Hr Hok) as Hok'.
  destruct (Clear_all_projections removeSingletons s Hr)
    as (Hscene & Hheap & Htable).
  assert (Hnode : ∀ q, GetNode (Clear removeSingletons s) q = GetNode s q)
    by (intros q; unfold GetNode; by rewrite Hheap).
  revert Hok' Hscene Htable Hnode. generalize (Clear removeSingletons s).
  clear Hheap. intros s' Hok' Hscene Htable Hnode.
  rewrite <- Hnode in Hadd.
  assert (Hsingle : find_singleton s' (GetNode s' p) = None).
  { apply find_singleton_None. intros tag q _ Hq. rewrite Hscene in Hq.
    by apply elem_of_nil in Hq. }
  destruct (AddNodeNoNotify_added p s' Hok' Hadd Hsingle) as [Hkeep Hnew].
  rewrite (AddNode_added _ _ Hadd). cbn [fst snd].
  rewrite <- Hnode.
  destruct (null_or_empty (ID (GetNode s' p))) eqn:Hnull.
  - assert (needs_new_id s' (ID (GetNode s' p))) as Hneeds.
    { destruct (ID (GetNode s' p)) as [id|]; [|by left].
      right. left. cbn in Hnull. apply bool_decide_eq_true in Hnull.
      by subst. }
    destruct (Hnew Hneeds) as (r & Hfree & ->). cbn [fst snd].
    assert (r = 1%Z) as ->.
    { eapply first_free_index_unique; [exact Hfree|].
      rewrite Htable, Hscene, lookup_empty. cbn.
      split_and!; [lia|done|lia]. }
    split_and!; [done|by rewrite CurrentScene_notified_added, Hscene|].
    rewrite GetNode_notified, GetNode_added_scene, decide_True by done.
    apply added_node_fields.
  - apply null_or_empty_false in Hnull as (id & Hid & Hne).
    assert (¬ needs_new_id s' (ID (GetNode s' p))) as Hfree.
    { rewrite Hid. intros [?|[[= ?]|(q & Hq & _)]]; [done|done|].
      rewrite Hscene in Hq. by apply elem_of_nil in Hq. }
    rewrite (Hkeep Hfree). cbn [fst snd].
    split_and!; [done|by rewrite CurrentScene_notified_added, Hscene|].
    rewrite GetNode_notified, GetNode_added_scene, decide_True by done.
    rewrite Hid. apply added_node_fields.
Qed.

(** No node of a reachable scene has a NULL ID. *)
Lemma reachable_ids_set (s : vtkMRMLScene) :
  reachable s → ∀ p, p ∈ CurrentScene s → ID (GetNode s p) ≠ None.
Proof.
  induction 1 as [heap clock|s p Hs IH|s n Hs IH|s p node Hs IH Hp].
  - intros p Hp. by apply elem_of_nil in Hp.
  - pose proof (reachable_invariants s Hs) as [Hstale _].
    destruct (AddNode_cases p s (cache_stale_cache_ok s Hstale))
      as [->|[(tag & sn & Htag & Hsn & Hsing & ->)
             |(id & table & changes & Hsingle & Hid & ->)]];
      cbn [snd].
    + done.
    + intros q Hq.
      rewrite GetNode_notified, GetNode_RemoveNodeReferences, GetNode_update_node.
      case_decide as Hqsn.
      * subst q. rewrite Copy_ID.
        destruct (ID (GetNode s p)); [done|]. by apply IH.
      * by apply IH.
    + intros q. rewrite CurrentScene_notified_added.
      rewrite GetNode_notified, GetNode_added_scene.
      intros Hq. case_decide as Hpq.
      * assert (ID (added_node (RootDirectory s) id (GetNode s p)) = id) as ->
          by apply added_node_fields.
        destruct Hid as [[-> Hfree]|(r & -> & _)]; [|done].
        intros Hnone. apply Hfree. by left.
      * apply elem_of_app in Hq as [Hq|Hq]; [by apply IH|].
        apply list_elem_of_singleton in Hq. by subst.
  - destruct n as [p|]; [|done].
    destruct (RemoveNode_spec p s) as (Hscene & Hnodes & _).
    intros q Hq. rewrite Hscene in Hq. rewrite Hnodes.
    destruct (iter_UpdateReferences_fields
                (occurrences q (remove_first p (CurrentScene s))) (GetNode s q))
      as (_ & -> & _).
    by eapply IH, elem_of_remove_first.
  - intros q Hq.
    change (CurrentScene (set_Heap (<[p:=node]> (Heap s)) s))
      with (CurrentScene s) in Hq.
    assert (GetNode (set_Heap (<[p:=node]> (Heap s)) s) q = GetNode s q) as ->.
    { unfold GetNode. cbn. apply lookup_total_insert_ne. by intros ->. }
    by apply IH.
Qed.

(** *** Scenes reached with lookups in between *)











End ReachableTheorems.

(** ** The stacks under [Undo] and [Redo] *)

Section StackTheorems.
Context `{ops : MRMLNodeOps}.

Lemma same_stacks_refl (s : vtkMRMLScene) : same_stacks s s.
Proof. done. Qed.

Lemma same_stacks_trans (s1 s2 s3 : vtkMRMLScene) :
  same_stacks s1 s2 → same_stacks s2 s3 → same_stacks s1 s3.
Proof. intros [? ?] [? ?]. split; congruence. Qed.

Lemma update_node_same_stacks (f : vtkMRMLNode → vtkMRMLNode) (p : ptr)
    (s : vtkMRMLScene) :
  same_stacks s (update_node f p s).
Proof. done. Qed.

Lemma UpdateNodeIDs_same_stacks (s : vtkMRMLScene) :
  same_stacks s (UpdateNodeIDs s).
Proof. unfold UpdateNodeIDs. by repeat case_decide. Qed.

Lemma GetNodeByID_same_stacks (id : option string) (s : vtkMRMLScene) :
  same_stacks s (GetNodeByID id s).2.
Proof. destruct id; [apply UpdateNodeIDs_same_stacks|done]. Qed.

Lemma unique_index_loop_same_stacks (fuel : nat) (className : string)
    (index : Z) (s : vtkMRMLScene) :
  same_stacks s (unique_index_loop fuel className index s).2.
Proof.
  revert index s. induction fuel as [|fuel IH]; intros index s.
  - cbn [unique_index_loop].
    pose proof (GetNodeByID_same_stacks (Some (candidateName className index)) s)
      as Hget.
    destruct (GetNodeByID (Some (candidateName className index)) s) as [node s'].
    by destruct node.
  - cbn [unique_index_loop].
    pose proof (GetNodeByID_same_stacks (Some (candidateName className index)) s)
      as Hget.
    destruct (GetNodeByID (Some (candidateName className index)) s) as [node s'].
    destruct node; [|done].
    eapply same_stacks_trans; [exact Hget|apply IH].
Qed.

Lemma GetUniqueIDIndexByClass_same_stacks (className : string)
    (s : vtkMRMLScene) :
  same_stacks s (GetUniqueIDIndexByClass className s).2.
Proof.
  unfold GetUniqueIDIndexByClass, GetUniqueIDIndexByClassFromIndex.
  pose proof (unique_index_loop_same_stacks (length (CurrentScene s)) className
                (default 1%Z (UniqueIDByClass s !! className)) s) as Hloop.
  by destruct (unique_index_loop _ _ _ s) as [index s'].
Qed.

Lemma assign_unique_id_same_stacks (p : ptr) (s : vtkMRMLScene) :
  same_stacks s (assign_unique_id p s).
Proof.
  unfold assign_unique_id.
  pose proof (GetUniqueIDIndexByClass_same_stacks (ClassName (GetNode s p)) s)
    as Hget.
  destruct (GetUniqueIDIndexByClass (ClassName (GetNode s p)) s) as [index s1].
  cbv zeta. by case_decide.
Qed.

Lemma AddNodeNoNotify_same_stacks (p : ptr) (s : vtkMRMLScene) :
  same_stacks s (AddNodeNoNotify p s).2.
Proof.
  unfold AddNodeNoNotify. cbv zeta.
  destruct (AddToScene (GetNode s p)); [|done]. cbn [negb].
  destruct (find_singleton s (GetNode s p)) as [sn|]; [done|].
  assert (∃ taken s1,
            (if null_or_empty (ID (GetNode s p)) then (true, s)
             else let '(found, s') := GetNodeByID (ID (GetNode s p)) s in
                  (bool_decide (is_Some found), s')) = (taken, s1) ∧
            same_stacks s s1) as (taken & s1 & -> & Hs1).
  { destruct (null_or_empty (ID (GetNode s p))); [by eexists _, _|].
    pose proof (GetNodeByID_same_stacks (ID (GetNode s p)) s) as Hget.
    destruct (GetNodeByID (ID (GetNode s p)) s) as [found s'].
    by eexists _, _. }
  assert (same_stacks s (if taken then assign_unique_id p s1 else s1)) as Hs2.
  { destruct taken; [|done].
    eapply same_stacks_trans; [exact Hs1|apply assign_unique_id_same_stacks]. }
  revert Hs2. generalize (if taken then assign_unique_id p s1 else s1).
  intros s2 Hs2. cbn [snd].
  destruct (null_or_empty _); exact Hs2.
Qed.

Lemma AddNode_same_stacks (p : ptr) (s : vtkMRMLScene) :
  same_stacks s (AddNode p s).2.
Proof.
  unfold AddNode. destruct (AddToScene (GetNode s p)); [|done]. cbn [negb].
  pose proof (AddNodeNoNotify_same_stacks p s) as Hadd.
  by destruct (AddNodeNoNotify p s) as [node s1].
Qed.

Lemma RemoveNode_same_stacks (n : option ptr) (s : vtkMRMLScene) :
  same_stacks s (RemoveNode n s).
Proof.
  destruct n as [p|]; [|done].
  destruct (RemoveNode_spec p s) as (_ & _ & ? & ? & _). by split.
Qed.

Lemma foldl_same_stacks {A : Type} (f : vtkMRMLScene → A → vtkMRMLScene)
    (l : list A) (s : vtkMRMLScene) :
  (∀ s' x, same_stacks s' (f s' x)) → same_stacks s (foldl f s l).
Proof.
  intros Hf. revert s. induction l as [|x l IH]; intros s; [done|].
  cbn [foldl]. eapply same_stacks_trans; [apply Hf|apply IH].
Qed.

Section RestoreStacks.
Variable copyInStack : ptr → vtkMRMLScene → vtkMRMLScene.
Variables stk other : vtkMRMLScene → list (list ptr).

Hypothesis copyInStack_stk : ∀ c s,
  stk (copyInStack c s)
  = match stk s with
    | T :: rest => replace_item c (fresh (dom (Heap s))) T :: rest
    | [] => []
    end.
Hypothesis copyInStack_other : ∀ c s, other (copyInStack c s) = other s.
Hypothesis stacks :
  stk = UndoStack ∧ other = RedoStack ∨ stk = RedoStack ∧ other = UndoStack.

Lemma same_stacks_stk (s s' : vtkMRMLScene) :
  same_stacks s s' → stk s' = stk s ∧ other s' = other s.
Proof. intros [? ?]. by destruct stacks as [[-> ->]|[-> ->]]. Qed.

Lemma top_replaced_refl (s : vtkMRMLScene) : top_replaced stk other s s.
Proof. split; [done|]. intros top rest ->. by exists top. Qed.

Lemma top_replaced_trans (s1 s2 s3 : vtkMRMLScene) :
  top_replaced stk other s1 s2 → top_replaced stk other s2 s3 → top_replaced stk other s1 s3.
Proof.
  intros [Ho1 Ht1] [Ho2 Ht2]. split; [congruence|].
  intros top rest Hs1. destruct (Ht1 top rest Hs1) as (top' & Hs2 & Hlen).
  destruct (Ht2 top' rest Hs2) as (top'' & Hs3 & Hlen').
  exists top''. split; [done|congruence].
Qed.

Lemma same_stacks_top_replaced (s s' : vtkMRMLScene) :
  same_stacks s s' → top_replaced stk other s s'.
Proof.
  intros [Hs Ho]%same_stacks_stk. split; [done|].
  intros top rest Htop. exists top. split; [congruence|done].
Qed.

Lemma copy_back_step_top_replaced (m : gmap string ptr) (s : vtkMRMLScene)
    (addNodes : list ptr) (e : string * ptr) :
  top_replaced stk other s (copy_back_step copyInStack m (s, addNodes) e).1.
Proof.
  unfold copy_back_step. destruct (m !! e.1) as [cur|]; [|apply top_replaced_refl].
  case_decide; [|apply top_replaced_refl]. cbn [fst].
  eapply top_replaced_trans;
    [|apply same_stacks_top_replaced, update_node_same_stacks].
  split; [apply copyInStack_other|].
  intros top rest Htop. rewrite copyInStack_stk, Htop.
  eexists. split; [done|]. unfold replace_item. by rewrite length_fmap.
Qed.

Lemma copy_back_top_replaced (m : gmap string ptr) (l : list (string * ptr))
    (s : vtkMRMLScene) (addNodes : list ptr) :
  top_replaced stk other s (foldl (copy_back_step copyInStack m) (s, addNodes) l).1.
Proof.
  revert s addNodes. induction l as [|e l IH]; intros s addNodes.
  - apply top_replaced_refl.
  - cbn [foldl].
    pose proof (copy_back_step_top_replaced m s addNodes e) as Hstep.
    destruct (copy_back_step copyInStack m (s, addNodes) e) as [s1 add1].
    eapply top_replaced_trans; [exact Hstep|apply IH].
Qed.

Lemma restore_scene_top_replaced (saved : list ptr) (s : vtkMRMLScene) :
  top_replaced stk other s (restore_scene copyInStack saved s).
Proof.
  unfold restore_scene. cbv zeta.
  pose proof (copy_back_top_replaced (id_map (Heap s) (CurrentScene s))
                (map_items (id_map (Heap s) saved)) s []) as Hcopy.
  destruct (foldl _ (s, []) _) as [s1 addNodes]. cbn [fst] in Hcopy.
  eapply top_replaced_trans; [exact Hcopy|].
  apply same_stacks_top_replaced.
  eapply same_stacks_trans.
  - apply (foldl_same_stacks (λ s' p, (AddNode p s').2)).
    intros s' x. apply AddNode_same_stacks.
  - apply (foldl_same_stacks (λ s' p, RemoveNode (Some p) s')).
    intros s' x. apply RemoveNode_same_stacks.
Qed.

End RestoreStacks.

(** X18: the stacks under [Undo] and [Redo], for every scene and every
    saved collection.  With a non-empty undo stack, [Undo] pops its top and
    pushes on the redo stack one entry as long as the collection was; with
    a non-empty redo stack, [Redo] pops its top and pushes on the undo
    stack one entry as long as the collection was.  The entries below are
    not touched, so the two stacks together hold as many entries as
    before; and [Undo] leaves the scene out of the undo mode. *)
Theorem Undo_Redo_move_one_entry (s : vtkMRMLScene) (saved : list ptr)
    (rest : list (list ptr)) :
  (UndoStack s = saved :: rest →
   UndoStack (Undo s) = rest ∧
   (∃ T, RedoStack (Undo s) = T :: RedoStack s ∧
         length T = length (CurrentScene s)) ∧
   InUndo (Undo s) = false) ∧
  (RedoStack s = saved :: rest →
   RedoStack (Redo s) = rest ∧
   (∃ T, UndoStack (Redo s) = T :: UndoStack s ∧
         length T = length (CurrentScene s))).
Proof.
  split.
  - intros HU. unfold Undo. rewrite HU. cbv zeta.
    destruct (restore_scene_top_replaced CopyNodeInRedoStack RedoStack UndoStack)
      with (saved := saved) (s := PushIntoRedoStack (set_InUndo true s))
      as [Hother Htop].
    { intros c s'. apply CopyNodeInRedoStack_spec. }
    { intros c s'. apply CopyNodeInRedoStack_spec. }
    { by right. }
    destruct (Htop (CurrentScene s) (RedoStack s)) as (T & HT & Hlen); [done|].
    revert Hother HT.
    generalize (restore_scene CopyNodeInRedoStack saved
                  (PushIntoRedoStack (set_InUndo true s))).
    intros s2 Hother HT. cbn.
    split_and!; [|by exists T|done].
    rewrite Hother. cbn. by rewrite HU.
  - intros HR. unfold Redo. rewrite HR. cbv zeta.
    destruct (restore_scene_top_replaced CopyNodeInUndoStack UndoStack RedoStack)
      with (saved := saved) (s := PushIntoUndoStack s)
      as [Hother Htop].
    { intros c s'. apply CopyNodeInUndoStack_spec. }
    { intros c s'. apply CopyNodeInUndoStack_spec. }
    { by left. }
    destruct (Htop (CurrentScene s) (UndoStack s)) as (T & HT & Hlen); [done|].
    revert Hother HT.
    generalize (restore_scene CopyNodeInUndoStack saved (PushIntoUndoStack s)).
    intros s2 Hother HT. cbn.
    split_and!; [|by exists T].
    rewrite Hother. cbn. by rewrite HR.
Qed.

End StackTheorems.

(** ** Copies and reference updates *)

Section CopyTheorems.
Context `{ops : MRMLNodeOps} `{copy_ops : MRMLNodeCopyOps}.

Lemma allocate_cache_ok (node : vtkMRMLNode) (s : vtkMRMLScene) :
  cache_ok s →
  (∀ c, c ∈ CurrentScene s → c ∈ dom (Heap s)) →
  cache_ok (set_Heap (<[fresh (dom (Heap s)) := node]> (Heap s)) s).
Proof.
  intros Hok Halloc. apply (cache_ok_same_keys s); [done| |done].
  intros q Hq. unfold node_key. cbn. f_equal. f_equal.
  apply lookup_total_insert_ne. intros <-.
  by apply (is_fresh (dom (Heap s))), Halloc.
Qed.

Lemma GetNode_allocate (node : vtkMRMLNode) (s : vtkMRMLScene) (q : ptr) :
  q ∈ dom (Heap s) →
  GetNode (set_Heap (<[fresh (dom (Heap s)) := node]> (Heap s)) s) q
  = GetNode s q.
Proof.
  intros Hq. unfold GetNode. cbn. apply lookup_total_insert_ne.
  intros <-. by apply (is_fresh (dom (Heap s))).
Qed.

(** X19: [CopyNode(n)] on a scene whose nodes are allocated objects and
    whose cache of IDs is up to date or stale.  A node whose [AddToScene]
    flag is unset is refused and the scene is unchanged.  Otherwise the
    copy is a new object; either it is stored at the end of the collection
    and returned, no existing object changed, or a singleton of the scene
    is returned, the copy merged into it, with the collection and every
    other object as before, or NULL is returned and the collection is as
    before.  In no case does [n] enter the collection another time. *)
Theorem CopyNode_adds_a_new_object (p : ptr) (s : vtkMRMLScene) :
  cache_ok s →
  (∀ c, c ∈ CurrentScene s → c ∈ dom (Heap s)) →
  (AddToScene (GetNode s p) = false → CopyNode p s = (None, s)) ∧
  ((CopyNode p s).1 = None →
   CurrentScene (CopyNode p s).2 = CurrentScene s) ∧
  (∀ q, (CopyNode p s).1 = Some q →
     (q = fresh (dom (Heap s)) ∧ (q ∉ dom (Heap s)) ∧
      CurrentScene (CopyNode p s).2 = CurrentScene s ++ [q] ∧
      ∀ q', q' ∈ dom (Heap s) → GetNode (CopyNode p s).2 q' = GetNode s q') ∨
     (q ∈ CurrentScene s ∧ SingletonTag (GetNode s q) ≠ None ∧
      CurrentScene (CopyNode p s).2 = CurrentScene s ∧
      ∀ q', q' ∈ dom (Heap s) → q' ≠ q →
            GetNode (CopyNode p s).2 q' = GetNode s q')).
Proof.
  intros Hok Halloc. unfold CopyNode. cbv zeta.
  destruct (AddToScene (GetNode s p)) eqn:Hflag; cbn [negb];
    [|split_and!; [done|done|by intros q [=]]].
  set (copy := Copy (CreateNodeInstance (GetNode s p)) (GetNode s p)).
  pose proof (allocate_cache_ok copy s Hok Halloc) as Hok1.
  pose proof (GetNode_allocate copy s) as Hnode1.
  assert (Hscene1 : CurrentScene (set_Heap (<[fresh (dom (Heap s)) := copy]> (Heap s)) s)
                    = CurrentScene s) by done.
  pose proof (is_fresh (dom (Heap s))) as Hfresh.
  revert Hok1 Hnode1 Hscene1.
  generalize (set_Heap (<[fresh (dom (Heap s)) := copy]> (Heap s)) s).
  intros s1 Hok1 Hnode1 Hscene1.
  split; [done|].
  destruct (AddNode_cases (fresh (dom (Heap s))) s1 Hok1)
    as [->|[(tag & sn & Htag & Hsn & Hsing & ->)
           |(id & table & changes & Hsingle & Hid & ->)]];
    cbn [fst snd].
  - split; [done|]. by intros q [=].
  - rewrite Hscene1 in Hsn. split; [done|]. intros q [= <-]. right.
    destruct Hsing as [_ Hsntag].
    rewrite Hnode1 in Hsntag by (by apply Halloc).
    split_and!; [done|by rewrite Hsntag|done|].
    intros q' Hq' Hne.
    rewrite GetNode_notified, GetNode_RemoveNodeReferences, GetNode_update_node.
    rewrite decide_False by done. by apply Hnode1.
  - split; [done|]. intros q [= <-]. left.
    split_and!; [done|done|by rewrite CurrentScene_notified_added, Hscene1|].
    intros q' Hq'. rewrite GetNode_notified, GetNode_added_scene.
    rewrite decide_False by (by intros <-). by apply Hnode1.
Qed.

(** *** Updating the references *)

Lemma update_entry_frame (check : ptr → bool) (change : string * string)
    (s : vtkMRMLScene) (e : option ptr * string) :
  references (update_entry check change s e) = references s ∧
  CurrentScene (update_entry check change s e) = CurrentScene s ∧
  ReferencedIDChanges (update_entry check change s e) = ReferencedIDChanges s ∧
  ∀ q, (e.1 = Some q → check q = true → change.1 ≠ e.2) →
       GetNode (update_entry check change s e) q = GetNode s q.
Proof.
  unfold update_entry. case_bool_decide as Hchange; [|done].
  destruct e.1 as [q'|]; [|done].
  destruct (check q') eqn:Hcheck; [|done].
  split_and!; [done..|]. intros q Hq.
  rewrite GetNode_update_node. case_decide as Hqq; [|done]. subst q'.
  by destruct (Hq eq_refl Hcheck).
Qed.

Lemma update_entries_frame (check : ptr → bool) (change : string * string)
    (l : list (option ptr * string)) (s : vtkMRMLScene) :
  references (foldl (update_entry check change) s l) = references s ∧
  CurrentScene (foldl (update_entry check change) s l) = CurrentScene s ∧
  ReferencedIDChanges (foldl (update_entry check change) s l)
  = ReferencedIDChanges s ∧
  ∀ q, (∀ e, e ∈ l → e.1 = Some q → check q = true → change.1 ≠ e.2) →
       GetNode (foldl (update_entry check change) s l) q = GetNode s q.
Proof.
  revert s. induction l as [|e l IH]; intros s; [done|].
  cbn [foldl].
  destruct (update_entry_frame check change s e) as (Hr & Hc & Hch & Hn).
  destruct (IH (update_entry check change s e)) as (Hr' & Hc' & Hch' & Hn').
  split_and!; [congruence..|].
  intros q Hq. rewrite Hn', Hn; [done| |].
  - apply Hq. by left.
  - intros e' He'. apply Hq. by right.
Qed.

Lemma update_changes_frame (check : ptr → bool)
    (changes : list (string * string)) (s : vtkMRMLScene) :
  references (foldl (λ s' change,
                foldl (update_entry check change) s' (references s')) s changes)
  = references s ∧
  CurrentScene (foldl (λ s' change,
                  foldl (update_entry check change) s' (references s')) s changes)
  = CurrentScene s ∧
  ReferencedIDChanges (foldl (λ s' change,
                  foldl (update_entry check change) s' (references s')) s changes)
  = ReferencedIDChanges s ∧
  ∀ q, (∀ e change, e ∈ references s → change ∈ changes → e.1 = Some q →
                    check q = true → change.1 ≠ e.2) →
       GetNode (foldl (λ s' change,
                  foldl (update_entry check change) s' (references s')) s changes) q
       = GetNode s q.
Proof.
  revert s. induction changes as [|change changes IH]; intros s; [done|].
  cbn [foldl].
  destruct (update_entries_frame check change (references s) s)
    as (Hr & Hc & Hch & Hn).
  destruct (IH (foldl (update_entry check change) s (references s)))
    as (Hr' & Hc' & Hch' & Hn').
  split_and!; [congruence..|].
  intros q Hq. rewrite Hn', Hn; [done| |].
  - intros e He. apply Hq; [done|by left].
  - intros e change' He Hchange'. rewrite Hr in He.
    apply Hq; [done|by right].
Qed.

(** X20: [UpdateNodeReferences(collection)] changes nodes only.  The
    reference vectors, the recorded ID changes and the collection of the
    scene are as before.  A node is left alone when it is not in the
    collection passed, and also when no entry with the node as referencing
    node has a referenced ID that is recorded as changed; with no change
    recorded, nothing happens at all. *)
Theorem UpdateNodeReferences_collection_frame (checkNodes : list ptr)
    (s : vtkMRMLScene) :
  references (UpdateNodeReferences_collection checkNodes s) = references s ∧
  CurrentScene (UpdateNodeReferences_collection checkNodes s) = CurrentScene s ∧
  ReferencedIDChanges (UpdateNodeReferences_collection checkNodes s)
  = ReferencedIDChanges s ∧
  (∀ q, q ∉ checkNodes →
        GetNode (UpdateNodeReferences_collection checkNodes s) q = GetNode s q) ∧
  (∀ q, (∀ id, (Some q, id) ∈ references s → ReferencedIDChanges s !! id = None) →
        GetNode (UpdateNodeReferences_collection checkNodes s) q = GetNode s q) ∧
  (ReferencedIDChanges s = ∅ → UpdateNodeReferences_collection checkNodes s = s).
Proof.
  unfold UpdateNodeReferences_collection.
  destruct (update_changes_frame (λ q, bool_decide (q ∈ checkNodes))
              (map_items (ReferencedIDChanges s)) s) as (Hr & Hc & Hch & Hn).
  split_and!; [done..| | |].
  - intros q Hq. apply Hn. intros e change _ _ _ Hcheck.
    by apply bool_decide_eq_true in Hcheck.
  - intros q Hq. apply Hn. intros [q' id] [old new] He Hchange Hq' _ Heq.
    cbn [fst snd] in *. subst q' id.
    apply elem_of_map_items in Hchange. by rewrite (Hq old He) in Hchange.
  - intros Hempty. rewrite Hempty.
    assert (map_items (∅ : gmap string string) = []) as ->; [|done].
    apply Permutation_nil_r. rewrite map_items_Permutation.
    by rewrite map_to_list_empty.
Qed.

Lemma update_entries_unchecked_None (change : string * string)
    (l : list (option ptr * string)) :
  foldl (update_entry_unchecked change) None l = None.
Proof. by induction l. Qed.

Lemma update_entries_unchecked_Some (check : ptr → bool)
    (change : string * string) (l : list (option ptr * string))
    (s : vtkMRMLScene) :
  (∀ e, e ∈ l → change.1 = e.2 → ∃ q, e.1 = Some q ∧ check q = true) →
  foldl (update_entry_unchecked change) (Some s) l
  = Some (foldl (update_entry check change) s l).
Proof.
  revert s. induction l as [|e l IH]; intros s Hall; [done|].
  cbn [foldl].
  assert (update_entry_unchecked change (Some s) e
          = Some (update_entry check change s e)) as ->.
  { unfold update_entry_unchecked, update_entry.
    case_bool_decide as Hchange; [|done].
    destruct (Hall e) as (q & -> & ->); [by left|done|done]. }
  apply IH. intros e' He'. apply Hall. by right.
Qed.

Lemma update_entries_unchecked_NULL (change : string * string)
    (l : list (option ptr * string)) (s : vtkMRMLScene) :
  (None, change.1) ∈ l →
  foldl (update_entry_unchecked change) (Some s) l = None.
Proof.
  revert s. induction l as [|e l IH]; intros s Hin.
  - by apply elem_of_nil in Hin.
  - cbn [foldl]. apply elem_of_cons in Hin as [<-|Hin].
    + unfold update_entry_unchecked at 2. cbn [fst snd].
      rewrite bool_decide_true by done. apply update_entries_unchecked_None.
    + destruct (update_entry_unchecked change (Some s) e);
        [by apply IH|apply update_entries_unchecked_None].
Qed.

Lemma update_changes_unchecked_None (changes : list (string * string)) :
  foldl (λ acc change,
           match acc with
           | None => None
           | Some s' =>
               foldl (update_entry_unchecked change) (Some s') (references s')
           end) None changes = None.
Proof. by induction changes. Qed.

(** X21: [UpdateNodeReferences()] against the variant with a collection.
    When every entry whose referenced ID is recorded as changed has a
    referencing node, and the node is in the collection, the two methods
    leave the same scene.  When such an entry has a NULL referencing node,
    the variant without argument calls a method on the NULL node and has
    no defined result, where the variant with a collection skips the
    entry. *)
Theorem UpdateNodeReferences_agrees (checkNodes : list ptr) (s : vtkMRMLScene) :
  ((∀ q' id, (q', id) ∈ references s →
             is_Some (ReferencedIDChanges s !! id) →
             ∃ q, q' = Some q ∧ q ∈ checkNodes) →
   UpdateNodeReferences s
   = Some (UpdateNodeReferences_collection checkNodes s)) ∧
  ((∃ id, (None, id) ∈ references s ∧
          is_Some (ReferencedIDChanges s !! id)) →
   UpdateNodeReferences s = None).
Proof.
  unfold UpdateNodeReferences, UpdateNodeReferences_collection.
  assert (Hitems : ∀ change, change ∈ map_items (ReferencedIDChanges s) →
            is_Some (ReferencedIDChanges s !! change.1)).
  { intros [old new] Hin%elem_of_map_items. by exists new. }
  assert (Hkeys : ∀ id, is_Some (ReferencedIDChanges s !! id) →
            ∃ new, (id, new) ∈ map_items (ReferencedIDChanges s)).
  { intros id [new Hnew]. exists new. by apply elem_of_map_items. }
  revert Hitems Hkeys. generalize (map_items (ReferencedIDChanges s)).
  generalize (ReferencedIDChanges s). intros table changes Hitems Hkeys.
  split.
  - intros Hall. clear Hkeys.
    assert (Hgen : ∀ s', references s' = references s →
      foldl (λ acc change,
               match acc with
               | None => None
               | Some s'' =>
                   foldl (update_entry_unchecked change) (Some s'')
                     (references s'')
               end) (Some s') changes
      = Some (foldl (λ s'' change,
                foldl (update_entry (λ q, bool_decide (q ∈ checkNodes)) change)
                  s'' (references s'')) s' changes)); [|by apply Hgen].
    induction changes as [|change changes IH]; intros s' Hrefs; [done|].
    cbn [foldl].
    rewrite (update_entries_unchecked_Some (λ q, bool_decide (q ∈ checkNodes))).
    + apply IH.
      * intros c Hc. apply Hitems. by right.
      * by rewrite (proj1 (update_entries_frame _ _ _ _)).
    + intros [q' id] He Hchange. cbn [fst snd] in *. subst id.
      rewrite Hrefs in He.
      destruct (Hall q' change.1 He) as (q & -> & Hq); [apply Hitems; by left|].
      exists q. split; [done|by apply bool_decide_eq_true].
  - intros (id & Hin & [new Hnew]%Hkeys). clear Hitems Hkeys.
    assert (Hgen : ∀ s', references s' = references s →
      foldl (λ acc change,
               match acc with
               | None => None
               | Some s'' =>
                   foldl (update_entry_unchecked change) (Some s'')
                     (references s'')
               end) (Some s') changes = None); [|by apply Hgen].
    induction changes as [|change changes IH]; intros s' Hrefs.
    + by apply elem_of_nil in Hnew.
    + cbn [foldl]. apply elem_of_cons in Hnew as [<-|Hnew].
      * rewrite update_entries_unchecked_NULL by (by rewrite Hrefs).
        apply update_changes_unchecked_None.
      * destruct (foldl (update_entry_unchecked change) (Some s') (references s'))
          as [s1|] eqn:Hs1; [|apply update_changes_unchecked_None].
        apply IH; [done|].
        destruct (decide ((None, change.1) ∈ references s')) as [Hnull|Hnone].
        { by rewrite update_entries_unchecked_NULL in Hs1. }
        rewrite (update_entries_unchecked_Some (λ _, true)) in Hs1.
        { injection Hs1 as <-.
          by rewrite (proj1 (update_entries_frame _ _ _ _)). }
        intros [q' rid] He Hc. cbn [fst snd] in *.
        destruct q' as [q|]; [by exists q|].
        exfalso. apply Hnone. by rewrite Hc.
Qed.

End CopyTheorems.

(** ** Unique names *)

Section UniqueNameTheorems.
Context `{ops : MRMLNodeOps} `{copy_ops : MRMLNodeCopyOps}.

Lemma GetNodesByName_length (name : string) (s : vtkMRMLScene) :
  (∀ p, p ∈ CurrentScene s → Name (GetNode s p) ≠ None) →
  ∃ nodes, GetNodesByName name s = Some nodes ∧
    ((length nodes = 0 ∧
      ¬ ∃ p, p ∈ CurrentScene s ∧ Name (Heap s !!! p) = Some name) ∨
     (length nodes ≠ 0 ∧
      ∃ p, p ∈ CurrentScene s ∧ Name (Heap s !!! p) = Some name)).
Proof.
  intros Hnames. unfold GetNodesByName.
  rewrite nodes_by_name_Some by done. cbn [app]. eexists. split; [done|].
  destruct (filter _ (CurrentScene s)) as [|p nodes] eqn:Hfilter.
  - left. split; [done|]. intros (p & Hp & Hname).
    assert (p ∈ filter (λ p, Name (Heap s !!! p) = Some name ∧ true = true)
                       (CurrentScene s)) as Hin
      by (by apply list_elem_of_filter).
    rewrite Hfilter in Hin. by apply elem_of_nil in Hin.
  - right. split; [done|]. exists p.
    assert (p ∈ filter (λ p, Name (Heap s !!! p) = Some name ∧ true = true)
                       (CurrentScene s)) as Hin
      by (rewrite Hfilter; left).
    apply list_elem_of_filter in Hin as [[Hname _] Hp]. done.
Qed.

Lemma length_filter_ne (x : string) (l : list string) :
  x ∈ l → length (filter (λ y, y ≠ x) l) < length l.
Proof.
  induction l as [|y l IH]; intros Hin; [by apply elem_of_nil in Hin|].
  destruct (decide (y = x)) as [->|Hne].
  - rewrite filter_cons_False by (by intros ?). cbn [length].
    pose proof (length_filter (λ y, y ≠ x) l). lia.
  - rewrite filter_cons_True by done. cbn [length].
    apply elem_of_cons in Hin as [->|Hin]; [done|]. specialize (IH Hin). lia.
Qed.

Lemma unique_name_loop_spec (fuel : nat) (className : string) (id : Z)
    (uniqueIDs : list string) (s : vtkMRMLScene) (taken : list string) :
  (∀ p, p ∈ CurrentScene s → Name (GetNode s p) ≠ None) →
  (∀ j, (id ≤ j)%Z → name_taken uniqueIDs s (candidateName className j) →
        candidateName className j ∈ taken) →
  length taken ≤ fuel →
  ∃ r,
    unique_name_loop fuel className id uniqueIDs s
    = Some (r, candidateName className r) ∧
    (id ≤ r)%Z ∧
    ¬ name_taken uniqueIDs s (candidateName className r) ∧
    ∀ j, (id ≤ j < r)%Z → name_taken uniqueIDs s (candidateName className j).
Proof.
  intros Hnames. revert id taken.
  induction fuel as [|fuel IH]; intros id taken Htaken Hlen.
  - assert (taken = []) as -> by (apply length_zero_iff_nil; lia).
    assert (¬ name_taken uniqueIDs s (candidateName className id)) as Hfree.
    { intros Hin. by apply (Htaken id), elem_of_nil in Hin. }
    exists id. split_and!; [|lia|done|lia].
    cbn [unique_name_loop].
    rewrite bool_decide_false by (intros Hin; apply Hfree; by left).
    destruct (GetNodesByName_length (candidateName className id) s Hnames)
      as (nodes & -> & [[Hzero _]|[_ Hnode]]).
    + by rewrite decide_True.
    + exfalso. apply Hfree. by right.
  - destruct (GetNodesByName_length (candidateName className id) s Hnames)
      as (nodes & Hget & Hnodes).
    assert (Hstep : ∀ r, (id + 1 ≤ r)%Z →
              name_taken uniqueIDs s (candidateName className id) →
              ¬ name_taken uniqueIDs s (candidateName className r) →
              (∀ j, (id + 1 ≤ j < r)%Z →
                    name_taken uniqueIDs s (candidateName className j)) →
              (id ≤ r)%Z ∧
              ¬ name_taken uniqueIDs s (candidateName className r) ∧
              ∀ j, (id ≤ j < r)%Z →
                   name_taken uniqueIDs s (candidateName className j)).
    { intros r Hle Hid Hfree Hbelow. split_and!; [lia|done|].
      intros j Hj. destruct (decide (j = id)) as [->|Hne]; [done|].
      apply Hbelow. lia. }
    assert (Hrec : name_taken uniqueIDs s (candidateName className id) →
              ∃ r,
                unique_name_loop fuel className (id + 1) uniqueIDs s
                = Some (r, candidateName className r) ∧
                (id ≤ r)%Z ∧
                ¬ name_taken uniqueIDs s (candidateName className r) ∧
                ∀ j, (id ≤ j < r)%Z →
                     name_taken uniqueIDs s (candidateName className j)).
    { intros Hid.
      destruct (IH (id + 1)%Z
                  (filter (λ y, y ≠ candidateName className id) taken))
        as (r & Heq & Hle & Hfree & Hbelow).
      - intros j Hj Hin. apply list_elem_of_filter. split.
        + intros Heq%(inj (candidateName className)). lia.
        + apply Htaken; [lia|done].
      - pose proof (length_filter_ne (candidateName className id) taken) as Hlt.
        specialize (Hlt (Htaken id ltac:(lia) Hid)). lia.
      - exists r. split; [done|]. by apply Hstep. }
    cbn [unique_name_loop]. case_bool_decide as Hin.
    + apply Hrec. by left.
    + rewrite Hget. destruct Hnodes as [[Hzero Hnone]|[Hsome Hnode]].
      * rewrite decide_True by done.
        exists id. split_and!; [done|lia| |lia].
        by intros [?|Hnode].
      * rewrite decide_False by done. apply Hrec. by right.
Qed.

(** X22: [GetUniqueNameByString] on a scene whose nodes all have a name.
    The name it returns is the class name followed by an index, it is not
    in [UniqueIDs] and no node of the scene has it; the name is pushed on
    [UniqueIDs], and neither the collection nor a node changes.  A second
    call for the class returns another name, again unused. *)
Theorem GetUniqueNameByString_unused (className : string)
    (uniqueIDs : list string) (s : vtkMRMLScene) :
  (∀ p, p ∈ CurrentScene s → Name (GetNode s p) ≠ None) →
  ∃ index name s',
    GetUniqueNameByString className uniqueIDs s
    = Some (name, uniqueIDs ++ [name], s') ∧
    name = candidateName className index ∧
    ¬ name_taken uniqueIDs s name ∧
    CurrentScene s' = CurrentScene s ∧ Heap s' = Heap s ∧
    ∃ name2 s'',
      GetUniqueNameByString className (uniqueIDs ++ [name]) s'
      = Some (name2, (uniqueIDs ++ [name]) ++ [name2], s'') ∧
      name2 ≠ name ∧ ¬ name_taken uniqueIDs s name2.
Proof.
  intros Hnames.
  assert (Hcall : ∀ ids s1,
    CurrentScene s1 = CurrentScene s → Heap s1 = Heap s →
    ∃ index s2,
      GetUniqueNameByString className ids s1
      = Some (candidateName className index,
              ids ++ [candidateName className index], s2) ∧
      ¬ name_taken ids s (candidateName className index) ∧
      CurrentScene s2 = CurrentScene s ∧ Heap s2 = Heap s).
  { intros ids s1 Hc Hh. unfold GetUniqueNameByString. cbv zeta.
    assert (Htk : ∀ n, name_taken ids s1 n ↔ name_taken ids s n).
    { intros n. unfold name_taken. by rewrite Hc, Hh. }
    destruct (unique_name_loop_spec
                (length ids + length (CurrentScene s1)) className
                (default 0%Z
                   (match UniqueIDByClass s1 !! className with
                    | Some _ => UniqueIDByClass s1
                    | None => <[className:=1%Z]> (UniqueIDByClass s1)
                    end !! className)) ids s1
                (ids ++ ((λ p, default "" (Name (Heap s1 !!! p))) <$> CurrentScene s1)))
      as (r & -> & _ & Hfree & _).
    - intros p Hp. unfold GetNode. rewrite Hh. apply Hnames. by rewrite <- Hc.
    - intros j _ [Hin|(p & Hp & Hname)]; apply elem_of_app; [by left|].
      right. apply list_elem_of_fmap. exists p. by rewrite Hname.
    - by rewrite length_app, length_fmap.
    - exists r. eexists. split; [done|].
      split; [by intros Hin%Htk|]. by split. }
  destruct (Hcall uniqueIDs s eq_refl eq_refl) as (index & s' & Heq & Hfree & Hc & Hh).
  destruct (Hcall (uniqueIDs ++ [candidateName className index]) s' Hc Hh)
    as (index2 & s'' & Heq2 & Hfree2 & _).
  exists index, (candidateName className index), s'.
  split_and!; [done..|].
  exists (candidateName className index2), s''. split_and!; [done| |].
  - intros Hsame. apply Hfree2. left. rewrite Hsame.
    apply elem_of_app. right. by left.
  - intros [Hin|Hnode]; apply Hfree2; [left|by right].
    apply elem_of_app. by left.
Qed.

End UniqueNameTheorems.

(** ** Referenced nodes *)

Section ReferencedTheorems.
Context `{ops : MRMLNodeOps}.

Lemma referenced_ids_ext (s s1 : vtkMRMLScene) (nid : option string)
    (l : list (option ptr * string)) :
  Heap s1 = Heap s → referenced_ids s1 nid l = referenced_ids s nid l.
Proof.
  intros Hh. induction l as [|e l IH]; [done|].
  cbn [referenced_ids]. unfold GetNode. by rewrite Hh, IH.
Qed.

Lemma referenced_ids_Some (s : vtkMRMLScene) (b : string)
    (l : list (option ptr * string)) :
  ∃ ids, referenced_ids s (Some b) l = Some ids ∧
    ∀ id, id ∈ ids ↔ ∃ q, (Some q, id) ∈ l ∧ ID (GetNode s q) = Some b.
Proof.
  induction l as [|[q' rid] l (ids & IH & Hids)].
  - exists []. split; [done|]. intros id. split.
    + by intros ?%elem_of_nil.
    + by intros (q & ?%elem_of_nil & _).
  - cbn [referenced_ids fst snd]. rewrite IH.
    destruct q' as [q|].
    + destruct (ID (GetNode s q)) as [a|] eqn:Ha.
      * cbn. eexists. split; [done|]. intros id.
        case_bool_decide as Hab.
        -- subst a. rewrite elem_of_cons, Hids. split.
           ++ intros [->|(q0 & Hq0 & Hid)].
              ** exists q. split; [left|done].
              ** exists q0. split; [by right|done].
           ++ intros (q0 & [[= -> ->]|Hq0]%elem_of_cons & Hid); [by left|].
              right. by exists q0.
        -- rewrite Hids. split.
           ++ intros (q0 & Hq0 & Hid). exists q0. split; [by right|done].
           ++ intros (q0 & [[= -> ->]|Hq0]%elem_of_cons & Hid); [congruence|].
              by exists q0.
      * exists ids. split; [done|]. intros id. rewrite Hids. split.
        -- intros (q0 & Hq0 & Hid). exists q0. split; [by right|done].
        -- intros (q0 & [[= -> ->]|Hq0]%elem_of_cons & Hid); [congruence|].
           by exists q0.
    + exists ids. split; [done|]. intros id. rewrite Hids. split.
      * intros (q0 & Hq0 & Hid). exists q0. split; [by right|done].
      * intros (q0 & [[=]|Hq0]%elem_of_cons & Hid). by exists q0.
Qed.

Lemma same_view_refl (s : vtkMRMLScene) : cache_ok s → same_view s s.
Proof. by intros Hok. Qed.

Lemma same_view_GetNodeByID (s s1 : vtkMRMLScene) (id : string) :
  same_view s s1 →
  ∃ s2, GetNodeByID (Some id) s1
        = (id_map (Heap s) (CurrentScene s) !! id, s2) ∧ same_view s s2.
Proof.
  intros (Hh & Hc & Hr & Hok). exists (synced s1).
  rewrite GetNodeByID_synced by done. rewrite Hh, Hc. split; [done|].
  split_and!; [done|done|done|].
  apply synced_cache_ok. by destruct Hok as (_ & ? & _).
Qed.

(** The nodes of the scene that are missing from a collection: fewer when
    the collection grows by one of them, and no more when it grows. *)
Lemma missing_nodes_lt (cur refNodes : list ptr) (r : ptr) :
  r ∈ cur → r ∉ refNodes →
  size ((list_to_set cur : gset ptr) ∖ list_to_set (refNodes ++ [r]))
  < size ((list_to_set cur : gset ptr) ∖ list_to_set refNodes).
Proof.
  intros Hr Hnew. apply subset_size. split.
  - intros x. rewrite !elem_of_difference, !elem_of_list_to_set, elem_of_app.
    naive_solver.
  - intros Hsub. specialize (Hsub r).
    rewrite !elem_of_difference, !elem_of_list_to_set, elem_of_app in Hsub.
    destruct Hsub as [_ Hsub]; [done|]. apply Hsub. right. by left.
Qed.

Lemma missing_nodes_le (cur refNodes R : list ptr) :
  size ((list_to_set cur : gset ptr) ∖ list_to_set (refNodes ++ R))
  ≤ size ((list_to_set cur : gset ptr) ∖ list_to_set refNodes).
Proof.
  apply subseteq_size. intros x.
  rewrite !elem_of_difference, !elem_of_list_to_set, elem_of_app. naive_solver.
Qed.

Lemma size_list_to_set_le (l : list ptr) :
  size (list_to_set l : gset ptr) ≤ length l.
Proof.
  induction l as [|x l IH]; [done|].
  cbn [list_to_set length]. rewrite size_union_alt, size_singleton.
  pose proof (subseteq_size (list_to_set l ∖ {[x]}) (list_to_set l : gset ptr))
    as Hle.
  assert (list_to_set l ∖ {[x]} ⊆ (list_to_set l : gset ptr)) as Hsub
    by set_solver.
  specialize (Hle Hsub). lia.
Qed.

Section Closure.
Variable s : vtkMRMLScene.
Hypothesis ids_set : ∀ q, q ∈ CurrentScene s → ID (GetNode s q) ≠ None.

Lemma add_referenced_loop_spec (fuel : nat)
    (rec : ptr → list ptr → vtkMRMLScene → option (list ptr * vtkMRMLScene))
    (node : ptr) :
  (∀ r refNodes s1,
     same_view s s1 → r ∈ CurrentScene s →
     size ((list_to_set (CurrentScene s) : gset ptr) ∖ list_to_set refNodes)
     < fuel →
     adds_referenced s r refNodes (rec r refNodes s1)) →
  ∀ ids refNodes s1,
    same_view s s1 →
    size ((list_to_set (CurrentScene s) : gset ptr) ∖ list_to_set refNodes)
    ≤ fuel →
    (∀ id b, id ∈ ids → id_map (Heap s) (CurrentScene s) !! id = Some b →
             references_node s node b) →
    ∃ R s2,
      add_referenced_loop rec ids refNodes s1 = Some (refNodes ++ R, s2) ∧
      same_view s s2 ∧ NoDup R ∧
      (∀ x, x ∈ R →
            x ∈ CurrentScene s ∧ (x ∉ refNodes) ∧
            rtc (references_node s) node x) ∧
      (∀ id b, id ∈ ids → id_map (Heap s) (CurrentScene s) !! id = Some b →
               b ∈ refNodes ++ R) ∧
      (∀ a b, a ∈ R → references_node s a b → b ∈ refNodes ++ R).
Proof.
  intros Hrec ids. induction ids as [|id ids IH]; intros refNodes s1 Hview Hfuel Hedges.
  - exists [], s1. rewrite app_nil_r.
    split_and!; [done|done|apply NoDup_nil_2| | |].
    + by intros x ?%elem_of_nil.
    + by intros id b ?%elem_of_nil.
    + by intros a b ?%elem_of_nil.
  - cbn [add_referenced_loop].
    destruct (same_view_GetNodeByID s s1 id Hview) as (s1' & -> & Hview').
    destruct (id_map (Heap s) (CurrentScene s) !! id) as [r|] eqn:Hfound.
    + case_bool_decide as Hseen.
      * destruct (IH refNodes s1' Hview' Hfuel)
          as (R & s2 & -> & Hview2 & Hnodup & Hnew & Hids & Hclosed).
        { intros id' b Hid'. apply Hedges. by right. }
        exists R, s2. split_and!; [done..| |done].
        intros id' b [->|Hid']%elem_of_cons Hb; [|by eapply Hids].
        apply elem_of_app. left. congruence.
      * destruct (id_map_lookup_Some _ _ _ _ Hfound) as [Hr _].
        destruct (Hrec r (refNodes ++ [r]) s1' Hview' Hr)
          as (R1 & s2 & -> & Hview2 & Hnodup1 & Hnew1 & Hclosed1).
        { pose proof (missing_nodes_lt (CurrentScene s) refNodes r Hr Hseen).
          lia. }
        destruct (IH ((refNodes ++ [r]) ++ R1) s2 Hview2)
          as (R2 & s3 & -> & Hview3 & Hnodup2 & Hnew2 & Hids2 & Hclosed2).
        { rewrite <- app_assoc.
          pose proof (missing_nodes_le (CurrentScene s) refNodes ([r] ++ R1)).
          lia. }
        { intros id' b Hid'. apply Hedges. by right. }
        assert (Hedge : references_node s node r)
          by (apply (Hedges id); [by left|done]).
        exists ([r] ++ R1 ++ R2), s3.
        assert (Happ : ((refNodes ++ [r]) ++ R1) ++ R2
                       = refNodes ++ [r] ++ R1 ++ R2)
          by (by rewrite <- !app_assoc).
        rewrite Happ in Hids2, Hclosed2.
        split_and!.
        -- by rewrite Happ.
        -- done.
        -- apply NoDup_app. split_and!; [apply NoDup_singleton| |].
           ++ intros x ->%list_elem_of_singleton [Hx|Hx]%elem_of_app.
              ** destruct (Hnew1 r Hx) as (_ & Hnot & _).
                 apply Hnot, elem_of_app. right. by left.
              ** destruct (Hnew2 r Hx) as (_ & Hnot & _).
                 apply Hnot. rewrite <- app_assoc.
                 apply elem_of_app. right. by left.
           ++ apply NoDup_app. split_and!; [done| |done].
              intros x Hx1 Hx2. destruct (Hnew2 x Hx2) as (_ & Hnot & _).
              apply Hnot, elem_of_app. by right.
        -- intros x [->%list_elem_of_singleton|[Hx|Hx]%elem_of_app]%elem_of_app.
           ++ split_and!; [done|done|by apply rtc_once].
           ++ destruct (Hnew1 x Hx) as (Hin & Hnot & Hreach).
              split_and!; [done| |].
              ** intros Hxr. apply Hnot, elem_of_app. by left.
              ** by eapply rtc_l.
           ++ destruct (Hnew2 x Hx) as (Hin & Hnot & Hreach).
              split_and!; [done| |done].
              intros Hxr. apply Hnot. rewrite <- app_assoc.
              apply elem_of_app. by left.
        -- intros id' b [->|Hid']%elem_of_cons Hb; [|by eapply Hids2].
           assert (b = r) as -> by congruence.
           apply elem_of_app. right. by left.
        -- intros a b [->%list_elem_of_singleton|[Ha|Ha]%elem_of_app]%elem_of_app
             Hab.
           ++ specialize (Hclosed1 r b (or_introl eq_refl) Hab).
              rewrite <- app_assoc in Hclosed1. rewrite !app_assoc.
              apply elem_of_app. left. by rewrite <- !app_assoc.
           ++ specialize (Hclosed1 a b (or_intror Ha) Hab).
              rewrite <- app_assoc in Hclosed1. rewrite !app_assoc.
              apply elem_of_app. left. by rewrite <- !app_assoc.
           ++ by eapply Hclosed2.
    + destruct (IH refNodes s1' Hview' Hfuel)
        as (R & s2 & -> & Hview2 & Hnodup & Hnew & Hids & Hclosed).
      { intros id' b Hid'. apply Hedges. by right. }
      exists R, s2. split_and!; [done..| |done].
      intros id' b [->|Hid']%elem_of_cons Hb; [congruence|by eapply Hids].
Qed.

Lemma AddReferencedNodes_spec (fuel : nat) (node : ptr) (refNodes : list ptr)
    (s1 : vtkMRMLScene) :
  same_view s s1 → ID (GetNode s node) ≠ None →
  size ((list_to_set (CurrentScene s) : gset ptr) ∖ list_to_set refNodes)
  < fuel →
  adds_referenced s node refNodes (AddReferencedNodes fuel node refNodes s1).
Proof.
  revert node refNodes s1.
  induction fuel as [|fuel IH]; intros node refNodes s1 Hview Hid Hfuel; [lia|].
  cbn [AddReferencedNodes].
  destruct Hview as (Hh & Hc & Hr & Hok).
  assert (GetNode s1 node = GetNode s node) as ->
    by (unfold GetNode; by rewrite Hh).
  rewrite Hr, (referenced_ids_ext s s1) by done.
  destruct (ID (GetNode s node)) as [b|] eqn:Hb; [|done].
  destruct (referenced_ids_Some s b (references s)) as (ids & -> & Hids).
  destruct (add_referenced_loop_spec fuel (AddReferencedNodes fuel) node)
    with (ids := ids) (refNodes := refNodes) (s1 := s1)
    as (R & s2 & -> & Hview2 & Hnodup & Hnew & Hfound & Hclosed).
  - intros r refNodes' s1' Hview' Hr' Hfuel'. apply IH; [done| |done].
    by apply ids_set.
  - done.
  - lia.
  - intros id b' (q & Hq & Hqid)%Hids Hb'. exists q, id.
    split_and!; [done|congruence|done].
  - exists R, s2. split_and!; [done..|].
    intros a b' [->|Ha] Hab; [|by eapply Hclosed].
    destruct Hab as (q & id & Hq & Hqid & Hb').
    apply (Hfound id); [|done]. apply Hids. exists q. split; [done|congruence].
Qed.

End Closure.

(** X23: [GetReferencedNodes(node)] on a scene whose cache of IDs is up to
    date or stale, when [node] and the nodes of the scene have IDs.  The
    collection it returns starts with [node] and holds, each once, exactly
    the nodes reached from [node] along references, a node referencing
    another when an entry of the reference vectors pairs the ID of the one
    with an ID under which the scene finds the other; all of them but
    [node] are nodes of the scene.  The recursion ends within the depth of
    one more than the number of nodes; the nodes and the collection of the
    scene are not changed.  On NULL the collection returned is empty. *)
Theorem GetReferencedNodes_closure (p : ptr) (s : vtkMRMLScene) :
  cache_ok s →
  (∀ q, q ∈ CurrentScene s → ID (GetNode s q) ≠ None) →
  ID (GetNode s p) ≠ None →
  GetReferencedNodes None s = Some ([], s) ∧
  ∃ nodes s',
    GetReferencedNodes (Some p) s = Some (p :: nodes, s') ∧
    NoDup (p :: nodes) ∧
    (∀ x, x ∈ p :: nodes ↔ rtc (references_node s) p x) ∧
    (∀ x, x ∈ nodes → x ∈ CurrentScene s) ∧
    Heap s' = Heap s ∧ CurrentScene s' = CurrentScene s.
Proof.
  intros Hok Hids Hp. split; [done|]. unfold GetReferencedNodes.
  destruct (AddReferencedNodes_spec s Hids (S (length (CurrentScene s))) p [p] s)
    as (R & s' & -> & (Hh & Hc & _) & Hnodup & Hnew & Hclosed).
  - by apply same_view_refl.
  - done.
  - pose proof (size_list_to_set_le (CurrentScene s)) as Hle.
    pose proof (subseteq_size
                  ((list_to_set (CurrentScene s) : gset ptr) ∖ list_to_set [p])
                  (list_to_set (CurrentScene s))) as Hsub.
    assert ((list_to_set (CurrentScene s) : gset ptr) ∖ list_to_set [p]
            ⊆ list_to_set (CurrentScene s)) as Hincl by set_solver.
    specialize (Hsub Hincl). lia.
  - exists R, s'. cbn [app].
    split_and!; [done| | |intros x Hx; by destruct (Hnew x Hx)|done|done].
    + apply NoDup_cons. split; [|done]. intros Hin.
      destruct (Hnew p Hin) as (_ & Hnot & _). apply Hnot. by left.
    + intros x. split.
      * intros [->|Hx]%elem_of_cons; [done|]. by apply Hnew.
      * revert x. apply (rtc_ind_r (λ x, x ∈ p :: R) p).
        -- by left.
        -- intros y z _ Hyz IH. apply (Hclosed y z); [|done].
           apply elem_of_cons in IH as [->|IH]; [by left|by right].
Qed.

End ReferencedTheorems.

(** ** The theorems at concrete scenes *)

Lemma cache_ok_view_scene : cache_ok view_scene.
Proof. apply cache_stale_cache_ok. split; vm_compute; lia. Qed.

Lemma cache_ok_edited_scene : cache_ok edited_scene.
Proof. apply cache_stale_cache_ok. split; vm_compute; lia. Qed.

Lemma cache_ok_clear_example : cache_ok clear_example.
Proof. apply cache_stale_cache_ok. split; vm_compute; lia. Qed.

Lemma cache_ok_referencing_scene : cache_ok referencing_scene.
Proof. apply cache_stale_cache_ok. split; vm_compute; lia. Qed.

Lemma base_IsA_ClassName (n : vtkMRMLNode) : @IsA base_ops n (ClassName n) = true.
Proof. cbn. by rewrite bool_decide_true. Qed.

Lemma edited_scene_allocated (c : ptr) :
  c ∈ CurrentScene edited_scene → c ∈ dom (Heap edited_scene).
Proof.
  revert c. apply Forall_forall.
  replace (CurrentScene edited_scene) with [1; 3] by (vm_compute; reflexivity).
  repeat first [apply Forall_nil_2|apply Forall_cons_2]; vm_compute; reflexivity.
Qed.

Lemma view_scene_allocated (c : ptr) :
  c ∈ CurrentScene view_scene → c ∈ dom (Heap view_scene).
Proof.
  revert c. apply Forall_forall.
  replace (CurrentScene view_scene) with [1] by (vm_compute; reflexivity).
  repeat first [apply Forall_nil_2|apply Forall_cons_2]; vm_compute; reflexivity.
Qed.

Lemma GetNodeClassesList_sorted_classes_witness :
  (∀ n, @IsA base_ops n (ClassName n) = true) ∧
  NoDup (GetNodeClassesList merged_scene) ∧
  ∀ c, c ∈ GetNodeClassesList merged_scene →
       0 < @GetNumberOfNodesByClass base_ops merged_scene c.
Proof.
  destruct (@GetNodeClassesList_sorted_classes base_ops merged_scene
              base_IsA_ClassName) as (Hnodup & _ & _ & Hcount).
  split; [exact base_IsA_ClassName|]. split; [exact Hnodup|exact Hcount].
Defined.

Lemma registered_example_registry : @registered base_ops example_registry.
Proof. unfold example_registry. repeat constructor. Qed.

Lemma registry_tag_class_round_trip_witness :
  @registered base_ops example_registry ∧
  ∀ t c, GetClassNameByTag t example_registry = Some c →
         @GetTagByClassName base_ops c example_registry = Some t.
Proof.
  destruct (@registry_tag_class_round_trip base_ops example_registry
              registered_example_registry) as (Hback & _).
  - intros n m Hclass. exact Hclass.
  - split; [exact registered_example_registry|exact Hback].
Defined.

Lemma GetNodeByID_finds_scene_nodes_witness :
  cache_ok edited_scene ∧
  ∀ p, (GetNodeByID (Some "vtkMRMLModelNode3") edited_scene).1 = Some p →
       p ∈ CurrentScene edited_scene ∧
       node_key (Heap edited_scene) p = "vtkMRMLModelNode3".
Proof.
  destruct (GetNodeByID_finds_scene_nodes "vtkMRMLModelNode3" edited_scene
              cache_ok_edited_scene) as (Hsound & _).
  split; [exact cache_ok_edited_scene|exact Hsound].
Defined.

Lemma AddNode_then_lookup_witness :
  cache_ok view_scene ∧ AddToScene (GetNode view_scene 3) = true ∧
  ∃ id, id ≠ "" ∧
        (GetNodeByID (Some id) (@AddNode base_ops 3 view_scene).2).1 = Some 3.
Proof.
  assert (AddToScene (GetNode view_scene 3) = true) as Hflag
    by (vm_compute; reflexivity).
  destruct (@AddNode_then_lookup base_ops base_laws 3 view_scene
              cache_ok_view_scene Hflag)
    as (id & Hne & _ & Hfound & _).
  - vm_compute. reflexivity.
  - split; [exact cache_ok_view_scene|]. split; [exact Hflag|].
    exists id. split; [exact Hne|exact Hfound].
Defined.

Lemma NoDup_keys_edited_scene :
  NoDup (node_key (Heap edited_scene) <$> CurrentScene edited_scene).
Proof.
  replace (node_key (Heap edited_scene) <$> CurrentScene edited_scene)
    with ["vtkMRMLModelNode1"; "vtkMRMLModelNode3"] by (vm_compute; reflexivity).
  apply (bool_decide_unpack _). vm_compute. exact I.
Qed.

Lemma elem_of_edited_scene_1 : 1 ∈ CurrentScene edited_scene.
Proof.
  replace (CurrentScene edited_scene) with [1; 3] by (vm_compute; reflexivity).
  apply list_elem_of_here.
Qed.

Lemma RemoveNode_then_lookup_witness :
  cache_ok edited_scene ∧ 1 ∈ CurrentScene edited_scene ∧
  (GetNodeByID (Some (node_key (Heap edited_scene) 1))
     (@RemoveNode base_ops (Some 1) edited_scene)).1 = None.
Proof.
  destruct (@RemoveNode_then_lookup base_ops base_laws 1 edited_scene
              cache_ok_edited_scene NoDup_keys_edited_scene
              elem_of_edited_scene_1) as (_ & Hgone & _).
  split; [exact cache_ok_edited_scene|].
  split; [exact elem_of_edited_scene_1|exact Hgone].
Defined.

Lemma GetUniqueIDIndexByClass_increases_witness :
  cache_ok edited_scene ∧ has_space "vtkMRMLModelNode" = false ∧
  ∃ i1 i2 s1 s2,
    GetUniqueIDIndexByClass "vtkMRMLModelNode" edited_scene = (i1, s1) ∧
    GetUniqueIDIndexByClass "vtkMRMLModelNode" s1 = (i2, s2) ∧
    (i1 < i2)%Z ∧ (i2 + 1 ≤ INT_MAX)%Z.
Proof.
  assert (has_space "vtkMRMLModelNode" = false) as Hname by reflexivity.
  destruct (GetUniqueIDIndexByClass_increases "vtkMRMLModelNode" edited_scene
              cache_ok_edited_scene Hname)
    as (i1 & i2 & s1 & s2 & H1 & H2 & _ & Hlt & _ & _ & _ & _ & _ & Hmax).
  - vm_compute. discriminate.
  - vm_compute. discriminate.
  - split; [exact cache_ok_edited_scene|]. split; [exact Hname|].
    exists i1, i2, s1, s2.
    split; [exact H1|]. split; [exact H2|]. split; [exact Hlt|exact Hmax].
Defined.

Lemma RequestNodeID_sets_id_witness :
  cache_ok edited_scene ∧
  CurrentScene (RequestNodeID (Some 2) (Some "vtkMRMLModelNode3") edited_scene)
  = CurrentScene edited_scene.
Proof.
  destruct (RequestNodeID_sets_id 2 "vtkMRMLModelNode3" edited_scene
              cache_ok_edited_scene) as (_ & _ & Hscene & _).
  split; [exact cache_ok_edited_scene|exact Hscene].
Defined.

Lemma InUndo_edited_scene : InUndo edited_scene = false.
Proof. vm_compute. reflexivity. Qed.

Lemma SaveStateForUndo_then_Undo_witness :
  InUndo edited_scene = false ∧
  CurrentScene (@Undo base_ops (@SaveStateForUndo base_ops None edited_scene))
  = CurrentScene edited_scene ∧
  UndoStack (@Undo base_ops (@SaveStateForUndo base_ops None edited_scene))
  = UndoStack edited_scene.
Proof.
  destruct (@SaveStateForUndo_then_Undo base_ops edited_scene InUndo_edited_scene)
    as (Hscene & _ & _ & Hundo & _).
  split; [exact InUndo_edited_scene|]. split; [exact Hscene|exact Hundo].
Defined.

Lemma SaveStateForUndo_scene_backs_up_witness :
  InUndo edited_scene = false ∧
  CurrentScene (@SaveStateForUndo_scene base_ops edited_scene)
  = CurrentScene edited_scene ∧
  RedoStack (@SaveStateForUndo_scene base_ops edited_scene) = [].
Proof.
  destruct (@SaveStateForUndo_scene_backs_up base_ops edited_scene
              InUndo_edited_scene edited_scene_allocated)
    as (Hscene & Hredo & _).
  split; [exact InUndo_edited_scene|]. split; [exact Hscene|exact Hredo].
Defined.

Lemma Clear_then_AddNode_witness :
  cache_ok clear_example ∧ AddToScene (GetNode clear_example 2) = true ∧
  CurrentScene (@AddNode base_ops 2 (@Clear base_ops 1 clear_example)).2 = [2].
Proof.
  assert (AddToScene (GetNode clear_example 2) = true) as Hflag
    by (vm_compute; reflexivity).
  destruct (@Clear_then_AddNode base_ops 1 2 clear_example)
    as (_ & Hscene & _).
  - discriminate.
  - exact cache_ok_clear_example.
  - exact Hflag.
  - split; [exact cache_ok_clear_example|]. split; [exact Hflag|exact Hscene].
Defined.



Lemma CopyNode_adds_a_new_object_witness :
  cache_ok view_scene ∧
  ((@CopyNode base_ops base_copy_ops 3 view_scene).1 = None →
   CurrentScene (@CopyNode base_ops base_copy_ops 3 view_scene).2
   = CurrentScene view_scene).
Proof.
  destruct (@CopyNode_adds_a_new_object base_ops base_copy_ops 3 view_scene
              cache_ok_view_scene view_scene_allocated) as (_ & Hnone & _).
  split; [exact cache_ok_view_scene|exact Hnone].
Defined.

Lemma view_scene_named (p : ptr) :
  p ∈ CurrentScene view_scene → Name (GetNode view_scene p) ≠ None.
Proof.
  revert p. apply Forall_forall.
  replace (CurrentScene view_scene) with [1] by (vm_compute; reflexivity).
  repeat first [apply Forall_nil_2|apply Forall_cons_2].
  vm_compute. discriminate.
Qed.

Lemma GetUniqueNameByString_unused_witness :
  (∀ p, p ∈ CurrentScene view_scene → Name (GetNode view_scene p) ≠ None) ∧
  ∃ index name s',
    GetUniqueNameByString "vtkMRMLViewNode" ["vtkMRMLViewNode2"] view_scene
    = Some (name, ["vtkMRMLViewNode2"] ++ [name], s') ∧
    name = candidateName "vtkMRMLViewNode" index ∧
    ¬ name_taken ["vtkMRMLViewNode2"] view_scene name.
Proof.
  destruct (GetUniqueNameByString_unused "vtkMRMLViewNode" ["vtkMRMLViewNode2"]
              view_scene view_scene_named)
    as (index & name & s' & Heq & Hname & Hfree & _).
  split; [exact view_scene_named|].
  exists index, name, s'. split; [exact Heq|]. split; [exact Hname|exact Hfree].
Defined.

Lemma referencing_scene_ids (q : ptr) :
  q ∈ CurrentScene referencing_scene → ID (GetNode referencing_scene q) ≠ None.
Proof.
  revert q. apply Forall_forall.
  replace (CurrentScene referencing_scene) with [1; 3]
    by (vm_compute; reflexivity).
  repeat first [apply Forall_nil_2|apply Forall_cons_2];
    vm_compute; discriminate.
Qed.

Lemma GetReferencedNodes_closure_witness :
  cache_ok referencing_scene ∧
  ID (GetNode referencing_scene 1) ≠ None ∧
  ∃ nodes s',
    GetReferencedNodes (Some 1) referencing_scene = Some (1 :: nodes, s') ∧
    NoDup (1 :: nodes) ∧
    ∀ x, x ∈ nodes → x ∈ CurrentScene referencing_scene.
Proof.
  assert (ID (GetNode referencing_scene 1) ≠ None) as Hid
    by (vm_compute; discriminate).
  destruct (GetReferencedNodes_closure 1 referencing_scene
              cache_ok_referencing_scene referencing_scene_ids Hid)
    as (_ & nodes & s' & Heq & Hnodup & _ & Hin & _).
  split; [exact cache_ok_referencing_scene|]. split; [exact Hid|].
  exists nodes, s'. split; [exact Heq|]. split; [exact Hnodup|exact Hin].
Defined.
